(* ===== verification/_CoqProject ===== *)
-Q . S2P
Prelude.v
Request.v
CacheKey.v
ScanPlan.v
Pipeline.v
Scheduler.v
Limiter.v
Context.v
Executor.v
Concurrency.v
