(* ===== verification/Prelude.v ===== *)
(** * A verification development of the StarRocks pipeline fragment executor

    Source: [src/be/src/exec/pipeline/fragment_executor.cpp], the back-end
    code that turns one plan-fragment instance received over RPC into a
    graph of pipelines and drivers, admits it against the process-wide
    driver budget, registers it with its query, and submits its active
    drivers to the driver scheduler.

    ** The program and its parts

    [FragmentExecutor::prepare] (lines 643-742) runs, in this order and
    returning the first error, the memory pre-check of the query pool, then
    - [_prepare_query_ctx] (110-162): duplicate-invocation detection against
      the query's fragment registry, get-or-create of the QueryContext,
      delivery and query expiry ([_calc_delivery_expired_seconds],
      [_calc_query_expired_seconds], 304-329) and the query-wide options;
    - [_prepare_fragment_ctx] (164-185): a fresh FragmentContext;
    - [_prepare_workgroup] (187-212): resolution of the resource group
      (default, default-MV or a registered custom group) and the once-per-
      query initialisation;
    - [_prepare_runtime_state] (214-292): memory limits (query, big-query,
      spill), the runtime-filter parameters, the descriptor table (cached
      per query or per fragment) and the spill manager;
    - [_prepare_global_dict] (625-641);
    - [_prepare_exec_plan] (331-477): query-cache parameters, per-scan-node
      morsel-queue factories, cache-key prefixes, the shared-scan switch and
      the scan-row limit;
    - [_prepare_pipeline_driver] (552-623): pipeline construction, morsel
      factories attached to source pipelines, immediate driver
      instantiation of the active pipelines, the adaptive group-initialise
      events ([create_adaptive_group_initialize_events], 531-550) for the
      deferred ones, and the driver token;
    - [_prepare_stream_load_pipe] (479-529);
    and finally registers the fragment.  Its failure path is
    [_fail_cleanup] (795-806).  [FragmentExecutor::execute] (744-793)
    prepares every driver of the active pipelines and, only if all succeed,
    submits them.

    ** Files

    - [Prelude] (this file): the [StatusOr] error monad that models
      [Status]/[StatusOr] with [RETURN_IF_ERROR]/[ASSIGN_OR_RETURN] as
      notations of [status_scope]; association lists for [std::map]
      ([FindWithDefault]); integer-width predicates; the hint database
      [fe] and the shared tactics.
    - [Request]: the Thrift request ([TExecPlanFragmentParams], its common
      and unique halves as [UnifiedExecPlanFragmentParams]), its accessors
      (84-103) and the pure option computations of the executor (expiry
      seconds, memory limits, runtime-filter parameter choice, resource-
      group choice).
    - [CacheKey]: the byte layout of the query-cache key prefix (423-429),
      int64 in host (little-endian) byte order, with its decoder.
    - [ScanPlan]: [_prepare_exec_plan] as the pure [compute_exec_plan]:
      exchange senders, the cache parameters, the scan-node loop
      ([scan_node_step], [scan_nodes_loop]) and the scan-limit computation.
    - [Pipeline]: pipelines, their source operator factories, the adaptive
      group partition ([partition_pipelines]), the group-initialise events
      ([create_adaptive_group_initialize_events]), their composition
      [activate_pipelines] (591-616), and the event arena with the
      executable [fire_event], the step relation [fire_step] and its
      closure [fire_star].
    - [Scheduler]: the driver scheduler's loop over the event arena,
      [fire_until_quiet], which fires a ready event ([event_ready],
      [next_ready]) until none is left, with fuel; the liveness of phase 2
      of the adaptive schedule.
    - [Limiter]: the driver limiter as the class [DriverLimiter] with its
      laws [DriverLimiterLaws]; the counting limiter is an instance.  The
      executor's theorems are proved against the laws.
    - [Context]: QueryContext, FragmentContext and the two registries
      (query contexts by query id, fragment contexts by instance id).
    - [Executor]: the back end's state [World] (query registry, limiter,
      resource groups, runtime-filter queries, stream-load channels, the
      driver run queue, the clock and the query pool's memory) paired with
      the executor's own fields; the state-and-error monad [M], whose
      errors keep the state reached so that the cleanup sees it; one
      definition per [_prepare_*] step, [prepare], [execute] and
      [_fail_cleanup]; the frame invariant of a prepare and the theorems.
    - [Concurrency]: two RPC threads running [prepare] on one back end,
      one call of [prepare] at a time in any interleaving ([Thread],
      [thread_step], the machine [mstep]); a lemma shows that a thread's
      calls composed in order are [prepare], and an executable
      [run_schedule] runs concrete interleavings.

    ** How the model follows the code

    Each [_prepare_*] step is a definition of the same name that performs
    the same calls in the same order, its early returns as [Err] values.
    A [shared_ptr] to the FragmentContext is an [option] in the executor;
    destroying the context (replacing or resetting [_fragment_ctx]) gives
    its driver token back to the limiter, as the token's destructor does.
    The query registry holds the QueryContext by value, updated through
    the executor's query id, and [count_down_fragments] removes a query
    whose last live fragment goes.  The sequence of steps is [prepare_steps]
    and the [DeferOp] of [prepare] runs [_fail_cleanup false] on the state
    a failed step left.

    ** Theorem groups

    - Failure atomicity of [prepare] (C1): the frame invariant
      [query_frame] holds after [_prepare_query_ctx] and is kept by every
      later step ([preserves] and [keeps_frame], composed through the
      monad's bind); [_fail_cleanup] from the frame restores the registry
      and the limiter.
    - Duplicate detection and registration (C2, C3, C20, C21): the
      registry's live-fragment counts stay exact through [prepare] and the
      [execute] that follows it, on success and on failure (C20), and the
      registry is well typed, every fragment context filed under its own
      ids (C21), which needs the identity of the executor's contexts
      ([ident_view]) to be kept by every step after [_prepare_fragment_ctx].
    - Execute (C6, C7): what a successful [execute] appends to the run
      queue is exactly the drivers of the initially active pipelines, each
      prepared; a failure withdraws the fragment and releases its token.
    - Adaptive activation (C4, C5, C8, C9): an invariant of the activated
      graph, [adaptive_inv], kept by every [fire_step] (rule induction
      over [fire_star]), gives the happens-before edges of the
      group-initialise events and the bound of instantiated drivers by the
      token's size; [Pipeline::instantiate_drivers] appends, so the bound
      needs every group's pipelines to be instantiated once
      ([ai_group_nodup]).
    - Scheduling to quiescence (C10): once no event can fire, every
      pipeline with a source has its drivers, the deferred ones included.
    - The driver budget (C11): composing [prepare] with the scheduler,
      the token acquired at line 619 bounds the drivers of every reachable
      graph and equals the drivers instantiated once the scheduler's loop
      is quiet, for a pipeline builder whose graphs are [schedulable].
    - Concurrent prepares (C12): an invariant of the two-thread machine
      (each thread's position in [prepare], the live fragments it accounts
      for, the registrations) shows that two prepares of one instance
      never both succeed.
    - Stream-load channels (C13): the loop registers the channels of the
      first scan node's driver sequences, then either succeeds (one node)
      or reaches undefined behaviour (a second node: the inner iterator is
      never reset).
    - Query cache and scan limits (C14-C19): shared scan off under the
      cache, the cache switched off by a scan node without per-driver
      ranges, every cache-key prefix well formed and decodable, the scan
      limit in closed form and the rounding of a limit to the chunk size.
    - Expiry (C22-C24) and memory limits (C25): the query and spill limits
      given to the memory trackers, the spill limit computed in binary64
      as line 238 does.
    - The descriptor table (C26): [_prepare_runtime_state] on every branch
      of the table's setup, the [Cancelled] error of a cached table the
      query does not have included.
    Every theorem with hypotheses has a witness that applies it to a
    concrete request on the sample back end of [Executor] (or the sample
    graph of [Pipeline]) evaluated by [vm_compute].  Examples that are
    not claims record the findings of the manifest: the int64 overflow of
    the normalised limit, the duplicate check racing with registration,
    the stream-load channels a failed prepare leaves registered and the
    spill limit above the query limit past [2^53].

    ** Bounds and recursion

    Every loop of the code is a structural recursion over the list it
    iterates.  Event firing, which the code leaves to the scheduler, is
    the relation [fire_step] with the executable [fire_event] and
    [fire_all] for concrete runs; the theorems about reachable graphs are
    by induction on [fire_star].  The one definition with fuel is the
    scheduler's loop [fire_until_quiet]: each firing finishes one of the
    unfinished events ([num_unfired] decreases), and [activate_pipelines]
    adds at most one event per pipeline, so the fuel
    [size (pg_events g0) + length (pg_pipelines g0)] used in C10 and C11
    is enough to reach a state where no event can fire
    ([fire_until_quiet_enough]).

    ** What is not modelled

    Plan-tree creation, operators, sinks and the pipeline builder (their
    results are collaborators of [ExecEnv] or section variables), memory
    trackers (the limits they are created with are modelled), descriptor
    decoding, the runtime-filter worker beyond its set of open queries,
    profiling, timers, logging and the query trace.  In
    [_prepare_runtime_state] two calls are left out for that reason:
    [FragmentContext::init_jit_profile] (line 290) only creates profile
    counters, and [SCOPED_THREAD_LOCAL_MEM_TRACKER_SETTER] (line 244)
    restores the thread's previous tracker on every exit, so neither
    changes state the executor or a theorem reads.  Concurrency is
    modelled at the granularity of the calls of [prepare]: each call is
    atomic, and only two threads are modelled.  Undefined behaviour of
    C++ (the stream-load iterator of line 504) is an [Err
    UndefinedBehavior] outcome: nothing is claimed of what follows it.
    The binary64 product of line 238 is modelled for normal numbers
    (round to nearest, ties to even); subnormals and infinities are not
    reached by an [int64_t] limit and a finite threshold.

    ** What is modelled from the spec

    Code that the executor calls but that is not under [src/]
    (QueryContextMgr, FragmentContextManager, DriverLimiter,
    Pipeline::instantiate_drivers, FragmentContext::total_dop, the
    WorkGroupManager, Event and the driver scheduler's event loop) is
    modelled from the spec and marked [spec_modelled] in the manifest.
    Collaborators whose behaviour the
    spec leaves open (descriptor decoding, plan-tree creation, morsel-queue
    conversion, sink construction, the pipeline builder's output,
    [Driver::prepare]) are fields of [ExecEnv] or section variables: the
    theorems hold for every behaviour of them.

    ** Integers

    Thrift [i32]/[i64] fields are [Z]; the predicates [in_int32] and
    [in_int64] of this file state their ranges where a theorem depends on
    them, and [normalized_limit] keeps C++'s truncating division
    ([Z.quot]).  The [double] threshold of the spill limit is a rational
    ([Q]) rounded to binary64 by [round_binary64] and truncated back to
    [int64_t] by [trunc_to_int64].  Degrees of parallelism and driver counts are [nat].
*)

From stdpp Require Import base list gmap.
From Stdlib Require Import ZArith Lia.

(** ** Status and StatusOr *)

(** The error kinds of the executor and its collaborators.  The names are
    those of [Status::DuplicateRpcInvocation], [Status::Cancelled] and
    [Status::MemoryLimitExceeded] (the query pool's memory pre-check) in the
    code; [ResourceExhausted] is the driver limiter's refusal,
    [InvalidPlan] a malformed plan, [InternalError] a rejected registration,
    and [Passthrough] any error a collaborator returns.
    [UndefinedBehavior] is not a status of the code: it marks the point
    where a run reaches undefined behaviour of C++, after which the code
    has no defined outcome; the model stops there. *)
Inductive ErrorKind : Set :=
| DuplicateRpcInvocation
| Cancelled
| ResourceExhausted
| MemoryLimitExceeded
| InvalidPlan
| InternalError
| Passthrough (code : nat)
| UndefinedBehavior.

#[export] Instance ErrorKind_eq_dec : EqDecision ErrorKind.
Proof. solve_decision. Defined.

Inductive StatusOr (A : Type) : Type :=
| Ok (a : A)
| Err (e : ErrorKind).
Arguments Ok {A} a.
Arguments Err {A} e.

Abbreviation Status := (StatusOr unit).
Definition OK : Status := Ok tt.

Definition sbind {A B} (m : StatusOr A) (f : A -> StatusOr B) : StatusOr B :=
  match m with
  | Ok a => f a
  | Err e => Err e
  end.

Definition is_ok {A} (m : StatusOr A) : bool :=
  match m with Ok _ => true | Err _ => false end.

Declare Scope status_scope.
Delimit Scope status_scope with status.

(** [ASSIGN_OR_RETURN(x, m); k] *)
Notation "x <-? m ;; k" := (sbind m (fun x => k))
  (at level 100, m at next level, k at level 200, right associativity)
  : status_scope.
(** [RETURN_IF_ERROR(m); k] *)
Notation "m ;;? k" := (sbind m (fun _ => k))
  (at level 100, k at level 200, right associativity) : status_scope.

Lemma sbind_Ok_inv {A B} (m : StatusOr A) (f : A -> StatusOr B) b :
  sbind m f = Ok b -> exists a, m = Ok a /\ f a = Ok b.
Proof. destruct m; simpl; [eauto | discriminate]. Qed.

Lemma sbind_Err_inv {A B} (m : StatusOr A) (f : A -> StatusOr B) e :
  sbind m f = Err e -> m = Err e \/ exists a, m = Ok a /\ f a = Err e.
Proof. destruct m; simpl; [eauto | intros [= ->]; auto]. Qed.

Lemma sbind_Ok {A B} (a : A) (f : A -> StatusOr B) : sbind (Ok a) f = f a.
Proof. reflexivity. Qed.

Lemma sbind_Err {A B} e (f : A -> StatusOr B) : sbind (Err e) f = Err e.
Proof. reflexivity. Qed.

(** Bytes compare by their value. *)
#[export] Instance byte_eq_dec : EqDecision Byte.byte.
Proof.
  intros x y. destruct (decide (Byte.to_N x = Byte.to_N y)) as [E|E].
  - left. apply (f_equal Byte.of_N) in E. rewrite !Byte.of_to_N in E. congruence.
  - right. intros ->. done.
Defined.

(** ** Duplicate-free lists *)

Lemma NoDup_perm {A} (l l' : list A) : l ≡ₚ l' -> NoDup l -> NoDup l'.
Proof. by intros ->. Qed.

(** Dropping the middle of a duplicate-free list keeps it duplicate-free. *)
Lemma NoDup_app_drop_middle {A} (a b c : list A) : NoDup (a ++ b ++ c) -> NoDup (a ++ c).
Proof.
  intros Hnd. apply (NoDup_perm _ (b ++ a ++ c)) in Hnd.
  - by apply NoDup_app in Hnd as (_ & _ & ?).
  - by rewrite !app_assoc, (Permutation_app_comm a b).
Qed.

(** Sums over a list agree when the summands agree on its members. *)
Lemma sum_list_with_ext {A} (f1 f2 : A -> nat) (l : list A) :
  (forall x, x ∈ l -> f1 x = f2 x) -> sum_list_with f1 l = sum_list_with f2 l.
Proof.
  induction l as [|x l IH]; intros Hf; simpl; [done|].
  rewrite (Hf x), IH; [done | | left]. intros y Hy. apply Hf. by right.
Qed.

(** ** Association lists for [std::map] *)

(** [FindWithDefault(m, k, d)] on an ordered [std::map] kept as its list of
    entries in key order. *)
Fixpoint find_with_default {K V} `{EqDecision K} (m : list (K * V)) (k : K) (d : V) : V :=
  match m with
  | [] => d
  | (k', v) :: m' => if decide (k = k') then v else find_with_default m' k d
  end.

Definition map_count {K V} `{EqDecision K} (m : list (K * V)) (k : K) : bool :=
  bool_decide (k ∈ m.*1).

Lemma find_with_default_in {K V} `{EqDecision K} (m : list (K * V)) k d v :
  find_with_default m k d = v -> v = d \/ (k, v) ∈ m.
Proof.
  induction m as [|[k' v'] m IH]; simpl; [auto|].
  case_decide as Hk; intros <-.
  - subst. right. left.
  - destruct (IH eq_refl) as [|]; [auto | right; by right].
Qed.

Lemma find_with_default_notin {K V} `{EqDecision K} (m : list (K * V)) k d :
  k ∉ m.*1 -> find_with_default m k d = d.
Proof.
  induction m as [|[k' v'] m IH]; simpl; [done|].
  intros Hk. rewrite decide_False; [|set_solver]. apply IH. set_solver.
Qed.

Lemma find_with_default_elem {K V} `{EqDecision K} (m : list (K * V)) k d :
  k ∈ m.*1 -> (k, find_with_default m k d) ∈ m.
Proof.
  induction m as [|[k' v'] m IH]; simpl; [set_solver|].
  intros Hk. case_decide as E.
  - subst. left.
  - right. apply IH. set_solver.
Qed.

Lemma map_count_spec {K V} `{EqDecision K} (m : list (K * V)) k :
  map_count m k = true <-> k ∈ m.*1.
Proof. unfold map_count. apply bool_decide_eq_true. Qed.

(** ** Machine integers *)

Open Scope Z_scope.

Definition INT32_MIN : Z := - 2 ^ 31.
Definition INT32_MAX : Z := 2 ^ 31 - 1.
Definition INT64_MIN : Z := - 2 ^ 63.
Definition INT64_MAX : Z := 2 ^ 63 - 1.

Definition in_int32 (z : Z) : bool := (INT32_MIN <=? z) && (z <=? INT32_MAX).
Definition in_int64 (z : Z) : bool := (INT64_MIN <=? z) && (z <=? INT64_MAX).

Lemma in_int32_iff z : in_int32 z = true <-> INT32_MIN <= z <= INT32_MAX.
Proof. unfold in_int32. rewrite andb_true_iff, !Z.leb_le. done. Qed.

Lemma in_int64_iff z : in_int64 z = true <-> INT64_MIN <= z <= INT64_MAX.
Proof. unfold in_int64. rewrite andb_true_iff, !Z.leb_le. done. Qed.

(** The sum of [f] over a list, in [Z]. *)
Definition zsum {A} (f : A -> Z) (l : list A) : Z := foldr (fun x acc => f x + acc) 0 l.

Lemma zsum_cons {A} (f : A -> Z) x l : zsum f (x :: l) = f x + zsum f l.
Proof. reflexivity. Qed.

(** Rounding a positive quantity up to a multiple of a positive step, in the
    form the code writes it: [(l + c - 1) / c * c]. *)
Lemma round_up_bounds (l c : Z) :
  0 < c -> 0 <= l -> l <= (l + c - 1) / c * c < l + c.
Proof.
  intros Hc Hl.
  pose proof (Z.div_mod (l + c - 1) c ltac:(lia)) as Hdm.
  pose proof (Z.mod_pos_bound (l + c - 1) c Hc) as Hb.
  rewrite Z.mul_comm. lia.
Qed.

Lemma round_up_multiple (l c : Z) :
  0 < c -> ((l + c - 1) / c * c) mod c = 0.
Proof. intros Hc. apply Z.mod_mul. lia. Qed.

Close Scope Z_scope.

(** ** Automation *)

Create HintDb fe discriminated.
Create Rewrite HintDb fe_rw.
#[export] Hint Resolve sbind_Ok_inv sbind_Err_inv : fe.
#[export] Hint Rewrite @sbind_Ok @sbind_Err @zsum_cons : fe_rw.

(** Split a hypothesis [sbind m f = Ok b] into the successful step and the
    continuation. *)
Ltac status_inv H :=
  let a := fresh "a" in
  let Ha := fresh "Hstep" in
  apply sbind_Ok_inv in H as (a & Ha & H).

(** Case on every [StatusOr] scrutinee of a [sbind] in the goal. *)
Ltac status_cases :=
  repeat match goal with
  | |- context [sbind ?m _] =>
      let E := fresh "E" in destruct m eqn:E; simpl
  end.
