(* ===== verification/Request.v ===== *)
(** * The fragment request and the executor's option computations

    The Thrift request [TExecPlanFragmentParams] as the executor reads it,
    its common/unique split [UnifiedExecPlanFragmentParams] with the
    accessors of [fragment_executor.cpp] lines 84-103, and the pure
    computations of the executor on its options: the expiry seconds
    (304-329), the memory limits (230-239), the runtime-filter parameters
    (254-261), the resource-group choice (187-205) and the scan options
    (341-346).  An unset Thrift field ([__isset] false) is [None].  The
    theorems bound the expiry seconds and the memory limits; the spill
    limit is computed as line 238 does, a product of [double]s rounded to
    nearest and truncated back to [int64_t]. *)

From S2P Require Import Prelude.
From stdpp Require Import base list gmap.
From Stdlib Require Import ZArith QArith Lia.

Open Scope Z_scope.

(** ** Thrift data *)

Inductive TTabletInternalParallelMode : Set := AUTO | FORCE_SPLIT.

Inductive TDataSinkType : Set :=
| DATA_STREAM_SINK | RESULT_SINK | OLAP_TABLE_SINK | MEMORY_SCRATCH_SINK
| MYSQL_TABLE_SINK | EXPORT_SINK | MULTI_CAST_DATA_STREAM_SINK
| SCHEMA_TABLE_SINK | ICEBERG_TABLE_SINK | HIVE_TABLE_SINK
| TABLE_FUNCTION_TABLE_SINK | BLACKHOLE_TABLE_SINK | DICTIONARY_CACHE_SINK.

#[export] Instance TDataSinkType_eq_dec : EqDecision TDataSinkType.
Proof. solve_decision. Defined.

Record TDataSink := { sink_type : TDataSinkType }.

Record TQueryQueueOptions := {
  enable_group_level_query_queue : option bool }.

Record TQueryOptions := {
  query_timeout : option Z;
  query_delivery_timeout : option Z;
  enable_pipeline_level_shuffle : option bool;
  enable_profile : option bool;
  big_query_profile_threshold : option Z;
  pipeline_profile_level : option Z;
  runtime_profile_report_interval : option Z;
  enable_query_debug_trace : option bool;
  query_mem_limit : option Z;
  enable_spill : option bool;
  spill_mem_limit_threshold : Q;
  enable_tablet_internal_parallel : option bool;
  tablet_internal_parallel_mode : option TTabletInternalParallelMode;
  query_queue_options : option TQueryQueueOptions }.

(** The resource-group descriptor of the request. *)
Record TWorkGroup := {
  twg_id : Z;
  twg_big_query_mem_limit : Z;
  twg_big_query_scan_rows_limit : Z }.

Record TInternalScanRange := { tablet_id : Z; partition_id : Z }.

Record TBrokerScanRange := {
  channel_id : option Z;
  load_label : list Byte.byte;
  load_txn_id : Z }.

Record TScanRange := {
  internal_scan_range : option TInternalScanRange;
  broker_scan_range : option TBrokerScanRange }.

Record TScanRangeParams := { scan_range : TScanRange }.

(** [std::map<int32_t, std::vector<TScanRangeParams>>], in key order. *)
Abbreviation PerDriverScanRangesMap := (list (Z * list TScanRangeParams)).

Record TCacheParam := {
  tc_id : Z;
  tc_digest : list Byte.byte;
  tc_force_populate : bool;
  tc_entry_max_bytes : Z;
  tc_entry_max_rows : Z;
  tc_slot_remapping : list (Z * Z);
  tc_can_use_multiversion : bool;
  tc_keys_type : Z;
  tc_cached_plan_node_ids : option (list Z);
  tc_region_map : list (Z * list Byte.byte) }.

Record TRuntimeFilterParams := { id_to_prober_params : list Z }.

Record TAdaptiveDopParam := {
  max_block_rows_per_driver_seq : Z;
  max_output_amplification_factor : Z }.

(** The plan, handed to [ExecNode::create_tree]; the executor itself only
    moves it into the fragment context. *)
Record TPlan := { tplan_nodes : list Z }.

Record TPlanFragment := {
  plan : TPlan;
  output_sink : option TDataSink;
  cache_param : option TCacheParam;
  query_global_dicts : option (list Z);
  query_global_dict_exprs : option (list Z);
  load_global_dicts : option (list Z) }.

Record TDescriptorTable := { is_cached : option bool }.

Record TPlanFragmentExecParams := {
  query_id : Z;
  fragment_instance_id : Z;
  instances_number : option Z;
  per_node_scan_ranges : list (Z * list TScanRangeParams);
  per_exch_num_senders : list (Z * Z);
  node_to_per_driver_seq_scan_ranges : option (list (Z * PerDriverScanRangesMap));
  runtime_filter_params : option TRuntimeFilterParams;
  sender_id : Z }.

Record TExecPlanFragmentParams := {
  params : TPlanFragmentExecParams;
  coord : Z;
  fragment : TPlanFragment;
  desc_tbl : TDescriptorTable;
  query_options : TQueryOptions;
  workgroup : option TWorkGroup;
  adaptive_dop_param : option TAdaptiveDopParam;
  enable_shared_scan : option bool;
  func_version : option Z;
  pipeline_dop : option Z;
  pipeline_sink_dop : option Z;
  is_stream_pipeline : bool;
  backend_num : Z }.

(** [UnifiedExecPlanFragmentParams]: the part common to all instances of the
    fragment and the part unique to this instance. *)
Record UnifiedExecPlanFragmentParams := {
  common : TExecPlanFragmentParams;
  unique : TExecPlanFragmentParams }.

(** ** Accessors (lines 84-103 and the header) *)

Definition scan_ranges_of_node (r : UnifiedExecPlanFragmentParams) (node_id : Z)
    : list TScanRangeParams :=
  find_with_default (per_node_scan_ranges (params (unique r))) node_id [].

Definition per_driver_seq_scan_ranges_of_node (r : UnifiedExecPlanFragmentParams)
    (node_id : Z) : PerDriverScanRangesMap :=
  match node_to_per_driver_seq_scan_ranges (params (unique r)) with
  | None => []
  | Some m => find_with_default m node_id []
  end.

(** [output_sink()]: the unique request's sink when it is set, otherwise the
    common one; [None] when neither is set ([isset_output_sink()] false). *)
Definition req_output_sink (r : UnifiedExecPlanFragmentParams) : option TDataSink :=
  match output_sink (fragment (unique r)) with
  | Some s => Some s
  | None => output_sink (fragment (common r))
  end.

Definition req_fragment_instance_id (r : UnifiedExecPlanFragmentParams) : Z :=
  fragment_instance_id (params (unique r)).

Definition req_query_id (r : UnifiedExecPlanFragmentParams) : Z :=
  query_id (params (common r)).

Definition req_query_options (r : UnifiedExecPlanFragmentParams) : TQueryOptions :=
  query_options (common r).

(** ** Expiry seconds (lines 304-329) *)

(** [QueryContext::DEFAULT_EXPIRE_SECONDS]. *)
Definition DEFAULT_EXPIRE_SECONDS : Z := 300.

Definition _calc_delivery_expired_seconds (r : UnifiedExecPlanFragmentParams) : Z :=
  let qo := req_query_options r in
  let expired_seconds :=
    match query_delivery_timeout qo with
    | Some delivery =>
        match query_timeout qo with
        | Some timeout => Z.min timeout delivery
        | None => delivery
        end
    | None =>
        match query_timeout qo with
        | Some timeout => timeout
        | None => DEFAULT_EXPIRE_SECONDS
        end
    end in
  Z.max 1 expired_seconds.

Definition _calc_query_expired_seconds (r : UnifiedExecPlanFragmentParams) : Z :=
  match query_timeout (req_query_options r) with
  | Some timeout => Z.max 1 timeout
  | None => DEFAULT_EXPIRE_SECONDS
  end.

(** ** Memory limits (lines 230-239) *)

(** [option_query_mem_limit]: the option when set and positive, else -1. *)
Definition option_query_mem_limit (qo : TQueryOptions) : Z :=
  let v := match query_mem_limit qo with Some v => v | None => -1 end in
  if v <=? 0 then -1 else v.

(** *** [double] arithmetic *)

(** [2^e <= a / q], for positive [a] and [q]. *)
Definition pow2_le_frac (e a q : Z) : bool :=
  if 0 <=? e then 2 ^ e * q <=? a else q <=? a * 2 ^ (- e).

(** [floor(log2(a / q))] for positive [a] and [q]: the difference of the
    integer logarithms is it or one more. *)
Definition log2_frac (a q : Z) : Z :=
  let e := Z.log2 a - Z.log2 q in
  if pow2_le_frac e a q then e else e - 1.

(** [n / d] rounded to the nearest integer, ties to even ([d > 0]). *)
Definition Zdiv_round_even (n d : Z) : Z :=
  let f := n / d in
  match Z.compare (2 * (n mod d)) d with
  | Lt => f
  | Gt => f + 1
  | Eq => if Z.even f then f else f + 1
  end.

(** The [double] nearest to [x]: IEEE 754 binary64 rounds to nearest, ties
    to even, to a 53-bit significand [m] times [2^(e - 52)] for the
    exponent [e] of [x].  Subnormal results and the overflow to infinity
    are not modelled; they change no [int64_t] the result is converted
    back to (a subnormal truncates to 0, and an overflowing value is
    outside [int64_t] either way). *)
Definition round_binary64 (x : Q) : Q :=
  let p := Qnum x in
  let q := Zpos (Qden x) in
  if p =? 0 then 0%Q else
  let a := Z.abs p in
  let s := 52 - log2_frac a q in
  if 0 <=? s then Qmake (Z.sgn p * Zdiv_round_even (a * 2 ^ s) q) (Z.to_pos (2 ^ s))
  else inject_Z (Z.sgn p * Zdiv_round_even a (q * 2 ^ (- s)) * 2 ^ (- s)).

(** The conversion of a [double] to [int64_t]: truncation toward zero;
    undefined outside the range of [int64_t]. *)
Definition trunc_to_int64 (x : Q) : Z := Z.quot (Qnum x) (Zpos (Qden x)).

(** [int64_t spill_mem_limit_bytes = option_query_mem_limit * threshold]
    (line 238): the limit is converted to [double] (the usual arithmetic
    conversion), multiplied by the [double] threshold with rounding, and
    the product converted back to [int64_t].  The threshold is a Thrift
    [double], a binary64 value. *)
Definition spill_mem_limit_bytes (qo : TQueryOptions) : Z :=
  let limit := option_query_mem_limit qo in
  if bool_decide (enable_spill qo = Some true) && (0 <? limit) then
    trunc_to_int64 (round_binary64 (round_binary64 (inject_Z limit) * spill_mem_limit_threshold qo))
  else -1.

(** ** Runtime-filter parameters (lines 254-261) *)

Definition rf_params_nonempty (p : option TRuntimeFilterParams) : option TRuntimeFilterParams :=
  match p with
  | Some q => if bool_decide (id_to_prober_params q = []) then None else Some q
  | None => None
  end.

Definition runtime_filter_params_of (r : UnifiedExecPlanFragmentParams)
    : option TRuntimeFilterParams :=
  match rf_params_nonempty (runtime_filter_params (params (unique r))) with
  | Some p => Some p
  | None => rf_params_nonempty (runtime_filter_params (params (common r)))
  end.

(** ** Resource-group choice (lines 189-205) *)

(** [WorkGroup::DEFAULT_WG_ID] and [WorkGroup::DEFAULT_MV_WG_ID]. *)
Definition DEFAULT_WG_ID : Z := 0.
Definition DEFAULT_MV_WG_ID : Z := 1.

Inductive WgChoice :=
| UseDefaultWg
| UseDefaultMvWg
| UseCustomWg (w : TWorkGroup).

Definition workgroup_choice (r : UnifiedExecPlanFragmentParams) : WgChoice :=
  match workgroup (common r) with
  | None => UseDefaultWg
  | Some w =>
      if Z.eqb (twg_id w) DEFAULT_WG_ID then UseDefaultWg
      else if Z.eqb (twg_id w) DEFAULT_MV_WG_ID then UseDefaultMvWg
      else UseCustomWg w
  end.

(** The runtime resource group ([workgroup::WorkGroup]) with the quotas the
    executor reads: the big-query memory ceiling and the big-query scan-row
    ceiling (a value <= 0 means none). *)
Record WorkGroup := {
  wg_id : Z;
  wg_use_big_query_mem_limit : bool;
  wg_big_query_mem_limit : Z;
  wg_big_query_scan_rows_limit : Z }.

(** [WorkGroup(const TWorkGroup&)]: the big-query memory ceiling is in use
    when it is positive. *)
Definition workgroup_of_thrift (t : TWorkGroup) : WorkGroup := {|
  wg_id := twg_id t;
  wg_use_big_query_mem_limit := 0 <? twg_big_query_mem_limit t;
  wg_big_query_mem_limit := twg_big_query_mem_limit t;
  wg_big_query_scan_rows_limit := twg_big_query_scan_rows_limit t |}.

(** [int64_t big_query_mem_limit = wg->use_big_query_mem_limit() ?
    wg->big_query_mem_limit() : -1] (line 235). *)
Definition big_query_mem_limit (wg : WorkGroup) : Z :=
  if wg_use_big_query_mem_limit wg then wg_big_query_mem_limit wg else -1.

Definition group_level_query_queue (r : UnifiedExecPlanFragmentParams) : bool :=
  match query_queue_options (req_query_options r) with
  | Some q => match enable_group_level_query_queue q with Some b => b | None => false end
  | None => false
  end.

(** ** Scan options (lines 341-346) *)

Definition flag (b : option bool) : bool :=
  match b with Some true => true | _ => false end.

Definition req_enable_shared_scan (r : UnifiedExecPlanFragmentParams) : bool :=
  flag (enable_shared_scan (common r)).

Definition req_enable_tablet_internal_parallel (r : UnifiedExecPlanFragmentParams) : bool :=
  flag (enable_tablet_internal_parallel (req_query_options r)).

Definition req_tablet_internal_parallel_mode (r : UnifiedExecPlanFragmentParams)
    : TTabletInternalParallelMode :=
  match tablet_internal_parallel_mode (req_query_options r) with
  | Some m => m
  | None => AUTO
  end.

Close Scope Z_scope.

(** ** Sample requests *)

(** All options unset, as Thrift decodes an empty [TQueryOptions]. *)
Definition empty_query_options : TQueryOptions := {|
  query_timeout := None; query_delivery_timeout := None;
  enable_pipeline_level_shuffle := None; enable_profile := None;
  big_query_profile_threshold := None; pipeline_profile_level := None;
  runtime_profile_report_interval := None; enable_query_debug_trace := None;
  query_mem_limit := None; enable_spill := None; spill_mem_limit_threshold := 0%Q;
  enable_tablet_internal_parallel := None; tablet_internal_parallel_mode := None;
  query_queue_options := None |}.

Definition with_timeouts (timeout delivery : option Z) (qo : TQueryOptions) : TQueryOptions :=
  {| query_timeout := timeout; query_delivery_timeout := delivery;
     enable_pipeline_level_shuffle := enable_pipeline_level_shuffle qo;
     enable_profile := enable_profile qo;
     big_query_profile_threshold := big_query_profile_threshold qo;
     pipeline_profile_level := pipeline_profile_level qo;
     runtime_profile_report_interval := runtime_profile_report_interval qo;
     enable_query_debug_trace := enable_query_debug_trace qo;
     query_mem_limit := query_mem_limit qo; enable_spill := enable_spill qo;
     spill_mem_limit_threshold := spill_mem_limit_threshold qo;
     enable_tablet_internal_parallel := enable_tablet_internal_parallel qo;
     tablet_internal_parallel_mode := tablet_internal_parallel_mode qo;
     query_queue_options := query_queue_options qo |}.

Definition with_spill (limit : option Z) (spill : option bool) (threshold : Q) (qo : TQueryOptions)
    : TQueryOptions :=
  {| query_timeout := query_timeout qo; query_delivery_timeout := query_delivery_timeout qo;
     enable_pipeline_level_shuffle := enable_pipeline_level_shuffle qo;
     enable_profile := enable_profile qo;
     big_query_profile_threshold := big_query_profile_threshold qo;
     pipeline_profile_level := pipeline_profile_level qo;
     runtime_profile_report_interval := runtime_profile_report_interval qo;
     enable_query_debug_trace := enable_query_debug_trace qo;
     query_mem_limit := limit; enable_spill := spill;
     spill_mem_limit_threshold := threshold;
     enable_tablet_internal_parallel := enable_tablet_internal_parallel qo;
     tablet_internal_parallel_mode := tablet_internal_parallel_mode qo;
     query_queue_options := query_queue_options qo |}.

Definition empty_fragment : TPlanFragment := {|
  plan := {| tplan_nodes := [] |}; output_sink := None; cache_param := None;
  query_global_dicts := None; query_global_dict_exprs := None; load_global_dicts := None |}.

Definition mk_exec_params (qid fid : Z) (per_node : list (Z * list TScanRangeParams))
    (per_driver : option (list (Z * PerDriverScanRangesMap))) : TPlanFragmentExecParams := {|
  query_id := qid; fragment_instance_id := fid; instances_number := None;
  per_node_scan_ranges := per_node; per_exch_num_senders := [];
  node_to_per_driver_seq_scan_ranges := per_driver; runtime_filter_params := None;
  sender_id := 0 |}.

Definition mk_half (ep : TPlanFragmentExecParams) (qo : TQueryOptions) (frag : TPlanFragment)
    (wg : option TWorkGroup) (dop : option Z) : TExecPlanFragmentParams := {|
  params := ep; coord := 0; fragment := frag;
  desc_tbl := {| is_cached := None |}; query_options := qo; workgroup := wg;
  adaptive_dop_param := None; enable_shared_scan := Some true; func_version := None;
  pipeline_dop := dop; pipeline_sink_dop := None; is_stream_pipeline := false;
  backend_num := 0 |}.

Definition sample_request (qid fid : Z) (qo : TQueryOptions) : UnifiedExecPlanFragmentParams :=
  let h := mk_half (mk_exec_params qid fid [] None) qo empty_fragment None None in
  {| common := h; unique := h |}.

(** ** Properties of the expiry computation *)

Section Expiry.
Open Scope Z_scope.
Context (r : UnifiedExecPlanFragmentParams).

(** Each branch of [_calc_delivery_expired_seconds]: the smaller of the
    two timeouts when both are set, the one that is set otherwise, the
    default when neither is; clipped below at one second. *)
Lemma delivery_expired_seconds_cases :
  _calc_delivery_expired_seconds r =
    match query_delivery_timeout (req_query_options r), query_timeout (req_query_options r) with
    | Some d, Some t => Z.max 1 (Z.min t d)
    | Some d, None => Z.max 1 d
    | None, Some t => Z.max 1 t
    | None, None => DEFAULT_EXPIRE_SECONDS
    end.
Proof.
  unfold _calc_delivery_expired_seconds.
  destruct (query_delivery_timeout _), (query_timeout _); reflexivity.
Qed.

Lemma query_expired_seconds_pos : 1 <= _calc_query_expired_seconds r.
Proof.
  unfold _calc_query_expired_seconds, DEFAULT_EXPIRE_SECONDS.
  destruct (query_timeout _); lia.
Qed.

Lemma delivery_expired_seconds_pos : 1 <= _calc_delivery_expired_seconds r.
Proof. unfold _calc_delivery_expired_seconds. lia. Qed.
End Expiry.

(** ** Expiry theorems *)

Section ExpiryTheorems.
Open Scope Z_scope.

(** C22: the delivery expiry never exceeds the query expiry once a query
    timeout is set: the delivery deadline cannot outlive the query. *)
Theorem delivery_expiry_within_query_expiry r t :
  query_timeout (req_query_options r) = Some t ->
  _calc_delivery_expired_seconds r <= _calc_query_expired_seconds r.
Proof.
  intros Ht. rewrite delivery_expired_seconds_cases.
  unfold _calc_query_expired_seconds. rewrite Ht.
  destruct (query_delivery_timeout _); lia.
Qed.

(** C23: both expiries are at least one second and, for timeouts that are
    32-bit [int]s as the Thrift fields are, fit in an [int]. *)
Theorem expired_seconds_bounds r :
  (forall t, query_timeout (req_query_options r) = Some t -> in_int32 t = true) ->
  (forall d, query_delivery_timeout (req_query_options r) = Some d -> in_int32 d = true) ->
  1 <= _calc_delivery_expired_seconds r <= INT32_MAX /\
  1 <= _calc_query_expired_seconds r <= INT32_MAX.
Proof.
  intros Ht Hd. rewrite delivery_expired_seconds_cases.
  unfold _calc_query_expired_seconds.
  destruct (query_delivery_timeout _) as [d|], (query_timeout _) as [t|];
    repeat match goal with
           | H : forall x, Some ?v = Some x -> _ |- _ =>
               specialize (H v eq_refl); apply in_int32_iff in H
           | H : forall x, None = Some x -> _ |- _ => clear H
           end;
    unfold INT32_MIN, INT32_MAX, DEFAULT_EXPIRE_SECONDS in *; lia.
Qed.

(** C24: with only a delivery timeout set, the delivery expiry is that
    timeout and, when it is above the default of 300 seconds, it exceeds
    the query expiry, which falls back to the default. *)
Theorem delivery_expiry_exceeds_query_expiry r d :
  query_timeout (req_query_options r) = None ->
  query_delivery_timeout (req_query_options r) = Some d ->
  DEFAULT_EXPIRE_SECONDS < d ->
  _calc_delivery_expired_seconds r = d /\
  _calc_query_expired_seconds r < _calc_delivery_expired_seconds r.
Proof.
  intros Ht Hd Hgt. rewrite delivery_expired_seconds_cases.
  unfold _calc_query_expired_seconds. rewrite Ht, Hd.
  unfold DEFAULT_EXPIRE_SECONDS in *. lia.
Qed.
End ExpiryTheorems.

(** ** Witnesses *)

Lemma delivery_expiry_within_query_expiry_witness :
  (_calc_delivery_expired_seconds (sample_request 1 1 (with_timeouts (Some 5%Z) (Some 9%Z) empty_query_options))
   <= _calc_query_expired_seconds (sample_request 1 1 (with_timeouts (Some 5%Z) (Some 9%Z) empty_query_options)))%Z.
Proof. apply (delivery_expiry_within_query_expiry _ 5%Z). reflexivity. Defined.

Lemma expired_seconds_bounds_witness :
  let r := sample_request 1 1 (with_timeouts (Some 0%Z) (Some (-4)%Z) empty_query_options) in
  (1 <= _calc_delivery_expired_seconds r <= INT32_MAX /\
   1 <= _calc_query_expired_seconds r <= INT32_MAX)%Z.
Proof.
  apply expired_seconds_bounds; cbn; intros ? [= <-]; reflexivity.
Defined.

Lemma delivery_expiry_exceeds_query_expiry_witness :
  let r := sample_request 1 1 (with_timeouts None (Some 600%Z) empty_query_options) in
  _calc_delivery_expired_seconds r = 600%Z /\
  (_calc_query_expired_seconds r < _calc_delivery_expired_seconds r)%Z.
Proof. apply (delivery_expiry_exceeds_query_expiry _ 600%Z); [reflexivity | reflexivity | reflexivity]. Defined.

(** ** The memory limits of a query (lines 230-239) *)

Section MemoryLimits.
Open Scope Z_scope.

Lemma Zdiv_round_even_le n d N : 0 < d -> n <= N * d -> Zdiv_round_even n d <= N.
Proof.
  intros Hd Hn. unfold Zdiv_round_even.
  pose proof (Z.div_mod n d ltac:(lia)) as Hdm. pose proof (Z.mod_pos_bound n d Hd) as Hr.
  assert (Hf : n / d <= N) by (apply Z.div_le_upper_bound; nia).
  destruct (Z.eq_dec (n / d) N) as [Heq|Hne].
  - assert (n mod d = 0) as -> by nia.
    replace (Z.compare (2 * 0) d) with Lt by (symmetry; apply Z.compare_lt_iff; lia). lia.
  - destruct (Z.compare _ _); [destruct (Z.even _)|..]; lia.
Qed.

Lemma Zdiv_round_even_nonneg n d : 0 < d -> 0 <= n -> 0 <= Zdiv_round_even n d.
Proof.
  intros Hd Hn. unfold Zdiv_round_even. pose proof (Z.div_pos n d Hn Hd).
  destruct (Z.compare _ _); [destruct (Z.even _)|..]; lia.
Qed.

(** The exponent [log2_frac] finds is not above that of [a / q]. *)
Lemma log2_frac_le a q : 0 < a -> 0 < q -> pow2_le_frac (log2_frac a q) a q = true.
Proof.
  intros Ha Hq. unfold log2_frac.
  pose proof (Z.log2_spec a Ha) as [Ha1 _]. pose proof (Z.log2_spec q Hq) as [_ Hq2].
  pose proof (Z.log2_nonneg a). pose proof (Z.log2_nonneg q).
  set (la := Z.log2 a) in *. set (lq := Z.log2 q) in *.
  destruct (pow2_le_frac (la - lq) a q) eqn:He; [exact He|].
  unfold pow2_le_frac. destruct (Z.leb_spec 0 (la - lq - 1)) as [Hpos|Hneg].
  - apply Z.leb_le.
    assert (2 ^ (la - lq - 1) * 2 ^ Z.succ lq = 2 ^ la) as Hp
      by (rewrite <- Z.pow_add_r by lia; f_equal; lia).
    assert (0 < 2 ^ (la - lq - 1)) by (apply Z.pow_pos_nonneg; lia). nia.
  - apply Z.leb_le.
    assert (2 ^ la * 2 ^ (- (la - lq - 1)) = 2 ^ Z.succ lq) as Hp
      by (rewrite <- Z.pow_add_r by lia; f_equal; lia).
    assert (0 < 2 ^ (- (la - lq - 1))) by (apply Z.pow_pos_nonneg; lia). nia.
Qed.

Lemma Qle_Z_frac (x : Q) (L : Z) : (x <= inject_Z L)%Q <-> Qnum x <= L * Zpos (Qden x).
Proof. unfold Qle. cbn. lia. Qed.

(** Rounding a value between 0 and an integer limit of at most [2^53]
    (a [double] represents every such integer) stays between them. *)
Lemma round_binary64_bounds (x : Q) (L : Z) :
  0 < L <= 2 ^ 53 -> (0 <= x <= inject_Z L)%Q ->
  (0 <= round_binary64 x <= inject_Z L)%Q.
Proof.
  intros HL [Hx0 HxL]. rewrite Qle_Z_frac in HxL.
  assert (Hp0 : 0 <= Qnum x) by (unfold Qle in Hx0; cbn in Hx0; lia).
  unfold round_binary64. set (p := Qnum x) in *. set (q := Zpos (Qden x)) in *.
  assert (Hq : 0 < q) by (subst q; lia).
  destruct (Z.eqb_spec p 0) as [->|Hp]; [split; apply Qle_refl || (rewrite Qle_Z_frac; cbn; lia)|].
  rewrite Z.abs_eq, Z.sgn_pos by lia.
  pose proof (log2_frac_le p q ltac:(lia) Hq) as He. set (e := log2_frac p q) in *.
  unfold pow2_le_frac in He.
  assert (He53 : e <= 53).
  { destruct (Z.leb_spec 0 e); [|lia]. apply Z.leb_le in He.
    destruct (Z.leb_spec e 53) as [|Hbig]; [done|].
    assert (2 ^ 54 <= 2 ^ e) by (apply Z.pow_le_mono_r; lia). nia. }
  destruct (Z.leb_spec 0 (52 - e)) as [Hs|Hs].
  - assert (H2s : 0 < 2 ^ (52 - e)) by (apply Z.pow_pos_nonneg; lia).
    pose proof (Zdiv_round_even_le (p * 2 ^ (52 - e)) q (L * 2 ^ (52 - e)) Hq ltac:(nia)) as Hm.
    pose proof (Zdiv_round_even_nonneg (p * 2 ^ (52 - e)) q Hq ltac:(nia)) as Hm0.
    split; unfold Qle; cbn; rewrite Z2Pos.id by lia; nia.
  - assert (e = 53) as He' by lia. rewrite He' in *. cbn [Z.sub Z.opp Z.pow Z.pow_pos] in *.
    apply Z.leb_le in He.
    assert (HL' : L = 2 ^ 53) by nia.
    pose proof (Zdiv_round_even_le p (q * 2) (2 ^ 52) ltac:(lia) ltac:(lia)) as Hm.
    pose proof (Zdiv_round_even_nonneg p (q * 2) ltac:(lia) Hp0) as Hm0.
    replace (2 ^ (- (52 - 53))) with 2 by reflexivity.
    split; unfold Qle; cbn; lia.
Qed.

Lemma trunc_to_int64_bounds (x : Q) (L : Z) :
  (0 <= x <= inject_Z L)%Q -> 0 <= trunc_to_int64 x <= L.
Proof.
  intros [Hx0 HxL]. rewrite Qle_Z_frac in HxL. unfold Qle in Hx0. cbn in Hx0.
  unfold trunc_to_int64. rewrite Z.quot_div_nonneg by lia. split.
  - apply Z.div_pos; lia.
  - apply Z.div_le_upper_bound; lia.
Qed.

(** C25: the limits passed to [init_mem_tracker].  The query limit is
    [-1] (no limit) or the positive option.  With a spill threshold
    between 0 and 1 and a query limit that a [double] represents exactly
    (at most [2^53]), the spill limit is [-1] unless spill is enabled and
    the query limit is positive, and then it lies between 0 and the query
    limit: the two roundings of line 238 cannot take it above. *)
Theorem memory_limits_bounds qo :
  (0 <= spill_mem_limit_threshold qo <= 1)%Q -> option_query_mem_limit qo <= 2 ^ 53 ->
  (option_query_mem_limit qo = -1 \/
   (query_mem_limit qo = Some (option_query_mem_limit qo) /\ 0 < option_query_mem_limit qo)) /\
  (spill_mem_limit_bytes qo = -1 \/
   (enable_spill qo = Some true /\ 0 < option_query_mem_limit qo /\
    0 <= spill_mem_limit_bytes qo <= option_query_mem_limit qo)).
Proof.
  intros [Ht0 Ht1] HL53. split.
  - unfold option_query_mem_limit. destruct (query_mem_limit qo) as [v|]; [|by left].
    destruct (Z.leb_spec v 0); [by left | right; split; [done | lia]].
  - unfold spill_mem_limit_bytes.
    destruct (bool_decide (enable_spill qo = Some true)) eqn:Hsp; [|by left].
    destruct (Z.ltb_spec 0 (option_query_mem_limit qo)) as [Hpos|]; [|by left]. right.
    apply bool_decide_eq_true in Hsp. split; [done|]. split; [done|].
    set (L := option_query_mem_limit qo) in *. set (th := spill_mem_limit_threshold qo) in *.
    apply trunc_to_int64_bounds, round_binary64_bounds; [lia|].
    destruct (round_binary64_bounds (inject_Z L) L ltac:(lia) ltac:(split; [unfold Qle; cbn; lia | apply Qle_refl]))
      as [HD0 HDL].
    set (D := round_binary64 (inject_Z L)) in *.
    unfold Qle in *. cbn in *. rewrite Pos2Z.inj_mul. nia.
Qed.

(** The limit of [2^53] is needed: a query limit of [2^53 + 3] becomes the
    [double] [2^53 + 4], and with a threshold of 1 the spill limit exceeds
    the query limit (a finding of the manifest). *)
Example spill_mem_limit_above_query_limit :
  let qo := with_spill (Some (2 ^ 53 + 3)) (Some true) 1%Q empty_query_options in
  option_query_mem_limit qo = 2 ^ 53 + 3 /\ spill_mem_limit_bytes qo = 2 ^ 53 + 4.
Proof. vm_compute. split; reflexivity. Qed.
End MemoryLimits.

Lemma memory_limits_bounds_witness :
  let qo := with_spill (Some 1000%Z) (Some true) (Qmake 4 5) empty_query_options in
  spill_mem_limit_bytes qo = 800%Z /\
  (0 <= spill_mem_limit_threshold qo <= 1)%Q /\ (option_query_mem_limit qo <= 2 ^ 53)%Z /\
  (spill_mem_limit_bytes qo = -1 \/
   (enable_spill qo = Some true /\ 0 < option_query_mem_limit qo /\
    0 <= spill_mem_limit_bytes qo <= option_query_mem_limit qo))%Z.
Proof.
  cbv zeta. split; [vm_compute; reflexivity|].
  assert (Ht : (0 <= spill_mem_limit_threshold
                      (with_spill (Some 1000%Z) (Some true) (Qmake 4 5) empty_query_options) <= 1)%Q)
    by (split; unfold Qle; cbn; lia).
  split; [exact Ht|]. split; [vm_compute; discriminate|].
  exact (proj2 (memory_limits_bounds (with_spill (Some 1000%Z) (Some true) (Qmake 4 5) empty_query_options)
                  Ht ltac:(vm_compute; discriminate))).
Defined.
