(* ===== verification/CacheKey.v ===== *)
(** * The query-cache key prefix

    Lines 423-430 of [_prepare_exec_plan] build, for every tablet of a
    cached scan node, the key prefix

      [partition_id bytes ++ region ++ tablet_id bytes]

    by copying the in-memory bytes of the two [int64_t] ids
    (a [uint8_t] pointer to [partition_id], [sizeof(partition_id)] bytes long).  The back end runs
    on little-endian hosts (x86-64 and AArch64), so the bytes of an id are
    its two's-complement value, least significant byte first: [le_bytes 8].
    This file gives that encoding, a decoder, and the theorems that the
    prefix has the length the spec states, decodes back to its three parts,
    and so tells distinct (partition, tablet) pairs apart. *)

From S2P Require Import Prelude.
From stdpp Require Import base list.
From Stdlib Require Import ZArith Lia.

Open Scope Z_scope.

(** ** Bytes of an integer *)

(** The low byte of [z] ([static_cast<uint8_t>]). *)
Definition byte_of_Z (z : Z) : Byte.byte :=
  match Byte.of_N (Z.to_N (z mod 256)) with
  | Some b => b
  | None => Byte.x00
  end.

Definition Z_of_byte (b : Byte.byte) : Z := Z.of_N (Byte.to_N b).

(** The [n] bytes of [z] in memory, least significant first. *)
Fixpoint le_bytes (n : nat) (z : Z) : list Byte.byte :=
  match n with
  | O => []
  | S n' => byte_of_Z z :: le_bytes n' (Z.shiftr z 8)
  end.

(** The unsigned value of a little-endian byte string. *)
Fixpoint le_value (l : list Byte.byte) : Z :=
  match l with
  | [] => 0
  | b :: l' => Z_of_byte b + 256 * le_value l'
  end.

(** Reading eight bytes back as an [int64_t]. *)
Definition int64_of_bytes (l : list Byte.byte) : Z :=
  let u := le_value l in
  if u <? 2 ^ 63 then u else u - 2 ^ 64.

(** ** The prefix and its decoder *)

Definition int64_size : nat := 8.

(** [cache_prefix_key]: lines 423-429.  The [reserve] call only sizes the
    buffer. *)
Definition cache_prefix_key (partition_id : Z) (region : list Byte.byte) (tablet_id : Z)
    : list Byte.byte :=
  le_bytes int64_size partition_id ++ region ++ le_bytes int64_size tablet_id.

(** Splitting a prefix whose region has [region_len] bytes. *)
Definition decode_cache_prefix (region_len : nat) (k : list Byte.byte)
    : option (Z * list Byte.byte * Z) :=
  if decide (length k = int64_size + region_len + int64_size)%nat then
    Some (int64_of_bytes (take int64_size k),
          take region_len (drop int64_size k),
          int64_of_bytes (drop (int64_size + region_len) k))
  else None.

(** ** Lemmas *)

Lemma Z_of_byte_of_Z z : Z_of_byte (byte_of_Z z) = z mod 256.
Proof.
  unfold Z_of_byte, byte_of_Z.
  pose proof (Z.mod_pos_bound z 256 ltac:(lia)) as Hb.
  destruct (Byte.of_N (Z.to_N (z mod 256))) as [b|] eqn:E.
  - apply Byte.to_of_N in E. rewrite E. apply Z2N.id. lia.
  - apply Byte.of_N_None_iff in E. lia.
Qed.

Lemma Z_of_byte_bounds b : 0 <= Z_of_byte b < 256.
Proof. unfold Z_of_byte. pose proof (Byte.to_N_bounded b). lia. Qed.

Lemma length_le_bytes n z : length (le_bytes n z) = n.
Proof. revert z. induction n; intros z; simpl; auto. Qed.

Lemma mod_256_mul z m :
  0 < m -> z mod (256 * m) = z mod 256 + 256 * ((z / 256) mod m).
Proof.
  intros Hm.
  pose proof (Z.div_mod z 256 ltac:(lia)).
  pose proof (Z.div_mod (z / 256) m ltac:(lia)).
  pose proof (Z.mod_pos_bound z 256 ltac:(lia)).
  pose proof (Z.mod_pos_bound (z / 256) m Hm).
  symmetry. apply Z.mod_unique with (q := z / 256 / m); lia.
Qed.

(** The bytes encode [z] modulo [2^(8n)]. *)
Lemma le_value_le_bytes n z : le_value (le_bytes n z) = z mod 2 ^ (8 * Z.of_nat n).
Proof.
  revert z. induction n as [|n IH]; intros z; simpl le_bytes; simpl le_value.
  - rewrite Z.mul_0_r, Z.pow_0_r, Z.mod_1_r. reflexivity.
  - rewrite IH, Z_of_byte_of_Z, Z.shiftr_div_pow2 by lia.
    replace (8 * Z.of_nat (S n)) with (8 + 8 * Z.of_nat n) by lia.
    rewrite Z.pow_add_r by lia.
    rewrite mod_256_mul by (apply Z.pow_pos_nonneg; lia).
    reflexivity.
Qed.

Lemma le_value_bounds l : 0 <= le_value l < 2 ^ (8 * Z.of_nat (length l)).
Proof.
  induction l as [|b l IH]; simpl; [lia|].
  pose proof (Z_of_byte_bounds b).
  replace (8 * Z.of_nat (S (length l))) with (8 + 8 * Z.of_nat (length l)) by lia.
  rewrite Z.pow_add_r by lia. lia.
Qed.

(** Bytes are determined by their value and length. *)
Lemma le_bytes_le_value l : le_bytes (length l) (le_value l) = l.
Proof.
  induction l as [|b l IH]; simpl; [reflexivity|].
  f_equal.
  - unfold byte_of_Z.
    replace ((Z_of_byte b + 256 * le_value l) mod 256) with (Z_of_byte b).
    + unfold Z_of_byte. rewrite N2Z.id, Byte.of_to_N. reflexivity.
    + pose proof (Z_of_byte_bounds b).
      rewrite (Z.mul_comm 256), Z.mod_add, Z.mod_small; lia.
  - rewrite Z.shiftr_div_pow2 by lia.
    replace ((Z_of_byte b + 256 * le_value l) / 2 ^ 8) with (le_value l); [exact IH|].
    pose proof (Z_of_byte_bounds b).
    change (2 ^ 8) with 256.
    rewrite (Z.mul_comm 256), Z.div_add, Z.div_small; lia.
Qed.

(** An [int64_t] survives the round trip through its eight bytes. *)
Lemma int64_of_bytes_le_bytes z :
  in_int64 z = true -> int64_of_bytes (le_bytes int64_size z) = z.
Proof.
  rewrite in_int64_iff. unfold INT64_MIN, INT64_MAX. intros Hz.
  unfold int64_of_bytes. rewrite le_value_le_bytes.
  change (8 * Z.of_nat int64_size) with 64.
  destruct (Z_lt_le_dec z 0) as [Hneg|Hnn].
  - assert (z mod 2 ^ 64 = z + 2 ^ 64) as ->.
    { symmetry. apply Z.mod_unique with (q := -1); lia. }
    rewrite (proj2 (Z.ltb_ge _ _)) by lia. lia.
  - rewrite Z.mod_small by lia.
    rewrite (proj2 (Z.ltb_lt _ _)) by lia. reflexivity.
Qed.

(** ** Properties of the prefix *)

(** The prefix built at lines 423-429 is
    [sizeof(partition_id) + region.size() + sizeof(tablet_id)] bytes long,
    the size the code reserves. *)
Lemma cache_prefix_key_length (partition_id : Z) (region : list Byte.byte) (tablet_id : Z) :
  length (cache_prefix_key partition_id region tablet_id) =
    (int64_size + length region + int64_size)%nat.
Proof.
  unfold cache_prefix_key. rewrite !length_app, !length_le_bytes. lia.
Qed.

(** C17: a prefix decodes back to the partition id, the region bytes and the
    tablet id it was built from, for every pair of [int64_t] ids. *)
Theorem decode_cache_prefix_key (partition_id : Z) (region : list Byte.byte) (tablet_id : Z) :
  in_int64 partition_id = true -> in_int64 tablet_id = true ->
  decode_cache_prefix (length region) (cache_prefix_key partition_id region tablet_id) =
    Some (partition_id, region, tablet_id).
Proof.
  intros Hp Ht. unfold decode_cache_prefix.
  rewrite decide_True by apply cache_prefix_key_length.
  unfold cache_prefix_key.
  rewrite take_app_length' by (symmetry; apply length_le_bytes).
  rewrite drop_app_length' by (symmetry; apply length_le_bytes).
  rewrite take_app_length, app_assoc.
  rewrite drop_app_length' by (rewrite length_app, length_le_bytes; lia).
  rewrite !int64_of_bytes_le_bytes by assumption. reflexivity.
Qed.

Example decode_cache_prefix_key_witness :
  in_int64 (-7) = true /\ in_int64 42 = true /\
  decode_cache_prefix 2 (cache_prefix_key (-7) [Byte.x01; Byte.x02] 42) =
    Some (-7, [Byte.x01; Byte.x02], 42).
Proof.
  split; [reflexivity|]. split; [reflexivity|].
  apply (decode_cache_prefix_key (-7) [Byte.x01; Byte.x02] 42); reflexivity.
Defined.

(** Two tablets whose regions have the same length get the same prefix only
    when partition, region and tablet all agree. *)
Lemma cache_prefix_key_inj p1 r1 t1 p2 r2 t2 :
  length r1 = length r2 ->
  in_int64 p1 = true -> in_int64 t1 = true -> in_int64 p2 = true -> in_int64 t2 = true ->
  cache_prefix_key p1 r1 t1 = cache_prefix_key p2 r2 t2 ->
  p1 = p2 /\ r1 = r2 /\ t1 = t2.
Proof.
  intros Hlen Hp1 Ht1 Hp2 Ht2 Heq. unfold cache_prefix_key in Heq.
  apply app_inj_1 in Heq as [Hp Heq]; [|by rewrite !length_le_bytes].
  apply app_inj_1 in Heq as [Hr Ht]; [|done].
  apply (f_equal int64_of_bytes) in Hp, Ht. rewrite !int64_of_bytes_le_bytes in Hp, Ht by done.
  auto.
Qed.

#[export] Hint Rewrite length_le_bytes le_value_le_bytes : fe_rw.
#[export] Hint Resolve int64_of_bytes_le_bytes : fe.

Close Scope Z_scope.
