(* ===== verification/ScanPlan.v ===== *)
(** * Scan ranges, morsel queues, the query cache and the scan limit

    [FragmentExecutor::_prepare_exec_plan] (lines 331-477), modelled as the
    pure [compute_exec_plan].  After the plan tree is built it
    - gives every exchange node its number of senders (358-364);
    - copies the query-cache parameters into the fragment when the request
      has them and spill is off (372-393);
    - for every scan node, in plan order (395-447): sets the number of cache
      lanes, switches the cache off for the whole fragment when the node has
      no per-driver-sequence scan ranges, computes the cache-key prefix of
      every tablet of a cached node, switches shared scan off while the cache
      is on, asks the node for its morsel-queue factory (the first error
      aborts) and records whether the node scans in shared mode;
    - sums the scan limits (449-466) and sets the query's scan-row limit
      from the resource group's big-query ceiling (468-474).

    The fragment-side state this phase writes is [ExecPlanState]; the plan
    tree ([ExecNode::create_tree]) and the morsel-queue conversion of a scan
    node are collaborators, parameters of the section [ExecPlan]. *)

From S2P Require Import Prelude Request CacheKey.
From stdpp Require Import base list gmap.
From Stdlib Require Import ZArith Lia.

Open Scope Z_scope.
Local Open Scope status_scope.

(** ** Data *)

(** A morsel-queue factory as the executor uses it: whether its lanes pull
    from one shared pool. *)
Record MorselQueueFactory := {
  mqf_is_shared : bool;
  mqf_num_driver_seqs : nat }.

(** A scan node of the built plan: its id, its [limit()] (<= 0: none) and
    its [io_tasks_per_scan_operator()]. *)
Record ScanNode := {
  sn_id : Z;
  sn_limit : Z;
  sn_io_tasks_per_scan_operator : Z }.

(** The result of [ExecNode::create_tree] as far as the executor reads it. *)
Record ExecPlan := {
  ep_root_id : Z;
  ep_exchange_nodes : list Z;
  ep_scan_nodes : list ScanNode }.

(** [CacheParam] of the fragment context. *)
Record CacheParam := {
  cp_plan_node_id : Z;
  cp_digest : list Byte.byte;
  cp_force_populate : bool;
  cp_entry_max_bytes : Z;
  cp_entry_max_rows : Z;
  cp_slot_remapping : gmap Z Z;
  cp_reverse_slot_remapping : gmap Z Z;
  cp_can_use_multiversion : bool;
  cp_keys_type : Z;
  cp_cached_plan_node_ids : gset Z;
  cp_num_lanes : Z;
  cp_cache_key_prefixes : gmap Z (list Byte.byte) }.

Definition empty_cache_param : CacheParam := {|
  cp_plan_node_id := 0; cp_digest := []; cp_force_populate := false;
  cp_entry_max_bytes := 0; cp_entry_max_rows := 0;
  cp_slot_remapping := ∅; cp_reverse_slot_remapping := ∅;
  cp_can_use_multiversion := false; cp_keys_type := 0;
  cp_cached_plan_node_ids := ∅; cp_num_lanes := 0; cp_cache_key_prefixes := ∅ |}.

(** What [compute_exec_plan] writes into the fragment context and the plan:
    the plan, the senders of each exchange node, the cache switch and
    parameters, the morsel-queue factories by scan-node id and each scan
    node's shared-scan flag. *)
Record ExecPlanState := {
  eps_plan : option ExecPlan;
  eps_num_senders : gmap Z Z;
  eps_enable_cache : bool;
  eps_cache_param : CacheParam;
  eps_morsel_queue_factories : gmap Z MorselQueueFactory;
  eps_shared_scan : gmap Z bool }.

Definition empty_exec_plan_state : ExecPlanState := {|
  eps_plan := None; eps_num_senders := ∅; eps_enable_cache := false;
  eps_cache_param := empty_cache_param; eps_morsel_queue_factories := ∅;
  eps_shared_scan := ∅ |}.

(** ** Cache parameters (lines 374-393) *)

Definition set_num_lanes (n : Z) (cp : CacheParam) : CacheParam :=
  {| cp_plan_node_id := cp_plan_node_id cp; cp_digest := cp_digest cp;
     cp_force_populate := cp_force_populate cp; cp_entry_max_bytes := cp_entry_max_bytes cp;
     cp_entry_max_rows := cp_entry_max_rows cp; cp_slot_remapping := cp_slot_remapping cp;
     cp_reverse_slot_remapping := cp_reverse_slot_remapping cp;
     cp_can_use_multiversion := cp_can_use_multiversion cp; cp_keys_type := cp_keys_type cp;
     cp_cached_plan_node_ids := cp_cached_plan_node_ids cp; cp_num_lanes := n;
     cp_cache_key_prefixes := cp_cache_key_prefixes cp |}.

Definition set_cache_key_prefixes (m : gmap Z (list Byte.byte)) (cp : CacheParam) : CacheParam :=
  {| cp_plan_node_id := cp_plan_node_id cp; cp_digest := cp_digest cp;
     cp_force_populate := cp_force_populate cp; cp_entry_max_bytes := cp_entry_max_bytes cp;
     cp_entry_max_rows := cp_entry_max_rows cp; cp_slot_remapping := cp_slot_remapping cp;
     cp_reverse_slot_remapping := cp_reverse_slot_remapping cp;
     cp_can_use_multiversion := cp_can_use_multiversion cp; cp_keys_type := cp_keys_type cp;
     cp_cached_plan_node_ids := cp_cached_plan_node_ids cp; cp_num_lanes := cp_num_lanes cp;
     cp_cache_key_prefixes := m |}.

(** The loop of lines 382-385: both directions of the slot remapping. *)
Definition add_slot_remapping (l : list (Z * Z)) (fw bw : gmap Z Z) : gmap Z Z * gmap Z Z :=
  foldl (fun '(f, b) '(slot, remapped) => (<[slot := remapped]> f, <[remapped := slot]> b))
        (fw, bw) l.

(** Lines 377-391: the Thrift cache parameters copied into the fragment's. *)
Definition copy_cache_param (t : TCacheParam) (cp : CacheParam) : CacheParam :=
  let '(fw, bw) := add_slot_remapping (tc_slot_remapping t)
                     (cp_slot_remapping cp) (cp_reverse_slot_remapping cp) in
  {| cp_plan_node_id := tc_id t; cp_digest := tc_digest t;
     cp_force_populate := tc_force_populate t; cp_entry_max_bytes := tc_entry_max_bytes t;
     cp_entry_max_rows := tc_entry_max_rows t; cp_slot_remapping := fw;
     cp_reverse_slot_remapping := bw;
     cp_can_use_multiversion := tc_can_use_multiversion t; cp_keys_type := tc_keys_type t;
     cp_cached_plan_node_ids :=
       match tc_cached_plan_node_ids t with
       | Some ids => cp_cached_plan_node_ids cp ∪ list_to_set ids
       | None => cp_cached_plan_node_ids cp
       end;
     cp_num_lanes := cp_num_lanes cp;
     cp_cache_key_prefixes := cp_cache_key_prefixes cp |}.

(** Lines 374-393: only when the request has cache parameters and spill is
    off. *)
Definition prepare_cache_param (tcp : option TCacheParam) (enable_spill : bool)
    (st : ExecPlanState) : ExecPlanState :=
  match tcp with
  | Some t =>
      if enable_spill then st
      else {| eps_plan := eps_plan st; eps_num_senders := eps_num_senders st;
              eps_enable_cache := true;
              eps_cache_param := copy_cache_param t (eps_cache_param st);
              eps_morsel_queue_factories := eps_morsel_queue_factories st;
              eps_shared_scan := eps_shared_scan st |}
  | None => st
  end.

(** ** Cache-key prefixes (lines 410-432) *)

(** The inner body for one scan range: ranges that are not internal and
    partitions with no region are skipped. *)
Definition add_cache_key_prefix (region_map : list (Z * list Byte.byte))
    (m : gmap Z (list Byte.byte)) (sr : TScanRangeParams) : gmap Z (list Byte.byte) :=
  match internal_scan_range (scan_range sr) with
  | None => m
  | Some isr =>
      if map_count region_map (partition_id isr) then
        let region := find_with_default region_map (partition_id isr) [] in
        <[tablet_id isr := cache_prefix_key (partition_id isr) region (tablet_id isr)]> m
      else m
  end.

(** The two nested loops over the per-driver-sequence map. *)
Definition compute_cache_key_prefixes (region_map : list (Z * list Byte.byte))
    (per_driver : PerDriverScanRangesMap) (m : gmap Z (list Byte.byte))
    : gmap Z (list Byte.byte) :=
  foldl (fun acc '(_, ranges) => foldl (add_cache_key_prefix region_map) acc ranges)
        m per_driver.

(** [fragment.cache_param.region_map]; an unset [cache_param] is the empty
    default struct. *)
Definition req_region_map (r : UnifiedExecPlanFragmentParams) : list (Z * list Byte.byte) :=
  match cache_param (fragment (common r)) with
  | Some t => tc_region_map t
  | None => []
  end.

(** ** Scan limits (lines 449-474) *)

(** [(limit + chunk_size - 1) / chunk_size * chunk_size], with C++ integer
    division (truncation toward zero). *)
Definition normalized_limit (limit chunk_size : Z) : Z :=
  Z.quot (limit + chunk_size - 1) chunk_size * chunk_size.

(** The loop of lines 451-466 from the accumulators [(logical, physical)]:
    a node without a positive limit sets the logical limit to -1 and breaks. *)
Fixpoint sum_scan_limits (chunk_size dop : Z) (nodes : list ScanNode) (logical physical : Z)
    : Z * Z :=
  match nodes with
  | [] => (logical, physical)
  | sn :: rest =>
      if 0 <? sn_limit sn then
        sum_scan_limits chunk_size dop rest (logical + sn_limit sn)
          (physical + normalized_limit (sn_limit sn) chunk_size * dop
                        * sn_io_tasks_per_scan_operator sn)
      else (-1, physical)
  end.

(** Lines 468-474: the new scan-row limit of the query, [None] when the group
    has no positive big-query scan-row ceiling (the limit is left as is). *)
Definition scan_limit_update (wg : WorkGroup) (logical physical : Z) : option Z :=
  let big := wg_big_query_scan_rows_limit wg in
  if 0 <? big then
    if (0 <=? logical) && (logical <=? big) then Some (Z.max big physical)
    else Some big
  else None.

(** ** The scan-node loop and the whole phase *)

Section ExecPlan.
(** [ExecNode::create_tree] on the fragment's plan. *)
Context (create_tree : TPlan -> StatusOr ExecPlan).
(** [ScanNode::convert_scan_range_to_morsel_queue_factory(scan_ranges,
    scan_ranges_per_driver_seq, node_id, dop, enable_tablet_internal_parallel,
    tablet_internal_parallel_mode)]. *)
Context (convert_scan_range_to_morsel_queue_factory :
          ScanNode -> list TScanRangeParams -> PerDriverScanRangesMap -> Z -> nat ->
          bool -> TTabletInternalParallelMode -> StatusOr MorselQueueFactory).
(** [config::query_cache_num_lanes_per_driver]. *)
Context (query_cache_num_lanes_per_driver : Z).

(** One iteration of the loop of lines 395-447, from the fragment state
    and the local [enable_shared_scan]. *)
Definition scan_node_step (r : UnifiedExecPlanFragmentParams) (dop : nat)
    (sn : ScanNode) (st : ExecPlanState) (enable_shared_scan : bool)
    : StatusOr (ExecPlanState * bool) :=
  let scan_ranges := scan_ranges_of_node r (sn_id sn) in
  let per_driver := per_driver_seq_scan_ranges_of_node r (sn_id sn) in
  let cp1 := set_num_lanes (Z.min 16 (Z.max 1 query_cache_num_lanes_per_driver))
               (eps_cache_param st) in
  let enable_cache := if bool_decide (per_driver = []) then false else eps_enable_cache st in
  let region_map := req_region_map r in
  let cp2 := if enable_cache && bool_decide (sn_id sn ∈ cp_cached_plan_node_ids cp1)
             then set_cache_key_prefixes
                    (compute_cache_key_prefixes region_map per_driver (cp_cache_key_prefixes cp1)) cp1
             else cp1 in
  let enable_shared_scan' := if enable_cache then false else enable_shared_scan in
  mqf <-? convert_scan_range_to_morsel_queue_factory sn scan_ranges per_driver (sn_id sn) dop
            (req_enable_tablet_internal_parallel r) (req_tablet_internal_parallel_mode r) ;;
  Ok ({| eps_plan := eps_plan st; eps_num_senders := eps_num_senders st;
         eps_enable_cache := enable_cache; eps_cache_param := cp2;
         eps_morsel_queue_factories :=
           match eps_morsel_queue_factories st !! sn_id sn with
           | Some _ => eps_morsel_queue_factories st
           | None => <[sn_id sn := mqf]> (eps_morsel_queue_factories st)
           end;
         eps_shared_scan := <[sn_id sn := enable_shared_scan' && mqf_is_shared mqf]>
                              (eps_shared_scan st) |},
      enable_shared_scan').

Fixpoint scan_nodes_loop (r : UnifiedExecPlanFragmentParams) (dop : nat)
    (nodes : list ScanNode) (st : ExecPlanState) (enable_shared_scan : bool)
    : StatusOr (ExecPlanState * bool) :=
  match nodes with
  | [] => Ok (st, enable_shared_scan)
  | sn :: rest =>
      res <-? scan_node_step r dop sn st enable_shared_scan ;;
      scan_nodes_loop r dop rest res.1 res.2
  end.

(** Lines 358-364. *)
Definition set_num_senders (r : UnifiedExecPlanFragmentParams) (exch : list Z)
    (m : gmap Z Z) : gmap Z Z :=
  foldl (fun acc id => <[id := find_with_default (per_exch_num_senders (params (common r))) id 0]> acc)
        m exch.

(** The computation of [_prepare_exec_plan]: the new fragment state and
    the query's new scan limit ([None]: unchanged). *)
Definition compute_exec_plan (r : UnifiedExecPlanFragmentParams) (dop : nat)
    (chunk_size : Z) (enable_spill : bool) (wg : WorkGroup) (st : ExecPlanState)
    : StatusOr (ExecPlanState * option Z) :=
  p <-? create_tree (plan (fragment (common r))) ;;
  let st1 := {| eps_plan := Some p;
                eps_num_senders := set_num_senders r (ep_exchange_nodes p) (eps_num_senders st);
                eps_enable_cache := eps_enable_cache st; eps_cache_param := eps_cache_param st;
                eps_morsel_queue_factories := eps_morsel_queue_factories st;
                eps_shared_scan := eps_shared_scan st |} in
  let st2 := prepare_cache_param (cache_param (fragment (common r))) enable_spill st1 in
  res <-? scan_nodes_loop r dop (ep_scan_nodes p) st2 (req_enable_shared_scan r) ;;
  let limits := sum_scan_limits chunk_size (Z.of_nat dop) (ep_scan_nodes p) 0 0 in
  Ok (res.1, scan_limit_update wg limits.1 limits.2).
End ExecPlan.

Close Scope Z_scope.

(** ** Properties of the scan-node loop *)

Section ScanLoopProps.
Open Scope Z_scope.
Local Open Scope status_scope.
Context (convert : ScanNode -> list TScanRangeParams -> PerDriverScanRangesMap -> Z -> nat ->
                   bool -> TTabletInternalParallelMode -> StatusOr MorselQueueFactory).
Context (num_lanes_cfg : Z) (r : UnifiedExecPlanFragmentParams) (dop : nat).

Local Abbreviation step := (scan_node_step convert num_lanes_cfg r dop).
Local Abbreviation loop := (scan_nodes_loop convert num_lanes_cfg r dop).

(** A step that ends with the cache on started with it on, wrote [false] as
    the node's shared-scan flag and leaves the local switch off. *)
Lemma scan_node_step_cache_on sn st ess st' ess' :
  step sn st ess = Ok (st', ess') -> eps_enable_cache st' = true ->
  eps_enable_cache st = true /\
  eps_shared_scan st' = <[sn_id sn := false]> (eps_shared_scan st) /\ ess' = false.
Proof.
  unfold scan_node_step.
  destruct (convert _ _ _ _ _ _ _); simpl; [|discriminate].
  intros [= <- <-]. simpl.
  case_bool_decide; simpl; [discriminate|].
  intros ->. auto.
Qed.

(** Once off, the cache stays off. *)
Lemma scan_node_step_cache_off sn st ess st' ess' :
  step sn st ess = Ok (st', ess') -> eps_enable_cache st = false ->
  eps_enable_cache st' = false.
Proof.
  unfold scan_node_step.
  destruct (convert _ _ _ _ _ _ _); simpl; [|discriminate].
  intros [= <- <-] Hoff. simpl. case_bool_decide; auto.
Qed.

(** A node with no per-driver-sequence scan ranges switches the cache off. *)
Lemma scan_node_step_empty sn st ess st' ess' :
  per_driver_seq_scan_ranges_of_node r (sn_id sn) = [] ->
  step sn st ess = Ok (st', ess') -> eps_enable_cache st' = false.
Proof.
  unfold scan_node_step. intros Hempty.
  destruct (convert _ _ _ _ _ _ _); simpl; [|discriminate].
  intros [= <- <-]. simpl. rewrite bool_decide_true; auto.
Qed.

Lemma scan_nodes_loop_cache_off nodes st ess st' ess' :
  loop nodes st ess = Ok (st', ess') -> eps_enable_cache st = false ->
  eps_enable_cache st' = false.
Proof.
  revert st ess. induction nodes as [|sn rest IH]; simpl; intros st ess.
  - intros [= <- <-]. auto.
  - intros H Hoff. status_inv H. destruct a as [st1 ess1]. cbn in H.
    eapply IH; [exact H|]. eapply scan_node_step_cache_off; eauto.
Qed.

(** The invariant behind C-cache-shared: along a loop that ends with the
    cache on, shared-scan flags already [false] stay [false] and every
    node of the loop gets [false]. *)
Lemma scan_nodes_loop_cache_on nodes st ess st' ess' :
  loop nodes st ess = Ok (st', ess') -> eps_enable_cache st' = true ->
  eps_enable_cache st = true /\
  (forall k, eps_shared_scan st !! k = Some false -> eps_shared_scan st' !! k = Some false) /\
  (forall sn, sn ∈ nodes -> eps_shared_scan st' !! sn_id sn = Some false).
Proof.
  revert st ess. induction nodes as [|sn rest IH]; simpl; intros st ess.
  - intros [= <- <-] Hon. split_and!; auto. intros sn Hin. set_solver.
  - intros H Hon. status_inv H. destruct a as [st1 ess1]. cbn in H.
    destruct (IH _ _ H Hon) as (Hon1 & Hkeep & Hnodes).
    destruct (scan_node_step_cache_on _ _ _ _ _ Hstep Hon1) as (Hon0 & Hsh & _).
    split_and!; [exact Hon0| |].
    + intros k Hk. apply Hkeep. rewrite Hsh. rewrite lookup_insert.
      case_decide; auto.
    + intros sn' Hin. apply elem_of_cons in Hin as [->|Hin]; auto.
      apply Hkeep. rewrite Hsh. apply lookup_insert_eq.
Qed.

(** A node with an empty per-driver map anywhere in the loop leaves the
    cache off at the end. *)
Lemma scan_nodes_loop_empty nodes st ess st' ess' sn :
  sn ∈ nodes -> per_driver_seq_scan_ranges_of_node r (sn_id sn) = [] ->
  loop nodes st ess = Ok (st', ess') -> eps_enable_cache st' = false.
Proof.
  revert st ess. induction nodes as [|sn0 rest IH]; simpl; intros st ess Hin Hempty.
  - set_solver.
  - intros H. status_inv H. destruct a as [st1 ess1]. cbn in H.
    apply elem_of_cons in Hin as [->|Hin].
    + eapply scan_nodes_loop_cache_off; [exact H|].
      eapply scan_node_step_empty; eauto.
    + eapply IH; eauto.
Qed.
End ScanLoopProps.

(** ** Cache-key prefixes agree with the region map *)

(** Every prefix in [m] is the key of its tablet for some partition of the
    region map. *)
Definition prefixes_ok (region_map : list (Z * list Byte.byte)) (m : gmap Z (list Byte.byte)) : Prop :=
  forall t k, m !! t = Some k ->
  exists p region, (p, region) ∈ region_map /\ k = cache_prefix_key p region t.

Lemma prefixes_ok_empty region_map : prefixes_ok region_map ∅.
Proof. intros t k H. by rewrite lookup_empty in H. Qed.

Lemma add_cache_key_prefix_ok region_map m sr :
  prefixes_ok region_map m -> prefixes_ok region_map (add_cache_key_prefix region_map m sr).
Proof.
  unfold add_cache_key_prefix. intros Hm.
  destruct (internal_scan_range (scan_range sr)) as [isr|]; [|done].
  destruct (map_count region_map (partition_id isr)) eqn:Hc; [|done].
  apply map_count_spec in Hc.
  intros t k Hk. rewrite lookup_insert in Hk. case_decide as E.
  - injection Hk as <-. subst t. eexists _, _. split; [|reflexivity].
    by apply find_with_default_elem.
  - by apply Hm.
Qed.

Lemma compute_cache_key_prefixes_ok region_map per_driver m :
  prefixes_ok region_map m ->
  prefixes_ok region_map (compute_cache_key_prefixes region_map per_driver m).
Proof.
  unfold compute_cache_key_prefixes. revert m.
  induction per_driver as [|[seq ranges] rest IH]; simpl; intros m Hm; [done|].
  apply IH. clear IH. revert m Hm.
  induction ranges as [|sr ranges IHr]; simpl; intros m Hm; [done|].
  apply IHr. by apply add_cache_key_prefix_ok.
Qed.

#[export] Hint Resolve prefixes_ok_empty add_cache_key_prefix_ok compute_cache_key_prefixes_ok : fe.

Section PhaseProps.
Open Scope Z_scope.
Local Open Scope status_scope.
Context (create_tree : TPlan -> StatusOr ExecPlan).
Context (convert : ScanNode -> list TScanRangeParams -> PerDriverScanRangesMap -> Z -> nat ->
                   bool -> TTabletInternalParallelMode -> StatusOr MorselQueueFactory).
Context (num_lanes_cfg : Z) (r : UnifiedExecPlanFragmentParams) (dop : nat).

Local Abbreviation step := (scan_node_step convert num_lanes_cfg r dop).
Local Abbreviation loop := (scan_nodes_loop convert num_lanes_cfg r dop).

Lemma scan_node_step_frame sn st ess st' ess' :
  step sn st ess = Ok (st', ess') ->
  eps_plan st' = eps_plan st /\
  (prefixes_ok (req_region_map r) (cp_cache_key_prefixes (eps_cache_param st)) ->
   prefixes_ok (req_region_map r) (cp_cache_key_prefixes (eps_cache_param st'))).
Proof.
  unfold scan_node_step.
  destruct (convert _ _ _ _ _ _ _); simpl; [|discriminate].
  intros [= <- <-]. simpl. split; [done|].
  intros Hok. destruct (_ && _); simpl; auto with fe.
Qed.

Lemma scan_nodes_loop_frame nodes st ess st' ess' :
  loop nodes st ess = Ok (st', ess') ->
  eps_plan st' = eps_plan st /\
  (prefixes_ok (req_region_map r) (cp_cache_key_prefixes (eps_cache_param st)) ->
   prefixes_ok (req_region_map r) (cp_cache_key_prefixes (eps_cache_param st'))).
Proof.
  revert st ess. induction nodes as [|sn rest IH]; simpl; intros st ess.
  - intros [= <- <-]. auto.
  - intros H. status_inv H. destruct a as [st1 ess1]. cbn in H.
    destruct (scan_node_step_frame _ _ _ _ _ Hstep) as [Hp1 Hk1].
    destruct (IH _ _ H) as [Hp2 Hk2]. split; [congruence | auto].
Qed.

Context (chunk_size : Z) (enable_spill : bool) (wg : WorkGroup).
(** Unfolding of a successful phase into its plan and its loop. *)
Lemma prepare_exec_plan_Ok st st' lim :
  compute_exec_plan create_tree convert num_lanes_cfg r dop chunk_size enable_spill wg st
    = Ok (st', lim) ->
  exists p st2 ess',
    create_tree (plan (fragment (common r))) = Ok p /\
    eps_plan st2 = Some p /\
    cp_cache_key_prefixes (eps_cache_param st2) = cp_cache_key_prefixes (eps_cache_param st) /\
    loop (ep_scan_nodes p) st2 (req_enable_shared_scan r) = Ok (st', ess') /\
    lim = scan_limit_update wg (sum_scan_limits chunk_size (Z.of_nat dop) (ep_scan_nodes p) 0 0).1
            (sum_scan_limits chunk_size (Z.of_nat dop) (ep_scan_nodes p) 0 0).2.
Proof.
  unfold compute_exec_plan. intros H. status_inv H. status_inv H.
  destruct a0 as [st3 ess3]. simpl in H. injection H as <- <-.
  eexists _, _, _. split_and!; [exact Hstep| | |exact Hstep0|reflexivity].
  - unfold prepare_cache_param. destruct (cache_param _); [destruct enable_spill|]; reflexivity.
  - unfold prepare_cache_param. destruct (cache_param _); [destruct enable_spill|]; simpl;
      [reflexivity | | reflexivity].
    unfold copy_cache_param. by destruct (add_slot_remapping _ _ _).
Qed.

(** C14: when the query cache is on at the end of
    [compute_exec_plan], every scan node of the plan scans in non-shared
    mode (lines 435-445). *)
Theorem prepare_exec_plan_cache_disables_shared_scan st st' lim :
  compute_exec_plan create_tree convert num_lanes_cfg r dop chunk_size enable_spill wg st
    = Ok (st', lim) -> eps_enable_cache st' = true ->
  exists p, eps_plan st' = Some p /\
    forall sn, sn ∈ ep_scan_nodes p -> eps_shared_scan st' !! sn_id sn = Some false.
Proof.
  intros H Hon. destruct (prepare_exec_plan_Ok _ _ _ H) as (p & st2 & ess' & _ & Hp & _ & Hloop & _).
  exists p. split.
  - rewrite (proj1 (scan_nodes_loop_frame _ _ _ _ _ Hloop)). exact Hp.
  - eapply scan_nodes_loop_cache_on; eauto.
Qed.

(** C15: a scan node of the plan with an empty per-driver-
    sequence scan-range map switches the query cache off for the whole
    fragment (lines 403-405). *)
Theorem prepare_exec_plan_empty_per_driver_disables_cache st st' lim p sn :
  compute_exec_plan create_tree convert num_lanes_cfg r dop chunk_size enable_spill wg st
    = Ok (st', lim) -> eps_plan st' = Some p ->
  sn ∈ ep_scan_nodes p -> per_driver_seq_scan_ranges_of_node r (sn_id sn) = [] ->
  eps_enable_cache st' = false.
Proof.
  intros H Hp' Hin Hempty.
  destruct (prepare_exec_plan_Ok _ _ _ H) as (p0 & st2 & ess' & _ & Hp & _ & Hloop & _).
  rewrite (proj1 (scan_nodes_loop_frame _ _ _ _ _ Hloop)), Hp in Hp'. injection Hp' as <-.
  eapply scan_nodes_loop_empty; eauto.
Qed.

(** C16: starting from a fragment with no cache-key prefixes,
    every prefix [compute_exec_plan] records for a tablet is the key of
    that tablet under a partition of the request's region map. *)
Theorem prepare_exec_plan_cache_key_prefixes st st' lim t k :
  compute_exec_plan create_tree convert num_lanes_cfg r dop chunk_size enable_spill wg st
    = Ok (st', lim) ->
  cp_cache_key_prefixes (eps_cache_param st) = ∅ ->
  cp_cache_key_prefixes (eps_cache_param st') !! t = Some k ->
  exists p region, (p, region) ∈ req_region_map r /\ k = cache_prefix_key p region t.
Proof.
  intros H Hempty Hk.
  destruct (prepare_exec_plan_Ok _ _ _ H) as (p0 & st2 & ess' & _ & _ & Hpre & Hloop & _).
  apply (proj2 (scan_nodes_loop_frame _ _ _ _ _ Hloop)); [|exact Hk].
  rewrite Hpre, Hempty. auto with fe.
Qed.
End PhaseProps.

(** ** The scan limits *)

Section ScanLimits.
Open Scope Z_scope.

Lemma normalized_limit_div l c :
  0 < c -> 0 < l -> normalized_limit l c = (l + c - 1) / c * c.
Proof. intros Hc Hl. unfold normalized_limit. rewrite Z.quot_div_nonneg; lia. Qed.

Lemma normalized_limit_bounds l c :
  0 < c -> 0 < l -> l <= normalized_limit l c < l + c.
Proof. intros Hc Hl. rewrite normalized_limit_div by lia. apply round_up_bounds; lia. Qed.

(** C19: for a positive limit and chunk size, the normalised
    limit [(limit + chunk_size - 1) / chunk_size * chunk_size] is the
    least multiple of the chunk size that is not below the limit, i.e.
    [ceil(limit / chunk_size) * chunk_size]. *)
Theorem normalized_limit_spec l c :
  0 < c -> 0 < l ->
  l <= normalized_limit l c < l + c /\ normalized_limit l c mod c = 0.
Proof.
  intros Hc Hl. split; [by apply normalized_limit_bounds|].
  rewrite normalized_limit_div by lia. apply round_up_multiple; lia.
Qed.

Example normalized_limit_spec_witness :
  (0 < 4096 /\ 0 < 5) /\
  (5 <= normalized_limit 5 4096 < 5 + 4096 /\ normalized_limit 5 4096 mod 4096 = 0).
Proof.
  split; [lia|]. apply (normalized_limit_spec 5 4096); lia.
Defined.

(** A scan limit close to [INT64_MAX] makes [limit + chunk_size - 1]
    overflow [int64_t] at line 459, and the rounded value does not fit
    either (a finding of the manifest). *)
Example normalized_limit_overflows :
  in_int64 INT64_MAX = true /\
  in_int64 (INT64_MAX + 4096 - 1) = false /\
  in_int64 (normalized_limit INT64_MAX 4096) = false.
Proof. vm_compute. split_and!; reflexivity. Qed.

Definition physical_scan_term (chunk_size dop : Z) (sn : ScanNode) : Z :=
  normalized_limit (sn_limit sn) chunk_size * dop * sn_io_tasks_per_scan_operator sn.

Lemma sum_scan_limits_all_limited c d nodes l p :
  Forall (fun sn => 0 < sn_limit sn) nodes ->
  sum_scan_limits c d nodes l p =
    (l + zsum sn_limit nodes, p + zsum (physical_scan_term c d) nodes).
Proof.
  revert l p. induction nodes as [|sn rest IH]; simpl; intros l p Hall.
  - f_equal; lia.
  - apply Forall_cons in Hall as [Hsn Hrest].
    rewrite (proj2 (Z.ltb_lt _ _) Hsn), IH by exact Hrest.
    unfold physical_scan_term. f_equal; lia.
Qed.

Lemma sum_scan_limits_unlimited c d nodes l p :
  Exists (fun sn => sn_limit sn <= 0) nodes -> (sum_scan_limits c d nodes l p).1 = -1.
Proof.
  revert l p. induction nodes as [|sn rest IH]; simpl; intros l p Hex.
  - inversion Hex.
  - destruct (Z.ltb_spec 0 (sn_limit sn)) as [Hpos|Hneg]; [|reflexivity].
    apply IH. inversion Hex; subst; [lia | assumption].
Qed.

Lemma forallb_limits_iff (l : list ScanNode) :
  forallb (fun sn => 0 <? sn_limit sn) l = true <-> Forall (fun sn => 0 < sn_limit sn) l.
Proof.
  induction l as [|sn l IH]; simpl; [split; auto|].
  rewrite andb_true_iff, Z.ltb_lt, IH, Forall_cons. done.
Qed.

Lemma forallb_limits_false (l : list ScanNode) :
  forallb (fun sn => 0 <? sn_limit sn) l = false -> Exists (fun sn => sn_limit sn <= 0) l.
Proof.
  induction l as [|sn l IH]; simpl; [discriminate|].
  destruct (Z.ltb_spec 0 (sn_limit sn)); simpl; intros Hf.
  - right. auto.
  - left. lia.
Qed.

Lemma zsum_pos {A} (f : A -> Z) l : Forall (fun x => 0 < f x) l -> 0 <= zsum f l.
Proof. induction 1; simpl; lia. Qed.
End ScanLimits.

Section ScanLimitPhase.
Open Scope Z_scope.
Context (create_tree : TPlan -> StatusOr ExecPlan).
Context (convert : ScanNode -> list TScanRangeParams -> PerDriverScanRangesMap -> Z -> nat ->
                   bool -> TTabletInternalParallelMode -> StatusOr MorselQueueFactory).
Context (num_lanes_cfg : Z) (r : UnifiedExecPlanFragmentParams) (dop : nat).
Context (chunk_size : Z) (enable_spill : bool) (wg : WorkGroup).

(** C18: the query's new scan-row limit after
    [compute_exec_plan], in closed form.  With a positive big-query
    scan-row ceiling [big] in the resource group: when every scan node has
    a positive limit and their sum is within [big], the larger of [big] and
    the sum over the nodes of [normalized_limit * dop * io_tasks]; in every
    other case exactly [big].  Without a ceiling the limit is not set. *)
Theorem prepare_exec_plan_scan_limit st st' lim p :
  compute_exec_plan create_tree convert num_lanes_cfg r dop chunk_size enable_spill wg st
    = Ok (st', lim) ->
  eps_plan st' = Some p ->
  let big := wg_big_query_scan_rows_limit wg in
  let nodes := ep_scan_nodes p in
  lim = if 0 <? big then
          if forallb (fun sn => 0 <? sn_limit sn) nodes && (zsum sn_limit nodes <=? big)
          then Some (Z.max big (zsum (physical_scan_term chunk_size (Z.of_nat dop)) nodes))
          else Some big
        else None.
Proof.
  intros H Hp' big nodes.
  destruct (prepare_exec_plan_Ok _ _ _ _ _ _ _ _ _ _ _ H)
    as (p0 & st2 & ess' & _ & Hp & _ & Hloop & ->).
  rewrite (proj1 (scan_nodes_loop_frame _ _ _ _ _ _ _ _ _ Hloop)), Hp in Hp'.
  injection Hp' as <-. subst nodes big. unfold scan_limit_update.
  destruct (forallb _ _) eqn:Hall.
  - apply forallb_limits_iff in Hall.
    rewrite sum_scan_limits_all_limited by exact Hall. simpl.
    pose proof (zsum_pos _ _ Hall).
    rewrite (proj2 (Z.leb_le 0 _)) by lia. rewrite !Z.add_0_l. reflexivity.
  - rewrite sum_scan_limits_unlimited by (by apply forallb_limits_false). simpl.
    destruct (0 <? _); reflexivity.
Qed.
End ScanLimitPhase.

(** ** Sample fragments *)

Section Samples.
Open Scope Z_scope.
Local Open Scope status_scope.

Definition internal_range (p t : Z) : TScanRangeParams :=
  {| scan_range := {| internal_scan_range := Some {| tablet_id := t; partition_id := p |};
                      broker_scan_range := None |} |}.

(** Four lanes, one tablet of partition 10 each. *)
Definition sample_per_driver : PerDriverScanRangesMap :=
  [(0, [internal_range 10 100]); (1, [internal_range 10 101]);
   (2, [internal_range 10 102]); (3, [internal_range 10 103])].

Definition sample_region : list Byte.byte := [Byte.x01; Byte.x02; Byte.x03].

Definition sample_tcache_param : TCacheParam := {|
  tc_id := 1; tc_digest := []; tc_force_populate := false;
  tc_entry_max_bytes := 4194304; tc_entry_max_rows := 409600;
  tc_slot_remapping := [(1, 2)]; tc_can_use_multiversion := false; tc_keys_type := 0;
  tc_cached_plan_node_ids := Some [1]; tc_region_map := [(10, sample_region)] |}.

(** Scenario B of the spec: one scan node (id 1) whose ranges are split
    over four lanes, with valid cache parameters; [cached] chooses whether
    the request carries them and [lanes] whether it carries the per-driver
    breakdown of the ranges. *)
Definition sample_scan_request_for (fid : Z) (cached lanes : bool) : UnifiedExecPlanFragmentParams :=
  let frag := {| plan := {| tplan_nodes := [1] |}; output_sink := Some {| sink_type := RESULT_SINK |};
                 cache_param := if cached then Some sample_tcache_param else None;
                 query_global_dicts := None; query_global_dict_exprs := None;
                 load_global_dicts := None |} in
  let ep := mk_exec_params 7 fid [(1, concat sample_per_driver.*2)]
              (if lanes then Some [(1, sample_per_driver)] else None) in
  let h := mk_half ep (with_timeouts (Some 5) None empty_query_options) frag None (Some 4) in
  {| common := h; unique := h |}.

(** Fragment instance 70 of query 7. *)
Definition sample_scan_request (cached lanes : bool) : UnifiedExecPlanFragmentParams :=
  sample_scan_request_for 70 cached lanes.

Definition sample_scan_node (limit : Z) : ScanNode :=
  {| sn_id := 1; sn_limit := limit; sn_io_tasks_per_scan_operator := 4 |}.

Definition sample_plan (limit : Z) : ExecPlan :=
  {| ep_root_id := 1; ep_exchange_nodes := []; ep_scan_nodes := [sample_scan_node limit] |}.

Definition sample_create_tree (limit : Z) (_ : TPlan) : StatusOr ExecPlan := Ok (sample_plan limit).

(** A morsel-queue factory with one sequence per lane that supports shared
    scan. *)
Definition sample_convert (_ : ScanNode) (_ : list TScanRangeParams) (_ : PerDriverScanRangesMap)
    (_ : Z) (dop : nat) (_ : bool) (_ : TTabletInternalParallelMode) : StatusOr MorselQueueFactory :=
  Ok {| mqf_is_shared := true; mqf_num_driver_seqs := dop |}.

Definition sample_wg : WorkGroup := {|
  wg_id := 0; wg_use_big_query_mem_limit := false; wg_big_query_mem_limit := 0;
  wg_big_query_scan_rows_limit := 1000000 |}.

Definition sample_exec_plan (cached lanes : bool) (limit : Z) : StatusOr (ExecPlanState * option Z) :=
  compute_exec_plan (sample_create_tree limit) sample_convert 4 (sample_scan_request cached lanes) 4
    4096 false sample_wg empty_exec_plan_state.
End Samples.

Section Witnesses.
Open Scope Z_scope.

Lemma prepare_exec_plan_cache_disables_shared_scan_witness :
  exists st' lim, sample_exec_plan true true 0 = Ok (st', lim) /\ eps_enable_cache st' = true /\
    exists p, eps_plan st' = Some p /\
      forall sn, sn ∈ ep_scan_nodes p -> eps_shared_scan st' !! sn_id sn = Some false.
Proof.
  eexists _, _. split; [reflexivity|]. split; [reflexivity|].
  eapply (prepare_exec_plan_cache_disables_shared_scan (sample_create_tree 0) sample_convert 4
            (sample_scan_request true true) 4 4096 false sample_wg empty_exec_plan_state);
    reflexivity.
Defined.

Lemma prepare_exec_plan_empty_per_driver_disables_cache_witness :
  exists st' lim, sample_exec_plan true false 0 = Ok (st', lim) /\
    eps_plan st' = Some (sample_plan 0) /\ sample_scan_node 0 ∈ ep_scan_nodes (sample_plan 0) /\
    per_driver_seq_scan_ranges_of_node (sample_scan_request true false) 1 = [] /\
    eps_enable_cache st' = false.
Proof.
  eexists _, _. split; [reflexivity|]. split_and!; [reflexivity | left | reflexivity |].
  eapply prepare_exec_plan_empty_per_driver_disables_cache with
    (create_tree := sample_create_tree 0) (convert := sample_convert) (num_lanes_cfg := 4)
    (r := sample_scan_request true false) (dop := 4%nat) (chunk_size := 4096)
    (enable_spill := false) (wg := sample_wg) (st := empty_exec_plan_state)
    (p := sample_plan 0) (sn := sample_scan_node 0); [reflexivity | reflexivity | left | reflexivity].
Defined.

(** Scenario B: the prefix of tablet 102 is the 8 + 3 + 8 bytes of
    partition 10, the region and the tablet. *)
Lemma prepare_exec_plan_cache_key_prefixes_witness :
  exists st' lim, sample_exec_plan true true 0 = Ok (st', lim) /\
    cp_cache_key_prefixes (eps_cache_param st') !! 102 = Some (cache_prefix_key 10 sample_region 102) /\
    exists p region, (p, region) ∈ req_region_map (sample_scan_request true true) /\
      cache_prefix_key 10 sample_region 102 = cache_prefix_key p region 102.
Proof.
  eexists _, _. split; [reflexivity|]. split; [reflexivity|].
  eapply (prepare_exec_plan_cache_key_prefixes (sample_create_tree 0) sample_convert 4
            (sample_scan_request true true) 4 4096 false sample_wg empty_exec_plan_state);
    reflexivity.
Defined.

(** A limit of 5 rows, chunk size 4096, dop 4 and 4 I/O tasks: the physical
    estimate is 4096 * 4 * 4 = 65536 rows, below the group's ceiling. *)
Lemma prepare_exec_plan_scan_limit_witness :
  exists st' lim, sample_exec_plan false true 5 = Ok (st', lim) /\ lim = Some 1000000 /\
    eps_plan st' = Some (sample_plan 5).
Proof.
  eexists _, _. split; [reflexivity|]. split; [|reflexivity].
  erewrite prepare_exec_plan_scan_limit with
    (create_tree := sample_create_tree 5) (convert := sample_convert) (num_lanes_cfg := 4)
    (r := sample_scan_request false true) (dop := 4%nat) (chunk_size := 4096)
    (enable_spill := false) (wg := sample_wg) (st := empty_exec_plan_state)
    (p := sample_plan 5); reflexivity.
Defined.
End Witnesses.
