(* ===== verification/Pipeline.v ===== *)
(** * Pipelines, drivers and the adaptive group-initialise events

    The part of [_prepare_pipeline_driver] (lines 591-616) that runs on the
    pipeline graph once it is built, and [create_adaptive_group_initialize_events]
    (lines 531-550):
    - every pipeline whose source reads morsels gets the morsel-queue
      factory of its source's plan node (591-600);
    - every pipeline whose source is initially active instantiates its
      drivers at once; the others are collected, per group leader, into the
      [PipelineGroupMap] (602-612);
    - every collected group gets one collect-stats initialise event whose
      dependencies are the leader's adaptive blocking event and the pipeline
      event of each pipeline the leader's group depends on; the event is
      recorded on the leader (531-550).

    Source operator factories live in an arena indexed by their identity
    (the [SourceOperatorFactory*] of the code) and events in an arena
    indexed by [nat] (the [EventPtr]s), so that a leader and the pipelines
    that defer to it refer to each other without ownership cycles.  A
    deferred group's event firing is the step relation [fire_step]: an event
    fires once, after all its dependencies, and a collect-stats event then
    instantiates the drivers of its pipelines.

    [Pipeline::instantiate_drivers] (one driver per lane, appended to the
    drivers the pipeline already has) and
    [FragmentContext::total_dop] (the sum of the pipelines' dops) are not in
    [src/] and are modelled from the spec. *)

From S2P Require Import Prelude Request ScanPlan.
From stdpp Require Import base list gmap.
From Stdlib Require Import ZArith Lia.

(** ** Data *)

Record SourceOperatorFactory := {
  so_plan_node_id : Z;
  so_with_morsels : bool;
  so_is_adaptive_group_initial_active : bool;
  (** [group_leader()]: the identity of the leader's source factory. *)
  so_group_leader : nat;
  (** [adaptive_blocking_event()], [nullptr] as [None]. *)
  so_adaptive_blocking_event : option nat;
  (** [group_dependent_pipelines()], by pipeline id. *)
  so_group_dependent_pipelines : list nat }.

Record Pipeline := {
  pl_id : nat;
  (** [source_operator_factory()], by identity. *)
  pl_source : nat;
  pl_dop : nat;
  (** [pipeline_event()]. *)
  pl_event : nat }.

Inductive EventKind :=
| ExternalEvent
(** [Event::create_collect_stats_source_initialize_event(executor, pipelines)] *)
| CollectStatsSourceInitializeEvent (pipelines : list nat).

Record Event := {
  ev_kind : EventKind;
  ev_deps : list nat;
  ev_fired : bool }.

Record Driver := { drv_pipeline : nat; drv_seq : nat }.

Record PipelineGraph := {
  pg_sources : gmap nat SourceOperatorFactory;
  pg_pipelines : list Pipeline;
  (** [set_morsel_queue_factory], by pipeline id; [None] is [nullptr]. *)
  pg_morsel_queue_factory : gmap nat (option MorselQueueFactory);
  (** [drivers()], by pipeline id; absent while not instantiated. *)
  pg_drivers : gmap nat (list Driver);
  (** [set_group_initialize_event], by leader identity. *)
  pg_group_initialize_event : gmap nat nat;
  pg_events : gmap nat Event;
  pg_next_event : nat }.

(** [PipelineGroupMap]: leader identity to the deferred pipelines of its
    group, in the order they were met.  The code's [unordered_map] iterates
    in an unspecified order; the events it creates are independent of it. *)
Definition PipelineGroupMap : Type := list (nat * list nat).

(** ** Record updates *)

Definition pg_with_morsel (m : gmap nat (option MorselQueueFactory)) (g : PipelineGraph) :=
  {| pg_sources := pg_sources g; pg_pipelines := pg_pipelines g;
     pg_morsel_queue_factory := m; pg_drivers := pg_drivers g;
     pg_group_initialize_event := pg_group_initialize_event g;
     pg_events := pg_events g; pg_next_event := pg_next_event g |}.

Definition pg_with_drivers (d : gmap nat (list Driver)) (g : PipelineGraph) :=
  {| pg_sources := pg_sources g; pg_pipelines := pg_pipelines g;
     pg_morsel_queue_factory := pg_morsel_queue_factory g; pg_drivers := d;
     pg_group_initialize_event := pg_group_initialize_event g;
     pg_events := pg_events g; pg_next_event := pg_next_event g |}.

Definition pg_with_events (ev : gmap nat Event) (g : PipelineGraph) :=
  {| pg_sources := pg_sources g; pg_pipelines := pg_pipelines g;
     pg_morsel_queue_factory := pg_morsel_queue_factory g; pg_drivers := pg_drivers g;
     pg_group_initialize_event := pg_group_initialize_event g;
     pg_events := ev; pg_next_event := pg_next_event g |}.

(** ** Operations *)

Definition source_of (g : PipelineGraph) (pl : Pipeline) : option SourceOperatorFactory :=
  pg_sources g !! pl_source pl.

Fixpoint find_pipeline_in (pls : list Pipeline) (pid : nat) : option Pipeline :=
  match pls with
  | [] => None
  | pl :: rest => if decide (pl_id pl = pid) then Some pl else find_pipeline_in rest pid
  end.

Definition find_pipeline (g : PipelineGraph) (pid : nat) : option Pipeline :=
  find_pipeline_in (pg_pipelines g) pid.

(** The drivers one call of [Pipeline::instantiate_drivers] creates: one
    per lane. *)
Definition drivers_of (pl : Pipeline) : list Driver :=
  map (fun i => {| drv_pipeline := pl_id pl; drv_seq := i |}) (seq 0 (pl_dop pl)).

(** [Pipeline::instantiate_drivers]: the new drivers are appended to the
    pipeline's drivers ([_drivers.emplace_back]); an instantiation does not
    replace the drivers of an earlier one. *)
Definition instantiate_drivers (pl : Pipeline) (g : PipelineGraph) : PipelineGraph :=
  pg_with_drivers
    (<[pl_id pl := default [] (pg_drivers g !! pl_id pl) ++ drivers_of pl]> (pg_drivers g)) g.

(** [FragmentContext::total_dop]. *)
Definition total_dop (g : PipelineGraph) : nat := sum_list_with pl_dop (pg_pipelines g).

(** Lines 591-600.  [morsel_queue_factories[source_id]] yields [nullptr]
    for a plan node without a factory. *)
Definition set_morsel_queue_factories (mqfs : gmap Z MorselQueueFactory) (g : PipelineGraph)
    : PipelineGraph :=
  foldl (fun g pl =>
           match source_of g pl with
           | Some so =>
               if so_with_morsels so
               then pg_with_morsel (<[pl_id pl := mqfs !! so_plan_node_id so]>
                                      (pg_morsel_queue_factory g)) g
               else g
           | None => g
           end) g (pg_pipelines g).

(** [unready_pipeline_groups[leader].emplace_back(pipeline)]. *)
Fixpoint group_add (leader pid : nat) (groups : PipelineGroupMap) : PipelineGroupMap :=
  match groups with
  | [] => [(leader, [pid])]
  | (l, ps) :: rest =>
      if decide (l = leader) then (l, ps ++ [pid]) :: rest
      else (l, ps) :: group_add leader pid rest
  end.

(** Lines 602-612 over the pipelines still to visit.  A pipeline whose
    source is missing from the arena (a dangling pointer in the code) is
    skipped. *)
Fixpoint partition_pipelines (pls : list Pipeline) (g : PipelineGraph) (groups : PipelineGroupMap)
    : PipelineGraph * PipelineGroupMap :=
  match pls with
  | [] => (g, groups)
  | pl :: rest =>
      match source_of g pl with
      | Some so =>
          if so_is_adaptive_group_initial_active so
          then partition_pipelines rest (instantiate_drivers pl g) groups
          else partition_pipelines rest g (group_add (so_group_leader so) (pl_id pl) groups)
      | None => partition_pipelines rest g groups
      end
  end.

(** The dependencies of a leader's group-initialise event (lines 541-546). *)
Definition group_event_deps (g : PipelineGraph) (leader : nat) : list nat :=
  match pg_sources g !! leader with
  | Some so =>
      match so_adaptive_blocking_event so with Some b => [b] | None => [] end ++
      omap (fun pid => pl_event <$> find_pipeline g pid) (so_group_dependent_pipelines so)
  | None => []
  end.

(** The group-initialise event of a leader's group, not yet fired. *)
Definition group_event (g : PipelineGraph) (leader : nat) (pids : list nat) : Event :=
  {| ev_kind := CollectStatsSourceInitializeEvent pids;
     ev_deps := group_event_deps g leader;
     ev_fired := false |}.

(** One iteration of the loop of lines 537-549. *)
Definition create_group_initialize_event (g : PipelineGraph) (leader : nat) (pids : list nat)
    : PipelineGraph :=
  let eid := pg_next_event g in
  {| pg_sources := pg_sources g; pg_pipelines := pg_pipelines g;
     pg_morsel_queue_factory := pg_morsel_queue_factory g; pg_drivers := pg_drivers g;
     pg_group_initialize_event := <[leader := eid]> (pg_group_initialize_event g);
     pg_events := <[eid := group_event g leader pids]> (pg_events g);
     pg_next_event := S eid |}.

Definition create_adaptive_group_initialize_events (groups : PipelineGroupMap) (g : PipelineGraph)
    : PipelineGraph :=
  match groups with
  | [] => g
  | _ => foldl (fun g '(leader, pids) => create_group_initialize_event g leader pids) g groups
  end.

(** Lines 591-616 in sequence. *)
Definition activate_pipelines (mqfs : gmap Z MorselQueueFactory) (g : PipelineGraph) : PipelineGraph :=
  let g1 := set_morsel_queue_factories mqfs g in
  let '(g2, groups) := partition_pipelines (pg_pipelines g1) g1 [] in
  create_adaptive_group_initialize_events groups g2.

(** ** Firing events *)

Definition event_fired (g : PipelineGraph) (eid : nat) : bool :=
  match pg_events g !! eid with Some e => ev_fired e | None => false end.

Definition instantiate_pipeline_ids (pids : list nat) (g : PipelineGraph) : PipelineGraph :=
  foldl (fun g pid => match find_pipeline g pid with
                      | Some pl => instantiate_drivers pl g
                      | None => g
                      end) g pids.

(** [Event::finish] once every dependency has finished; a collect-stats
    initialise event then instantiates the drivers of its group. *)
Definition fire_event (g : PipelineGraph) (eid : nat) : option PipelineGraph :=
  match pg_events g !! eid with
  | Some e =>
      if ev_fired e then None
      else if forallb (event_fired g) (ev_deps e) then
        let g' := pg_with_events
                    (<[eid := {| ev_kind := ev_kind e; ev_deps := ev_deps e; ev_fired := true |}]>
                       (pg_events g)) g in
        Some match ev_kind e with
             | CollectStatsSourceInitializeEvent pids => instantiate_pipeline_ids pids g'
             | ExternalEvent => g'
             end
      else None
  | None => None
  end.

Inductive fire_step : PipelineGraph -> PipelineGraph -> Prop :=
| fire_step_intro g eid g' : fire_event g eid = Some g' -> fire_step g g'.

Inductive fire_star : PipelineGraph -> PipelineGraph -> Prop :=
| fire_star_refl g : fire_star g g
| fire_star_step g1 g2 g3 : fire_step g1 g2 -> fire_star g2 g3 -> fire_star g1 g3.

(** The number of instantiated drivers. *)
Definition num_drivers (g : PipelineGraph) : nat :=
  sum_list_with (fun pl => default 0 (length <$> pg_drivers g !! pl_id pl)) (pg_pipelines g).

(** ** Frame lemmas *)

Lemma length_drivers_of pl : length (drivers_of pl) = pl_dop pl.
Proof. unfold drivers_of. by rewrite length_map, length_seq. Qed.

(** What an operation leaves unchanged: the arena of sources, the
    pipelines, the leaders' events and every event's kind and
    dependencies. *)
Definition same_shape (g g' : PipelineGraph) : Prop :=
  pg_sources g' = pg_sources g /\ pg_pipelines g' = pg_pipelines g /\
  pg_group_initialize_event g' = pg_group_initialize_event g /\
  (forall eid e', pg_events g' !! eid = Some e' ->
     exists e, pg_events g !! eid = Some e /\ ev_kind e' = ev_kind e /\ ev_deps e' = ev_deps e) /\
  (forall eid e, pg_events g !! eid = Some e ->
     exists e', pg_events g' !! eid = Some e' /\ ev_kind e' = ev_kind e /\ ev_deps e' = ev_deps e).

Lemma same_shape_refl g : same_shape g g.
Proof. split_and!; eauto. Qed.

Lemma same_shape_trans g1 g2 g3 : same_shape g1 g2 -> same_shape g2 g3 -> same_shape g1 g3.
Proof.
  intros (Hs1 & Hp1 & Hi1 & Hf1 & Hb1) (Hs2 & Hp2 & Hi2 & Hf2 & Hb2).
  split_and!; try congruence.
  - intros eid e3 H3. destruct (Hf2 _ _ H3) as (e2 & H2 & ? & ?).
    destruct (Hf1 _ _ H2) as (e1 & ? & ? & ?). exists e1. split_and!; congruence.
  - intros eid e1 H1. destruct (Hb1 _ _ H1) as (e2 & H2 & ? & ?).
    destruct (Hb2 _ _ H2) as (e3 & ? & ? & ?). exists e3. split_and!; congruence.
Qed.

Lemma same_shape_drivers d g : same_shape g (pg_with_drivers d g).
Proof. split_and!; simpl; eauto. Qed.

#[export] Hint Resolve same_shape_refl same_shape_drivers length_drivers_of : fe.

Lemma instantiate_pipeline_ids_shape pids g : same_shape g (instantiate_pipeline_ids pids g).
Proof.
  unfold instantiate_pipeline_ids. revert g.
  induction pids as [|pid pids IH]; simpl; intros g; [auto with fe|].
  eapply same_shape_trans; [|apply IH].
  destruct (find_pipeline g pid); [apply same_shape_drivers | auto with fe].
Qed.

Lemma instantiate_pipeline_ids_events pids g :
  pg_events (instantiate_pipeline_ids pids g) = pg_events g.
Proof.
  unfold instantiate_pipeline_ids. revert g.
  induction pids as [|pid pids IH]; simpl; intros g; [done|].
  rewrite IH. by destruct (find_pipeline g pid).
Qed.

Lemma find_pipeline_in_Some pls pid pl :
  find_pipeline_in pls pid = Some pl -> pl_id pl = pid /\ pl ∈ pls.
Proof.
  induction pls as [|pl' pls IH]; simpl; [discriminate|].
  case_decide as E.
  - intros [= <-]. split; [done | left].
  - intros H. destruct (IH H). split; [done | by right].
Qed.

(** The drivers of a pipeline after instantiating a list of distinct
    pipelines were there before, or the listed pipeline of that id appended
    one driver per lane to them. *)
Lemma instantiate_pipeline_ids_drivers pids g k ds :
  NoDup pids ->
  pg_drivers (instantiate_pipeline_ids pids g) !! k = Some ds ->
  pg_drivers g !! k = Some ds \/
  exists pid pl, pid ∈ pids /\ find_pipeline g pid = Some pl /\ pl_id pl = k /\
                 ds = default [] (pg_drivers g !! k) ++ drivers_of pl.
Proof.
  unfold instantiate_pipeline_ids. revert g.
  induction pids as [|pid pids IH]; simpl; intros g Hnd H; [auto|].
  apply NoDup_cons in Hnd as [Hnotin Hnd].
  destruct (find_pipeline g pid) as [pl|] eqn:Hf.
  - pose proof (find_pipeline_in_Some _ _ _ Hf) as [Hid _].
    destruct (IH _ Hnd H) as [H1|(pid' & pl' & Hin & Hf' & Hk & ->)].
    + simpl in H1. rewrite lookup_insert in H1. case_decide as E.
      * injection H1 as <-. right. exists pid, pl. split_and!; [set_solver | exact Hf | done | by subst].
      * auto.
    + pose proof (find_pipeline_in_Some _ _ _ Hf') as [Hid' _].
      right. exists pid', pl'. split_and!; [set_solver | exact Hf' | done |].
      simpl. rewrite lookup_insert_ne; [done|].
      intros Heq. apply Hnotin. rewrite <- Hid, Heq, <- Hk, Hid'. done.
  - destruct (IH _ Hnd H) as [H1|(pid' & pl' & Hin & Hf' & Hk & ->)]; [auto|].
    right. exists pid', pl'. split_and!; auto. set_solver.
Qed.

Lemma instantiate_pipeline_ids_other pids g k :
  k ∉ pids -> pg_drivers (instantiate_pipeline_ids pids g) !! k = pg_drivers g !! k.
Proof.
  unfold instantiate_pipeline_ids. revert g.
  induction pids as [|pid pids IH]; simpl; intros g Hk; [done|].
  rewrite IH by set_solver.
  destruct (find_pipeline g pid) as [pl|] eqn:Hf; [|done].
  apply find_pipeline_in_Some in Hf as [Hid _]. simpl.
  rewrite lookup_insert_ne; [done|]. set_solver.
Qed.

(** Each listed pipeline that can be found has drivers afterwards. *)
Lemma instantiate_pipeline_ids_found pids g pid pl :
  pid ∈ pids -> find_pipeline g pid = Some pl ->
  is_Some (pg_drivers (instantiate_pipeline_ids pids g) !! pl_id pl).
Proof.
  unfold instantiate_pipeline_ids. revert g.
  induction pids as [|pid0 pids IH]; simpl; intros g Hin Hf; [set_solver|].
  destruct (decide (pid ∈ pids)) as [Hrest|Hrest].
  - apply IH; [done|]. by destruct (find_pipeline g pid0).
  - assert (pid0 = pid) as -> by set_solver. rewrite Hf.
    pose proof (find_pipeline_in_Some _ _ _ Hf) as [Hid _].
    fold (instantiate_pipeline_ids pids (instantiate_drivers pl g)).
    rewrite instantiate_pipeline_ids_other by congruence.
    simpl. rewrite lookup_insert_eq. by eexists.
Qed.

Lemma fire_event_Some g eid g' :
  fire_event g eid = Some g' ->
  exists e, pg_events g !! eid = Some e /\ ev_fired e = false /\
    forallb (event_fired g) (ev_deps e) = true /\
    let g1 := pg_with_events
                (<[eid := {| ev_kind := ev_kind e; ev_deps := ev_deps e; ev_fired := true |}]>
                   (pg_events g)) g in
    g' = match ev_kind e with
         | CollectStatsSourceInitializeEvent pids => instantiate_pipeline_ids pids g1
         | ExternalEvent => g1
         end.
Proof.
  unfold fire_event. destruct (pg_events g !! eid) as [e|] eqn:He; [|discriminate].
  destruct (ev_fired e) eqn:Hf; [discriminate|].
  destruct (forallb _ _) eqn:Hd; [|discriminate].
  intros [= <-]. exists e. auto.
Qed.

Lemma fire_event_shape g eid g' : fire_event g eid = Some g' -> same_shape g g'.
Proof.
  intros (e & He & _ & _ & ->)%fire_event_Some.
  assert (same_shape g (pg_with_events (<[eid := {| ev_kind := ev_kind e; ev_deps := ev_deps e;
                                                     ev_fired := true |}]> (pg_events g)) g)).
  { split_and!; simpl; try done.
    - intros eid' e' H'. rewrite lookup_insert in H'. case_decide as E.
      + injection H' as <-. subst. eauto.
      + eauto.
    - intros eid' e0 H0. rewrite lookup_insert. case_decide as E.
      + subst. rewrite He in H0. injection H0 as <-. eauto.
      + eauto. }
  destruct (ev_kind e); [done|].
  eapply same_shape_trans; [eassumption | apply instantiate_pipeline_ids_shape].
Qed.

(** The fired flag after a firing: the fired event is now fired, the others
    keep theirs. *)
Lemma fire_event_fired g eid g' d :
  fire_event g eid = Some g' ->
  event_fired g' d = if decide (d = eid) then true else event_fired g d.
Proof.
  intros (e & He & _ & _ & ->)%fire_event_Some.
  unfold event_fired.
  destruct (ev_kind e); rewrite ?instantiate_pipeline_ids_events; simpl;
    (destruct (decide (d = eid)) as [->|Hne];
     [rewrite lookup_insert_eq | rewrite lookup_insert_ne by done]; done).
Qed.

Lemma fire_event_fired_mono g eid g' d :
  fire_event g eid = Some g' -> event_fired g d = true -> event_fired g' d = true.
Proof. intros H Hd. rewrite (fire_event_fired _ _ _ _ H). by case_decide. Qed.

Lemma fire_event_drivers g eid g' k ds :
  (forall e pids, pg_events g !! eid = Some e ->
     ev_kind e = CollectStatsSourceInitializeEvent pids -> NoDup pids) ->
  fire_event g eid = Some g' -> pg_drivers g' !! k = Some ds ->
  pg_drivers g !! k = Some ds \/
  exists e pids pid pl, pg_events g !! eid = Some e /\ ev_fired e = false /\
    ev_kind e = CollectStatsSourceInitializeEvent pids /\ pid ∈ pids /\
    find_pipeline g pid = Some pl /\ pl_id pl = k /\ ds = default [] (pg_drivers g !! k) ++ drivers_of pl.
Proof.
  intros Hnd (e & He & Hunf & _ & ->)%fire_event_Some.
  destruct (ev_kind e) as [|pids] eqn:Hk; [simpl; auto|].
  intros [H|(pid & pl & Hin & Hf & Hid & ->)]%instantiate_pipeline_ids_drivers;
    [simpl in H; auto | | exact (Hnd e pids He Hk)].
  right. exists e, pids, pid, pl. split_and!; auto.
Qed.

(** ** The adaptive-scheduling invariant *)

(** The leader a pipeline defers to, when its source is not initially
    active. *)
Definition deferred_leader (g : PipelineGraph) (pl : Pipeline) : option nat :=
  match source_of g pl with
  | Some so => if so_is_adaptive_group_initial_active so then None else Some (so_group_leader so)
  | None => None
  end.

Record adaptive_inv (g : PipelineGraph) : Prop := {
  ai_nodup : NoDup (pl_id <$> pg_pipelines g);
  (** a fired event fired after all its dependencies *)
  ai_deps : forall eid e, pg_events g !! eid = Some e -> ev_fired e = true ->
    Forall (fun d => event_fired g d = true) (ev_deps e);
  (** a collect-stats event lists deferred pipelines of the group it is
      recorded for *)
  ai_group : forall eid e pids pid, pg_events g !! eid = Some e ->
    ev_kind e = CollectStatsSourceInitializeEvent pids -> pid ∈ pids ->
    exists pl L, find_pipeline g pid = Some pl /\ deferred_leader g pl = Some L /\
                 pg_group_initialize_event g !! L = Some eid;
  (** a leader's event depends on what lines 541-546 add *)
  ai_group_deps : forall L eid, pg_group_initialize_event g !! L = Some eid ->
    exists e, pg_events g !! eid = Some e /\ ev_deps e = group_event_deps g L;
  (** a deferred pipeline has drivers only once its group's event fired *)
  ai_deferred : forall pl ds L, pl ∈ pg_pipelines g -> pg_drivers g !! pl_id pl = Some ds ->
    deferred_leader g pl = Some L ->
    exists eid, pg_group_initialize_event g !! L = Some eid /\ event_fired g eid = true;
  (** an instantiated pipeline has one driver per lane *)
  ai_dop : forall pl ds, pl ∈ pg_pipelines g -> pg_drivers g !! pl_id pl = Some ds ->
    length ds = pl_dop pl;
  (** a collect-stats event lists each pipeline once *)
  ai_group_nodup : forall eid e pids, pg_events g !! eid = Some e ->
    ev_kind e = CollectStatsSourceInitializeEvent pids -> NoDup pids }.

Lemma nodup_pl_id_inj (pls : list Pipeline) pl1 pl2 :
  NoDup (pl_id <$> pls) -> pl1 ∈ pls -> pl2 ∈ pls -> pl_id pl1 = pl_id pl2 -> pl1 = pl2.
Proof.
  induction pls as [|pl pls IH]; simpl; intros Hnd H1 H2 Hid; [set_solver|].
  apply NoDup_cons in Hnd as [Hnotin Hnd].
  apply elem_of_cons in H1 as [->|H1], H2 as [->|H2]; auto.
  - exfalso. apply Hnotin. rewrite Hid. by apply list_elem_of_fmap_2.
  - exfalso. apply Hnotin. rewrite <- Hid. by apply list_elem_of_fmap_2.
Qed.

Lemma same_shape_find g g' pid : same_shape g g' -> find_pipeline g' pid = find_pipeline g pid.
Proof. intros (_ & Hp & _). unfold find_pipeline. by rewrite Hp. Qed.

Lemma same_shape_deferred g g' pl : same_shape g g' -> deferred_leader g' pl = deferred_leader g pl.
Proof. intros (Hs & _). unfold deferred_leader, source_of. by rewrite Hs. Qed.

Lemma same_shape_deps g g' L : same_shape g g' -> group_event_deps g' L = group_event_deps g L.
Proof.
  intros (Hs & Hp & _). unfold group_event_deps, find_pipeline. by rewrite Hs, Hp.
Qed.

(** The drivers a firing adds belong to a deferred pipeline of the group the
    fired event was recorded for. *)
Lemma fire_event_new_drivers g eid g' pl ds :
  adaptive_inv g -> fire_event g eid = Some g' -> pl ∈ pg_pipelines g ->
  pg_drivers g' !! pl_id pl = Some ds ->
  pg_drivers g !! pl_id pl = Some ds \/
  (ds = drivers_of pl /\ exists L, deferred_leader g pl = Some L /\
                                   pg_group_initialize_event g !! L = Some eid).
Proof.
  intros Hinv Hfire Hpl Hds.
  destruct (fire_event_drivers _ _ _ _ _ (ai_group_nodup _ Hinv eid) Hfire Hds)
    as [Hold|(e0 & pids & pid & pl' & He0 & Hunf & Hk & Hin & Hf & Hid & ->)]; [auto|].
  destruct (ai_group _ Hinv _ _ _ _ He0 Hk Hin) as (pl'' & L & Hf'' & HL & Hgi).
  rewrite Hf in Hf''. injection Hf'' as <-.
  apply find_pipeline_in_Some in Hf as [_ Hpl'].
  assert (pl' = pl) as -> by (eapply nodup_pl_id_inj; eauto using ai_nodup).
  right. split; [|eauto].
  (* the event has not fired, so the deferred pipeline had no drivers yet *)
  destruct (pg_drivers g !! pl_id pl) as [ds0|] eqn:Hds0; [|done].
  destruct (ai_deferred _ Hinv _ _ _ Hpl Hds0 HL) as (eid' & Hgi' & Hfired).
  rewrite Hgi in Hgi'. injection Hgi' as <-. unfold event_fired in Hfired.
  rewrite He0 in Hfired. congruence.
Qed.

(** Firing an event preserves the invariant. *)
Lemma fire_event_inv g eid g' :
  adaptive_inv g -> fire_event g eid = Some g' -> adaptive_inv g'.
Proof.
  intros Hinv Hfire.
  pose proof (fire_event_shape _ _ _ Hfire) as Hsh.
  pose proof Hsh as (Hs & Hp & Hi & Hfw & Hbw).
  destruct (fire_event_Some _ _ _ Hfire) as (e & He & Hunf & Hdeps & _).
  split.
  - rewrite Hp. apply (ai_nodup _ Hinv).
  - intros eid' e' He' Hf'.
    destruct (Hfw _ _ He') as (e0 & He0 & _ & Hd).
    rewrite Hd. apply Forall_forall. intros d Hin.
    apply (fire_event_fired_mono _ _ _ _ Hfire).
    destruct (decide (eid' = eid)) as [->|Hne].
    + rewrite He in He0. injection He0 as <-.
      apply forallb_forall with (x := d) in Hdeps; [done|]. by apply list_elem_of_In.
    + assert (Hf0 : ev_fired e0 = true).
      { pose proof (fire_event_fired _ _ _ eid' Hfire) as Hfe.
        rewrite decide_False in Hfe by done. unfold event_fired in Hfe.
        rewrite He', He0 in Hfe. congruence. }
      pose proof (ai_deps _ Hinv _ _ He0 Hf0) as HF. rewrite Forall_forall in HF. exact (HF d Hin).
  - intros eid' e' pids pid He' Hk Hin.
    destruct (Hfw _ _ He') as (e0 & He0 & Hk0 & _).
    destruct (ai_group _ Hinv eid' e0 pids pid He0 ltac:(congruence) Hin) as (pl & L & ? & ? & ?).
    exists pl, L. rewrite (same_shape_find _ _ _ Hsh), (same_shape_deferred _ _ _ Hsh), Hi. auto.
  - intros L eid' HL. rewrite Hi in HL.
    destruct (ai_group_deps _ Hinv _ _ HL) as (e0 & He0 & Hd0).
    destruct (Hbw _ _ He0) as (e' & He' & _ & Hd').
    exists e'. rewrite (same_shape_deps _ _ _ Hsh). split; congruence.
  - intros pl ds L Hpl Hds HL. rewrite Hp in Hpl. rewrite (same_shape_deferred _ _ _ Hsh) in HL.
    rewrite Hi.
    destruct (fire_event_new_drivers _ _ _ _ _ Hinv Hfire Hpl Hds) as [Hold|(_ & L' & HL' & Hgi)].
    + destruct (ai_deferred _ Hinv _ _ _ Hpl Hold HL) as (eid0 & ? & ?).
      exists eid0. split; [done|]. by eapply fire_event_fired_mono.
    + rewrite HL in HL'. injection HL' as <-.
      exists eid. split; [done|]. rewrite (fire_event_fired _ _ _ _ Hfire). by rewrite decide_True.
  - intros pl ds Hpl Hds. rewrite Hp in Hpl.
    destruct (fire_event_new_drivers _ _ _ _ _ Hinv Hfire Hpl Hds) as [Hold|(-> & _)].
    + exact (ai_dop _ Hinv _ _ Hpl Hold).
    + apply length_drivers_of.
  - intros eid' e' pids He' Hk. destruct (Hfw _ _ He') as (e0 & He0 & Hk0 & _).
    exact (ai_group_nodup _ Hinv _ _ pids He0 ltac:(congruence)).
Qed.

Lemma fire_star_inv g g' : adaptive_inv g -> fire_star g g' -> adaptive_inv g'.
Proof.
  intros Hinv Hstar. induction Hstar as [g|g1 g2 g3 [g1' eid g2' Hf] _ IH]; [done|].
  apply IH. by eapply fire_event_inv.
Qed.

(** ** The graph after activation *)

(** What the pipeline builder hands over: pipeline ids are distinct, no
    driver is instantiated, no leader has an initialise event yet, every
    event in the arena is an external one that has not fired, and the
    arena's ids are below [pg_next_event]. *)
Record graph_wf (g : PipelineGraph) : Prop := {
  wf_nodup : NoDup (pl_id <$> pg_pipelines g);
  wf_no_drivers : pg_drivers g = ∅;
  wf_no_group_events : pg_group_initialize_event g = ∅;
  wf_external : forall eid e, pg_events g !! eid = Some e ->
    ev_kind e = ExternalEvent /\ ev_fired e = false;
  wf_fresh : forall eid, (pg_next_event g <= eid)%nat -> pg_events g !! eid = None }.

Lemma find_pipeline_in_nodup pls pl :
  NoDup (pl_id <$> pls) -> pl ∈ pls -> find_pipeline_in pls (pl_id pl) = Some pl.
Proof.
  intros Hnd Hin. destruct (find_pipeline_in pls (pl_id pl)) as [pl'|] eqn:Hf.
  - apply find_pipeline_in_Some in Hf as [Hid Hin']. f_equal. eapply nodup_pl_id_inj; eauto.
  - exfalso. induction pls as [|pl0 pls IH]; [set_solver|].
    simpl in Hf. case_decide as E; [discriminate|].
    apply elem_of_cons in Hin as [->|Hin]; [done|].
    apply NoDup_cons in Hnd as [_ Hnd]. by apply IH.
Qed.

Lemma set_morsel_queue_factories_only mqfs g :
  exists m, set_morsel_queue_factories mqfs g = pg_with_morsel m g.
Proof.
  unfold set_morsel_queue_factories.
  assert (Hgen : forall l m0, exists m,
    foldl (fun g pl => match source_of g pl with
                       | Some so => if so_with_morsels so
                                    then pg_with_morsel (<[pl_id pl := mqfs !! so_plan_node_id so]>
                                                           (pg_morsel_queue_factory g)) g
                                    else g
                       | None => g
                       end) (pg_with_morsel m0 g) l = pg_with_morsel m g).
  { induction l as [|pl l IH]; intros m0; simpl; [eauto|].
    destruct (source_of _ pl) as [so|]; [destruct (so_with_morsels so)|]; apply IH. }
  destruct (Hgen (pg_pipelines g) (pg_morsel_queue_factory g)) as [m Hm].
  exists m. rewrite <- Hm. by destruct g.
Qed.

(** [group_add] files [pid] under [leader] and keeps the leaders distinct. *)
Lemma group_add_elem leader pid groups L ps p :
  (L, ps) ∈ group_add leader pid groups -> p ∈ ps ->
  (exists ps0, (L, ps0) ∈ groups /\ p ∈ ps0) \/ (L = leader /\ p = pid).
Proof.
  induction groups as [|[l ps0] groups IH]; simpl.
  - intros Hin Hp. apply list_elem_of_singleton in Hin. injection Hin as -> ->. set_solver.
  - case_decide as E.
    + intros [[= -> ->]|Hin]%elem_of_cons Hp.
      * apply elem_of_app in Hp as [Hp|Hp]; [left; exists ps0; set_solver | right; set_solver].
      * left. exists ps. set_solver.
    + intros [[= -> ->]|Hin]%elem_of_cons Hp.
      * left. exists ps0. set_solver.
      * destruct (IH Hin Hp) as [(ps1 & ? & ?)|]; [left; exists ps1; set_solver | auto].
Qed.

Lemma group_add_keys leader pid groups :
  (group_add leader pid groups).*1 = if decide (leader ∈ groups.*1) then groups.*1
                                     else groups.*1 ++ [leader].
Proof.
  induction groups as [|[l ps] groups IH]; [done|].
  cbn [group_add]. destruct (decide (l = leader)) as [->|Hne]; rewrite !fmap_cons; cbn [fst].
  - rewrite decide_True by set_solver. done.
  - rewrite IH. destruct (decide (leader ∈ groups.*1)).
    + rewrite decide_True by set_solver. done.
    + rewrite decide_False by set_solver. done.
Qed.

Lemma group_add_nodup leader pid groups :
  NoDup groups.*1 -> NoDup (group_add leader pid groups).*1.
Proof.
  rewrite group_add_keys. case_decide as E; [done|].
  intros Hnd. apply NoDup_app. split_and!; [done | set_solver | apply NoDup_singleton].
Qed.

Lemma pg_with_drivers_twice d d' g : pg_with_drivers d (pg_with_drivers d' g) = pg_with_drivers d g.
Proof. reflexivity. Qed.

Lemma partition_pipelines_spec pls g groups g' groups' :
  partition_pipelines pls g groups = (g', groups') ->
  (exists d, g' = pg_with_drivers d g) /\
  (forall L ps p, (L, ps) ∈ groups' -> p ∈ ps ->
     (exists ps0, (L, ps0) ∈ groups /\ p ∈ ps0) \/
     exists pl, pl ∈ pls /\ pl_id pl = p /\ deferred_leader g pl = Some L) /\
  (NoDup groups.*1 -> NoDup groups'.*1).
Proof.
  revert g groups. induction pls as [|pl pls IH]; simpl; intros g groups.
  - intros [= <- <-]. split_and!; eauto.
    + exists (pg_drivers g). by destruct g.
  - destruct (source_of g pl) as [so|] eqn:Hso; [destruct (so_is_adaptive_group_initial_active so) eqn:Ha|].
    + intros (Hd & Hgr & Hnd)%IH.
      split_and!; [destruct Hd as [d ->]; by exists d | | exact Hnd].
      intros L ps p HL Hp. destruct (Hgr _ _ _ HL Hp) as [|(pl' & ? & ? & ?)]; [auto|].
      right. exists pl'. split_and!; auto. set_solver.
    + intros (Hd & Hgr & Hnd)%IH.
      assert (Hdl : deferred_leader g pl = Some (so_group_leader so))
        by (unfold deferred_leader; by rewrite Hso, Ha).
      split_and!; [exact Hd | |].
      * intros L ps p HL Hp. destruct (Hgr _ _ _ HL Hp) as [(ps0 & Hps0 & Hp0)|(pl' & ? & ? & ?)].
        -- destruct (group_add_elem _ _ _ _ _ _ Hps0 Hp0) as [|[-> ->]]; [auto|].
           right. exists pl. split_and!; auto. set_solver.
        -- right. exists pl'. split_and!; auto. set_solver.
      * intros Hnd0. apply Hnd. by apply group_add_nodup.
    + intros (Hd & Hgr & Hnd)%IH. split_and!; [exact Hd | | exact Hnd].
      intros L ps p HL Hp. destruct (Hgr _ _ _ HL Hp) as [|(pl' & ? & ? & ?)]; [auto|].
      right. exists pl'. split_and!; auto. set_solver.
Qed.

(** Distinct pipelines without drivers: each instantiated one gets exactly
    one driver per lane. *)
Lemma partition_pipelines_drivers pls g groups g' groups' :
  NoDup (pl_id <$> pls) -> (forall pl, pl ∈ pls -> pg_drivers g !! pl_id pl = None) ->
  partition_pipelines pls g groups = (g', groups') ->
  forall k ds, pg_drivers g' !! k = Some ds -> pg_drivers g !! k = Some ds \/
     exists pl, pl ∈ pls /\ pl_id pl = k /\ ds = drivers_of pl /\ deferred_leader g pl = None.
Proof.
  revert g groups. induction pls as [|pl pls IH]; simpl; intros g groups Hnd Hnone.
  { intros [= <- _]. auto. }
  rewrite ?fmap_cons in Hnd. apply NoDup_cons in Hnd as [Hnotin Hnd].
  assert (Hrest : forall pl', pl' ∈ pls -> pl_id pl' <> pl_id pl).
  { intros pl' Hin Heq. apply Hnotin. rewrite <- Heq. by apply list_elem_of_fmap_2. }
  destruct (source_of g pl) as [so|] eqn:Hso; [destruct (so_is_adaptive_group_initial_active so) eqn:Ha|].
  - intros Hp k ds Hk.
    assert (Hnone1 : forall pl', pl' ∈ pls -> pg_drivers (instantiate_drivers pl g) !! pl_id pl' = None).
    { intros pl' Hin. simpl. rewrite lookup_insert_ne by (apply not_eq_sym, Hrest, Hin).
      apply Hnone. by right. }
    destruct (IH _ _ Hnd Hnone1 Hp k ds Hk) as [H|(pl' & ? & ? & ? & ?)].
    + simpl in H. rewrite lookup_insert in H. case_decide as E.
      * injection H as <-. rewrite Hnone by left. right. exists pl.
        split_and!; [left | done | done |]. unfold deferred_leader. by rewrite Hso, Ha.
      * auto.
    + right. exists pl'. split_and!; auto. by right.
  - intros Hp k ds Hk. destruct (IH _ _ Hnd (fun pl' Hin => Hnone pl' ltac:(by right)) Hp k ds Hk)
      as [|(pl' & ? & ? & ? & ?)]; [auto|].
    right. exists pl'. split_and!; auto. by right.
  - intros Hp k ds Hk. destruct (IH _ _ Hnd (fun pl' Hin => Hnone pl' ltac:(by right)) Hp k ds Hk)
      as [|(pl' & ? & ? & ? & ?)]; [auto|].
    right. exists pl'. split_and!; auto. by right.
Qed.

Lemma group_add_cases leader pid groups L ps :
  (L, ps) ∈ group_add leader pid groups ->
  (L, ps) ∈ groups \/ (L = leader /\ exists ps0, ps = ps0 ++ [pid] /\ ((leader, ps0) ∈ groups \/ ps0 = [])).
Proof.
  induction groups as [|[l ps0] groups IH]; simpl.
  - intros Hin%list_elem_of_singleton. injection Hin as -> ->. right. split; [done|]. exists []. split; [done | by right].
  - case_decide as E.
    + intros [[= -> ->]|Hin]%elem_of_cons; [|left; by right].
      right. split; [done|]. exists ps0. split; [done|]. left. subst. left.
    + intros [[= -> ->]|Hin]%elem_of_cons; [left; left|].
      destruct (IH Hin) as [HL|(HL & ps1 & Hps & Hps1)]; [left; by right|].
      right. split; [done|]. exists ps1. split; [done|].
      destruct Hps1 as [Hin1|Hnil]; [left; by right | by right].
Qed.

(** The groups list every pipeline once. *)
Lemma partition_pipelines_groups_nodup pls g groups g' groups' :
  partition_pipelines pls g groups = (g', groups') -> NoDup (pl_id <$> pls) ->
  (forall L ps, (L, ps) ∈ groups -> NoDup ps /\ forall p, p ∈ ps -> p ∉ pl_id <$> pls) ->
  forall L ps, (L, ps) ∈ groups' -> NoDup ps.
Proof.
  revert g groups. induction pls as [|pl pls IH]; simpl; intros g groups Hp Hnd Hgr.
  { injection Hp as _ <-. intros L ps Hin. apply (Hgr _ _ Hin). }
  rewrite ?fmap_cons in Hnd. apply NoDup_cons in Hnd as [Hnotin Hnd].
  assert (Hweak : forall L ps, (L, ps) ∈ groups -> NoDup ps /\ forall p, p ∈ ps -> p ∉ pl_id <$> pls).
  { intros L ps Hin. destruct (Hgr _ _ Hin) as [? Hout]. split; [done|]. set_solver. }
  destruct (source_of g pl) as [so|]; [destruct (so_is_adaptive_group_initial_active so)|];
    [exact (IH _ _ Hp Hnd Hweak) | | exact (IH _ _ Hp Hnd Hweak)].
  apply (IH _ _ Hp Hnd). intros L ps [Hin|(HL & ps0 & -> & Hps0)]%group_add_cases;
    [exact (Hweak _ _ Hin)|].
  assert (Hps0' : NoDup ps0 /\ forall p, p ∈ ps0 -> p ∉ pl_id <$> pl :: pls).
  { destruct Hps0 as [Hin0|Hnil]; [exact (Hgr _ _ Hin0) | subst ps0; split; [constructor | set_solver]]. }
  destruct Hps0' as [Hnd0 Hout0]. split.
  - apply NoDup_app. split_and!; [done | | apply NoDup_singleton].
    intros p Hp0 ->%list_elem_of_singleton. apply (Hout0 _ Hp0). rewrite fmap_cons. by left.
  - intros p [Hp0 | ->%list_elem_of_singleton]%elem_of_app; [|done].
    specialize (Hout0 _ Hp0). rewrite fmap_cons in Hout0. set_solver.
Qed.

Definition create_events_loop (groups : PipelineGroupMap) (g : PipelineGraph) : PipelineGraph :=
  foldl (fun g '(leader, pids) => create_group_initialize_event g leader pids) g groups.

Lemma create_adaptive_group_initialize_events_loop groups g :
  create_adaptive_group_initialize_events groups g = create_events_loop groups g.
Proof. by destruct groups. Qed.

Definition fresh_events (g : PipelineGraph) : Prop :=
  forall eid, (pg_next_event g <= eid)%nat -> pg_events g !! eid = None.

Lemma create_events_loop_spec groups g :
  NoDup groups.*1 -> fresh_events g ->
  let g' := create_events_loop groups g in
  pg_sources g' = pg_sources g /\ pg_pipelines g' = pg_pipelines g /\ pg_drivers g' = pg_drivers g /\
  (forall L, L ∉ groups.*1 -> pg_group_initialize_event g' !! L = pg_group_initialize_event g !! L) /\
  (forall eid, (eid < pg_next_event g)%nat -> pg_events g' !! eid = pg_events g !! eid) /\
  (forall eid e, pg_events g' !! eid = Some e -> pg_events g !! eid = Some e \/
     exists L pids, (L, pids) ∈ groups /\ e = group_event g L pids /\
                    pg_group_initialize_event g' !! L = Some eid) /\
  (forall L eid, pg_group_initialize_event g' !! L = Some eid ->
     pg_group_initialize_event g !! L = Some eid \/
     exists pids, (L, pids) ∈ groups /\ pg_events g' !! eid = Some (group_event g L pids)).
Proof.
  unfold create_events_loop. revert g.
  induction groups as [|[L pids] rest IH]; simpl; intros g Hnd Hfresh.
  { split_and!; auto. }
  apply NoDup_cons in Hnd as [HL Hnd].
  set (g1 := create_group_initialize_event g L pids).
  assert (Hfresh1 : fresh_events g1).
  { intros eid Heid. simpl in *. rewrite lookup_insert_ne by lia. apply Hfresh. lia. }
  assert (Hdeps : forall L', group_event g1 L' = group_event g L') by reflexivity.
  destruct (IH g1 Hnd Hfresh1) as (Hs & Hp & Hd & Hgi & Hold & Hev & Hgr).
  set (g' := foldl _ g1 rest) in *.
  split_and!; [exact Hs | exact Hp | exact Hd | | | |].
  - intros L' HL'. rewrite Hgi by set_solver. simpl. rewrite lookup_insert_ne; [done | set_solver].
  - intros eid Heid. rewrite Hold by (simpl; lia). simpl. rewrite lookup_insert_ne; [done | lia].
  - intros eid e He. destruct (Hev _ _ He) as [H1|(L' & pids' & Hin & -> & HL')].
    + simpl in H1. rewrite lookup_insert in H1. case_decide as E; [|auto].
      injection H1 as <-. right. exists L, pids. split_and!; [left | done |].
      rewrite Hgi by done. simpl. rewrite lookup_insert_eq. by subst.
    + right. exists L', pids'. rewrite Hdeps. split_and!; [by right | done | done].
  - intros L' eid HL'. destruct (Hgr _ _ HL') as [H1|(pids' & Hin & He)].
    + simpl in H1. rewrite lookup_insert in H1. case_decide as E; [|auto].
      injection H1 as <-. subst L'. right. exists pids. split; [left|].
      rewrite Hold by (simpl; lia). simpl. by rewrite lookup_insert_eq.
    + right. exists pids'. rewrite <- Hdeps. split; [by right | done].
Qed.

Lemma group_event_deps_eq g g' L :
  pg_sources g' = pg_sources g -> pg_pipelines g' = pg_pipelines g ->
  group_event_deps g' L = group_event_deps g L.
Proof. intros Hs Hp. unfold group_event_deps, find_pipeline. by rewrite Hs, Hp. Qed.

(** The shape of the graph right after [activate_pipelines]. *)
Lemma activate_pipelines_facts mqfs g0 :
  graph_wf g0 ->
  let g := activate_pipelines mqfs g0 in
  pg_sources g = pg_sources g0 /\ pg_pipelines g = pg_pipelines g0 /\
  (forall k ds, pg_drivers g !! k = Some ds ->
     exists pl, pl ∈ pg_pipelines g0 /\ pl_id pl = k /\ ds = drivers_of pl /\
                deferred_leader g0 pl = None) /\
  (forall eid e, pg_events g !! eid = Some e ->
     ev_fired e = false /\
     (ev_kind e = ExternalEvent \/
      exists L pids, e = group_event g0 L pids /\ pg_group_initialize_event g !! L = Some eid /\
        NoDup pids /\ forall pid, pid ∈ pids ->
          exists pl, pl ∈ pg_pipelines g0 /\ pl_id pl = pid /\ deferred_leader g0 pl = Some L)) /\
  (forall L eid, pg_group_initialize_event g !! L = Some eid ->
     exists pids, pg_events g !! eid = Some (group_event g0 L pids)).
Proof.
  intros Hwf g. subst g. unfold activate_pipelines.
  destruct (set_morsel_queue_factories_only mqfs g0) as [m ->].
  destruct (partition_pipelines _ _ _) as [g2 groups] eqn:Hpart.
  assert (Hnone : forall pl, pl ∈ pg_pipelines (pg_with_morsel m g0) ->
                            pg_drivers (pg_with_morsel m g0) !! pl_id pl = None)
    by (intros pl _; simpl; by rewrite (wf_no_drivers _ Hwf), lookup_empty).
  pose proof (partition_pipelines_drivers _ _ _ _ _ (wf_nodup _ Hwf) Hnone Hpart) as Hdrv.
  pose proof (partition_pipelines_groups_nodup _ _ _ _ _ Hpart (wf_nodup _ Hwf)
                ltac:(intros ?? Hin; set_solver)) as Hgnd.
  destruct (partition_pipelines_spec _ _ _ _ _ Hpart) as ([d ->] & Hgr & Hnd).
  rewrite create_adaptive_group_initialize_events_loop.
  destruct (create_events_loop_spec groups (pg_with_drivers d (pg_with_morsel m g0))
              (Hnd ltac:(constructor)) (wf_fresh _ Hwf))
    as (Hs & Hp & Hd & _ & _ & Hev & Hgi).
  set (g3 := create_events_loop _ _) in *.
  assert (Hdeps : forall L pids, group_event (pg_with_drivers d (pg_with_morsel m g0)) L pids =
                                 group_event g0 L pids) by reflexivity.
  split_and!; [exact Hs | exact Hp | | |].
  - intros k ds Hk. rewrite Hd in Hk.
    destruct (Hdrv _ _ Hk) as [H0|(pl & ? & ? & ? & ?)].
    + simpl in H0. by rewrite (wf_no_drivers _ Hwf), lookup_empty in H0.
    + exists pl. auto.
  - intros eid e He. destruct (Hev _ _ He) as [H0|(L & pids & Hin & -> & HL)].
    + destruct (wf_external _ Hwf _ _ H0). auto.
    + split; [done|]. right. exists L, pids. rewrite Hdeps. split_and!; [done | done | by eapply Hgnd |].
      intros pid Hpid. destruct (Hgr _ _ _ Hin Hpid) as [(ps0 & Hps0 & _)|(pl & ? & ? & ?)].
      * set_solver.
      * exists pl. auto.
  - intros L eid HL. destruct (Hgi _ _ HL) as [H0|(pids & _ & He)].
    + simpl in H0. by rewrite (wf_no_group_events _ Hwf), lookup_empty in H0.
    + exists pids. by rewrite <- Hdeps.
Qed.

Lemma activate_pipelines_inv mqfs g0 : graph_wf g0 -> adaptive_inv (activate_pipelines mqfs g0).
Proof.
  intros Hwf. destruct (activate_pipelines_facts mqfs g0 Hwf) as (Hs & Hp & Hdrv & Hev & Hgi).
  set (g := activate_pipelines mqfs g0) in *.
  assert (Hdl : forall pl, deferred_leader g pl = deferred_leader g0 pl)
    by (intros; unfold deferred_leader, source_of; by rewrite Hs).
  pose proof (wf_nodup _ Hwf) as Hnd.
  split.
  - by rewrite Hp.
  - intros eid e He Hf. destruct (Hev _ _ He) as [Hunf _]. congruence.
  - intros eid e pids pid He Hk Hin.
    destruct (Hev _ _ He) as [_ [Hext|(L & pids' & -> & HL & _ & Hpl)]]; [congruence|].
    simpl in Hk. injection Hk as ->. destruct (Hpl _ Hin) as (pl & Hpl0 & <- & HdL).
    exists pl, L. unfold find_pipeline. rewrite Hp, find_pipeline_in_nodup by done.
    rewrite Hdl. auto.
  - intros L eid HL. destruct (Hgi _ _ HL) as [pids He].
    exists (group_event g0 L pids). split; [done|]. simpl. symmetry. by apply group_event_deps_eq.
  - intros pl ds L Hpl Hds HL. rewrite Hp in Hpl.
    destruct (Hdrv _ _ Hds) as (pl' & Hpl' & Hid & _ & HdN).
    assert (pl' = pl) as -> by (eapply nodup_pl_id_inj; eauto).
    rewrite Hdl in HL. congruence.
  - intros pl ds Hpl Hds. rewrite Hp in Hpl.
    destruct (Hdrv _ _ Hds) as (pl' & Hpl' & Hid & -> & _).
    assert (pl' = pl) as -> by (eapply nodup_pl_id_inj; eauto).
    apply length_drivers_of.
  - intros eid e pids He Hk.
    destruct (Hev _ _ He) as [_ [Hext|(L & pids' & -> & _ & Hnd' & _)]]; [congruence|].
    simpl in Hk. by injection Hk as <-.
Qed.

Lemma reachable_inv mqfs g0 g :
  graph_wf g0 -> fire_star (activate_pipelines mqfs g0) g -> adaptive_inv g.
Proof. intros Hwf Hstar. eapply fire_star_inv; [|exact Hstar]. by apply activate_pipelines_inv. Qed.

Lemma num_drivers_le_total_dop g :
  (forall pl ds, pl ∈ pg_pipelines g -> pg_drivers g !! pl_id pl = Some ds -> length ds = pl_dop pl) ->
  num_drivers g <= total_dop g.
Proof.
  unfold num_drivers, total_dop. induction (pg_pipelines g) as [|pl pls IH]; simpl; intros Hdop; [lia|].
  assert (default 0 (length <$> pg_drivers g !! pl_id pl) <= pl_dop pl).
  { destruct (pg_drivers g !! pl_id pl) as [ds|] eqn:Hds; simpl; [|lia].
    rewrite (Hdop pl ds); [lia | left | done]. }
  assert (sum_list_with (fun pl => default 0 (length <$> pg_drivers g !! pl_id pl)) pls
          <= sum_list_with pl_dop pls).
  { apply IH. intros pl' ds Hin. apply Hdop. by right. }
  lia.
Qed.

(** ** Properties of the adaptive schedule *)

Section AdaptiveProps.
Context (mqfs : gmap Z MorselQueueFactory) (g0 : PipelineGraph) (Hwf : graph_wf g0).

(** C9: right after the pipelines are activated, a
    pipeline whose source is not initially active has no drivers (lines
    604-608 collect it instead of calling [instantiate_drivers]). *)
Theorem activate_deferred_no_drivers pl L :
  pl ∈ pg_pipelines g0 -> deferred_leader g0 pl = Some L ->
  pg_drivers (activate_pipelines mqfs g0) !! pl_id pl = None.
Proof.
  intros Hpl HL. destruct (activate_pipelines_facts mqfs g0 Hwf) as (_ & _ & Hdrv & _).
  destruct (pg_drivers _ !! pl_id pl) as [ds|] eqn:Hds; [|done].
  destruct (Hdrv _ _ Hds) as (pl' & Hpl' & Hid & _ & HdN).
  assert (pl' = pl) as -> by (eapply nodup_pl_id_inj; eauto using wf_nodup).
  congruence.
Qed.

(** C4: in every state reached by firing events, a deferred
    pipeline has drivers only if the group-initialise event recorded on
    its leader has fired. *)
Theorem deferred_drivers_need_group_event g pl ds L :
  fire_star (activate_pipelines mqfs g0) g ->
  pl ∈ pg_pipelines g -> deferred_leader g pl = Some L -> pg_drivers g !! pl_id pl = Some ds ->
  exists eid, pg_group_initialize_event g !! L = Some eid /\ event_fired g eid = true.
Proof.
  intros Hstar Hpl HL Hds. eapply ai_deferred; eauto. eapply reachable_inv; eauto.
Qed.

(** C5: in every reached state, once a leader's
    group-initialise event has fired, so have the leader's adaptive
    blocking event and the pipeline event of every pipeline the leader's
    group depends on (the dependencies added at lines 541-546). *)
Theorem group_event_after_dependencies g L eid so :
  fire_star (activate_pipelines mqfs g0) g ->
  pg_group_initialize_event g !! L = Some eid -> event_fired g eid = true ->
  pg_sources g !! L = Some so ->
  (forall b, so_adaptive_blocking_event so = Some b -> event_fired g b = true) /\
  (forall pid pl, pid ∈ so_group_dependent_pipelines so -> find_pipeline g pid = Some pl ->
     event_fired g (pl_event pl) = true).
Proof.
  intros Hstar HL Hf Hso. pose proof (reachable_inv _ _ _ Hwf Hstar) as Hinv.
  destruct (ai_group_deps _ Hinv _ _ HL) as (e & He & Hdeps).
  assert (Hfe : ev_fired e = true) by (unfold event_fired in Hf; by rewrite He in Hf).
  pose proof (ai_deps _ Hinv _ _ He Hfe) as Hall. rewrite Hdeps in Hall.
  unfold group_event_deps in Hall. rewrite Hso in Hall.
  apply Forall_app in Hall as [Hb Hp]. split.
  - intros b Hb'. rewrite Hb' in Hb. by inversion Hb.
  - intros pid pl Hin Hfind. rewrite Forall_forall in Hp. apply (Hp (pl_event pl)).
    apply list_elem_of_omap. exists pid. split; [done|]. by rewrite Hfind.
Qed.

(** C8: in every reached state the number of instantiated drivers
    is at most the fragment's total dop, the size of the driver token
    acquired at line 619. *)
Theorem reachable_num_drivers_le_total_dop g :
  fire_star (activate_pipelines mqfs g0) g -> num_drivers g <= total_dop g.
Proof.
  intros Hstar. apply num_drivers_le_total_dop. apply ai_dop. eapply reachable_inv; eauto.
Qed.
End AdaptiveProps.

(** ** Executable checks and runs *)

Definition is_external_unfired (e : Event) : bool :=
  match ev_kind e with ExternalEvent => negb (ev_fired e) | _ => false end.

(** [graph_wf] as a boolean test. *)
Definition graph_wfb (g : PipelineGraph) : bool :=
  bool_decide (NoDup (pl_id <$> pg_pipelines g)) &&
  bool_decide (pg_drivers g = ∅) &&
  bool_decide (pg_group_initialize_event g = ∅) &&
  forallb (fun '(eid, e) => is_external_unfired e && Nat.ltb eid (pg_next_event g))
          (map_to_list (pg_events g)).

Lemma graph_wfb_sound g : graph_wfb g = true -> graph_wf g.
Proof.
  unfold graph_wfb. rewrite !andb_true_iff, !bool_decide_eq_true.
  intros [[[Hnd Hd] Hgi] Hev].
  assert (Hall : forall eid e, pg_events g !! eid = Some e ->
                   is_external_unfired e = true /\ (eid < pg_next_event g)%nat).
  { intros eid e He. apply elem_of_map_to_list in He.
    apply forallb_forall with (x := (eid, e)) in Hev; [|by apply list_elem_of_In].
    apply andb_true_iff in Hev as [? ?%Nat.ltb_lt]. done. }
  split; [done | done | done | |].
  - intros eid e He. destruct (Hall _ _ He) as [Hx _]. unfold is_external_unfired in Hx.
    destruct (ev_kind e); [|discriminate]. split; [done|]. by destruct (ev_fired e).
  - intros eid Heid. destruct (pg_events g !! eid) as [e|] eqn:He; [|done].
    destruct (Hall _ _ He). lia.
Qed.

(** Firing a list of events in order. *)
Fixpoint fire_all (g : PipelineGraph) (eids : list nat) : option PipelineGraph :=
  match eids with
  | [] => Some g
  | eid :: rest => match fire_event g eid with
                   | Some g' => fire_all g' rest
                   | None => None
                   end
  end.

Lemma fire_all_star g eids g' : fire_all g eids = Some g' -> fire_star g g'.
Proof.
  revert g. induction eids as [|eid eids IH]; simpl; intros g.
  - intros [= <-]. constructor.
  - destruct (fire_event g eid) as [g1|] eqn:Hf; [|discriminate].
    intros H. econstructor; [econstructor; exact Hf | by apply IH].
Qed.

(** A leader pipeline 0 whose source 0 is active and has the blocking event
    0; a pipeline 1 whose source 1 defers to leader 0; a pipeline 2 the
    leader's group depends on, with pipeline event 1.  Pipelines 0 and 1
    have pipeline events 2 and 3. *)
Definition sample_source (active : bool) (leader : nat) : SourceOperatorFactory :=
  {| so_plan_node_id := 1; so_with_morsels := false;
     so_is_adaptive_group_initial_active := active; so_group_leader := leader;
     so_adaptive_blocking_event := if active then Some 0 else None;
     so_group_dependent_pipelines := if active then [2] else [] |}.

Definition sample_graph : PipelineGraph :=
  let src := sample_source in
  let ext := {| ev_kind := ExternalEvent; ev_deps := []; ev_fired := false |} in
  {| pg_sources := {[0 := src true 0; 1 := src false 0; 2 := src true 2]};
     pg_pipelines := [{| pl_id := 0; pl_source := 0; pl_dop := 4; pl_event := 2 |};
                      {| pl_id := 1; pl_source := 1; pl_dop := 4; pl_event := 3 |};
                      {| pl_id := 2; pl_source := 2; pl_dop := 2; pl_event := 1 |}];
     pg_morsel_queue_factory := ∅; pg_drivers := ∅; pg_group_initialize_event := ∅;
     pg_events := {[0 := ext; 1 := ext; 2 := ext; 3 := ext]};
     pg_next_event := 4 |}.

Definition sample_deferred_pipeline : Pipeline :=
  {| pl_id := 1; pl_source := 1; pl_dop := 4; pl_event := 3 |}.

(** The blocking event, the dependency's pipeline event, then the group's
    initialise event (id 4). *)
Definition sample_run : option PipelineGraph :=
  fire_all (activate_pipelines ∅ sample_graph) [0; 1; 4].

Definition sample_final : PipelineGraph := default sample_graph sample_run.

Lemma sample_run_star : fire_star (activate_pipelines ∅ sample_graph) sample_final.
Proof. apply (fire_all_star _ [0; 1; 4]). vm_compute. reflexivity. Qed.

Lemma sample_graph_wf : graph_wf sample_graph.
Proof. apply graph_wfb_sound. vm_compute. reflexivity. Qed.

Section PipelineWitnesses.
Lemma activate_deferred_no_drivers_witness :
  graph_wf sample_graph /\ sample_deferred_pipeline ∈ pg_pipelines sample_graph /\
  deferred_leader sample_graph sample_deferred_pipeline = Some 0 /\
  pg_drivers (activate_pipelines ∅ sample_graph) !! 1 = None.
Proof.
  split_and!; [exact sample_graph_wf | right; left | reflexivity |].
  apply (activate_deferred_no_drivers ∅ sample_graph sample_graph_wf sample_deferred_pipeline 0);
    [right; left | reflexivity].
Defined.

(** After the run, the deferred pipeline has its four drivers and the
    leader's event (id 4) has fired. *)
Lemma deferred_drivers_need_group_event_witness :
  pg_drivers sample_final !! 1 = Some (drivers_of sample_deferred_pipeline) /\
  exists eid, pg_group_initialize_event sample_final !! 0 = Some eid /\
  event_fired sample_final eid = true.
Proof.
  split; [vm_compute; reflexivity|].
  apply (deferred_drivers_need_group_event ∅ sample_graph sample_graph_wf sample_final
           sample_deferred_pipeline (drivers_of sample_deferred_pipeline) 0 sample_run_star);
    [right; left | vm_compute; reflexivity | vm_compute; reflexivity].
Defined.

Lemma group_event_after_dependencies_witness :
  (forall b, so_adaptive_blocking_event (sample_source true 0) = Some b ->
     event_fired sample_final b = true) /\
  (forall pid pl, pid ∈ so_group_dependent_pipelines (sample_source true 0) ->
     find_pipeline sample_final pid = Some pl -> event_fired sample_final (pl_event pl) = true).
Proof.
  eapply (group_event_after_dependencies ∅ sample_graph sample_graph_wf sample_final 0 4
            (sample_source true 0));
    [exact sample_run_star | vm_compute; reflexivity | vm_compute; reflexivity |
     vm_compute; reflexivity].
Defined.

Lemma reachable_num_drivers_le_total_dop_witness :
  num_drivers sample_final = 10 /\ num_drivers sample_final <= total_dop sample_final.
Proof.
  split; [vm_compute; reflexivity|].
  exact (reachable_num_drivers_le_total_dop ∅ sample_graph sample_graph_wf sample_final
           sample_run_star).
Defined.
End PipelineWitnesses.
