(* ===== verification/Scheduler.v ===== *)
(** * Running the event arena to quiescence

    The driver scheduler, not [fragment_executor.cpp], fires events: an
    event finishes once all its dependencies have finished, and a
    collect-stats initialise event then instantiates the drivers of its
    group (the [fire_step] relation of [Pipeline]).  The spec asks that
    phase 2 of the adaptive schedule expands every deferred group once its
    leader and dependencies are done.  This file gives the scheduler's loop
    as the executable [fire_until_quiet], which fires some ready event as
    long as one exists, and proves
    - the fuel the loop needs: every firing finishes one unfinished event
      and [activate_pipelines] adds at most one event per pipeline, so the
      loop with the builder's events plus the pipelines as fuel reaches a
      state where no event is ready ([fire_until_quiet_enough]);
    - liveness: from the graph [activate_pipelines] leaves, when the
      pipeline builder's events have no dependencies of their own and every
      event a group waits for is in the arena, the quiet state has drivers
      for every pipeline that has a source, deferred ones included. *)

From S2P Require Import Prelude Request ScanPlan Pipeline.
From stdpp Require Import base list gmap.
From Stdlib Require Import Lia.

(** ** The unfinished events and the ready ones *)

Definition unfired_events (g : PipelineGraph) : gmap nat Event :=
  filter (fun '(_, e) => ev_fired e = false) (pg_events g).

Definition num_unfired (g : PipelineGraph) : nat := size (unfired_events g).

(** An event that [fire_event] accepts: present, unfinished, and all its
    dependencies finished. *)
Definition event_ready (g : PipelineGraph) (eid : nat) : bool :=
  match pg_events g !! eid with
  | Some e => negb (ev_fired e) && forallb (event_fired g) (ev_deps e)
  | None => false
  end.

(** The scheduler picks some ready event; the lowest id here. *)
Definition next_ready (g : PipelineGraph) : option nat :=
  head (filter (fun eid => event_ready g eid = true) (map fst (map_to_list (pg_events g)))).

(** The scheduler's loop: fire ready events until none is left, at most
    [fuel] of them. *)
Fixpoint fire_until_quiet (fuel : nat) (g : PipelineGraph) : PipelineGraph :=
  match fuel with
  | O => g
  | S n =>
      match next_ready g with
      | Some eid =>
          match fire_event g eid with
          | Some g' => fire_until_quiet n g'
          | None => g
          end
      | None => g
      end
  end.

(** No event can fire. *)
Definition quiescent (g : PipelineGraph) : Prop := forall eid, fire_event g eid = None.

(** ** Ready events are those [fire_event] accepts *)

Lemma event_ready_fire_event g eid :
  event_ready g eid = true <-> is_Some (fire_event g eid).
Proof.
  unfold event_ready, fire_event. destruct (pg_events g !! eid) as [e|];
    [destruct (ev_fired e), (forallb _ _)|]; simpl; split; intros H;
    solve [done | eauto | by destruct H].
Qed.

Lemma next_ready_Some g eid : next_ready g = Some eid -> is_Some (fire_event g eid).
Proof.
  unfold next_ready. intros Hh. apply event_ready_fire_event.
  destruct (filter _ _) as [|x l] eqn:Hf; simplify_eq/=.
  assert (Hin : eid ∈ filter (fun eid => event_ready g eid = true) (map fst (map_to_list (pg_events g))))
    by (rewrite Hf; left).
  by apply list_elem_of_filter in Hin as [? _].
Qed.

Lemma next_ready_None g : next_ready g = None -> quiescent g.
Proof.
  unfold next_ready. intros Hh eid.
  destruct (fire_event g eid) as [g'|] eqn:Hf; [|done]. exfalso.
  assert (Hr : event_ready g eid = true) by (apply event_ready_fire_event; by rewrite Hf).
  assert (Hin : eid ∈ filter (fun eid => event_ready g eid = true) (map fst (map_to_list (pg_events g)))).
  { apply list_elem_of_filter. split; [done|].
    unfold event_ready in Hr. destruct (pg_events g !! eid) as [e|] eqn:He; [|done].
    apply list_elem_of_fmap. exists (eid, e). split; [done|]. by apply elem_of_map_to_list. }
  destruct (filter _ _); [set_solver | discriminate].
Qed.

(** ** Termination *)

(** Firing [eid] replaces its event by a finished copy. *)
Lemma fire_event_events g eid g' :
  fire_event g eid = Some g' ->
  exists e, pg_events g !! eid = Some e /\ ev_fired e = false /\
    pg_events g' = <[eid := {| ev_kind := ev_kind e; ev_deps := ev_deps e; ev_fired := true |}]>
                     (pg_events g).
Proof.
  intros (e & He & Hunf & _ & ->)%fire_event_Some. exists e. split_and!; [done | done |].
  destruct (ev_kind e); [done|]. by rewrite instantiate_pipeline_ids_events.
Qed.

(** Every firing finishes one unfinished event. *)
Lemma fire_event_num_unfired g eid g' :
  fire_event g eid = Some g' -> num_unfired g' < num_unfired g.
Proof.
  intros (e & He & Hunf & Hev)%fire_event_events.
  unfold num_unfired, unfired_events. rewrite Hev.
  rewrite map_filter_insert_False by (simpl; congruence).
  rewrite map_filter_delete, map_size_delete.
  rewrite (map_lookup_filter_Some_2 _ _ _ _ He) by done. simpl.
  assert (size (filter (fun '(_, e) => ev_fired e = false) (pg_events g)) <> 0).
  { apply map_size_ne_0_lookup. exists eid, e. by apply map_lookup_filter_Some_2. }
  lia.
Qed.

(** ** Runs of the loop *)

Lemma fire_until_quiet_star fuel g : fire_star g (fire_until_quiet fuel g).
Proof.
  revert g. induction fuel as [|n IH]; intros g; simpl; [constructor|].
  destruct (next_ready g) as [eid|]; [|constructor].
  destruct (fire_event g eid) as [g'|] eqn:Hf; [|constructor].
  econstructor; [econstructor; exact Hf | apply IH].
Qed.

Lemma fire_until_quiet_enough fuel g :
  num_unfired g <= fuel -> quiescent (fire_until_quiet fuel g).
Proof.
  revert g. induction fuel as [|n IH]; intros g Hle; simpl.
  - destruct (next_ready g) as [eid|] eqn:Hn; [|by apply next_ready_None].
    destruct (next_ready_Some _ _ Hn) as [g' Hf].
    pose proof (fire_event_num_unfired _ _ _ Hf). lia.
  - destruct (next_ready g) as [eid|] eqn:Hn; [|by apply next_ready_None].
    destruct (next_ready_Some _ _ Hn) as [g' Hf]. rewrite Hf.
    apply IH. pose proof (fire_event_num_unfired _ _ _ Hf). lia.
Qed.

(** ** Drivers are never taken back *)

Lemma instantiate_pipeline_ids_mono pids g k :
  is_Some (pg_drivers g !! k) -> is_Some (pg_drivers (instantiate_pipeline_ids pids g) !! k).
Proof.
  unfold instantiate_pipeline_ids. revert g.
  induction pids as [|pid pids IH]; simpl; intros g Hk; [done|].
  apply IH. destruct (find_pipeline g pid) as [pl|]; [|done].
  simpl. rewrite lookup_insert. by case_decide.
Qed.

Lemma fire_event_drivers_mono g eid g' k :
  fire_event g eid = Some g' -> is_Some (pg_drivers g !! k) -> is_Some (pg_drivers g' !! k).
Proof.
  intros (e & _ & _ & _ & ->)%fire_event_Some Hk.
  destruct (ev_kind e); [done|]. by apply instantiate_pipeline_ids_mono.
Qed.

Lemma fire_star_shape g g' : fire_star g g' -> same_shape g g'.
Proof.
  induction 1 as [g|g1 g2 g3 [g1' eid g2' Hf] _ IH]; [apply same_shape_refl|].
  eapply same_shape_trans; [apply (fire_event_shape _ _ _ Hf) | exact IH].
Qed.

Lemma fire_star_drivers_mono g g' k :
  fire_star g g' -> is_Some (pg_drivers g !! k) -> is_Some (pg_drivers g' !! k).
Proof.
  induction 1 as [g|g1 g2 g3 [g1' eid g2' Hf] _ IH]; [done|].
  intros Hk. apply IH. by eapply fire_event_drivers_mono.
Qed.

(** ** A finished group event has instantiated its group *)

Definition groups_instantiated (g : PipelineGraph) : Prop :=
  forall eid e pids pid pl, pg_events g !! eid = Some e -> ev_fired e = true ->
    ev_kind e = CollectStatsSourceInitializeEvent pids -> pid ∈ pids ->
    find_pipeline g pid = Some pl -> is_Some (pg_drivers g !! pl_id pl).

Lemma fire_event_groups_instantiated g eid g' :
  groups_instantiated g -> fire_event g eid = Some g' -> groups_instantiated g'.
Proof.
  intros Hgi Hf eid' e' pids pid pl He' Hfired Hk Hpid Hpl.
  pose proof (fire_event_shape _ _ _ Hf) as Hsh.
  rewrite (same_shape_find _ _ _ Hsh) in Hpl.
  destruct (fire_event_events _ _ _ Hf) as (e & He & Hunf & Hev).
  rewrite Hev in He'. apply lookup_insert_Some in He' as [(<- & <-)|(Hne & He')].
  - destruct (fire_event_Some _ _ _ Hf) as (e0 & He0 & _ & _ & ->). rewrite He in He0.
    injection He0 as <-. simpl in Hk. rewrite Hk.
    by apply (instantiate_pipeline_ids_found _ _ pid).
  - eapply fire_event_drivers_mono; [exact Hf|]. by apply (Hgi eid' e' pids pid).
Qed.

Lemma fire_star_groups_instantiated g g' :
  groups_instantiated g -> fire_star g g' -> groups_instantiated g'.
Proof.
  intros Hgi Hstar. induction Hstar as [g|g1 g2 g3 [g1' eid g2' Hf] _ IH]; [done|].
  apply IH. by eapply fire_event_groups_instantiated.
Qed.

(** ** Every pipeline is handled by the activation *)

Lemma group_add_complete leader pid groups :
  (exists ps, (leader, ps) ∈ group_add leader pid groups /\ pid ∈ ps) /\
  (forall L ps p, (L, ps) ∈ groups -> p ∈ ps ->
     exists ps', (L, ps') ∈ group_add leader pid groups /\ p ∈ ps').
Proof.
  induction groups as [|[l ps0] groups IH]; simpl.
  - split; [exists [pid]; set_solver | set_solver].
  - destruct IH as [(psn & Hin & Hp) Hkeep]. case_decide as E.
    + subst l. split; [exists (ps0 ++ [pid]); set_solver|].
      intros L ps p [[= -> ->]|HL]%elem_of_cons Hp'; [exists (ps0 ++ [pid]); set_solver|].
      exists ps. set_solver.
    + split; [exists psn; set_solver|].
      intros L ps1 p [[= -> ->]|HL]%elem_of_cons Hp'; [exists ps0; set_solver|].
      destruct (Hkeep _ _ _ HL Hp') as (ps' & ? & ?). exists ps'. set_solver.
Qed.

Lemma partition_pipelines_complete pls g groups g' groups' :
  partition_pipelines pls g groups = (g', groups') ->
  (forall k, is_Some (pg_drivers g !! k) -> is_Some (pg_drivers g' !! k)) /\
  (forall L ps p, (L, ps) ∈ groups -> p ∈ ps -> exists ps', (L, ps') ∈ groups' /\ p ∈ ps') /\
  (forall pl so, pl ∈ pls -> source_of g pl = Some so ->
     so_is_adaptive_group_initial_active so = true -> is_Some (pg_drivers g' !! pl_id pl)) /\
  (forall pl L, pl ∈ pls -> deferred_leader g pl = Some L ->
     exists ps, (L, ps) ∈ groups' /\ pl_id pl ∈ ps).
Proof.
  revert g groups. induction pls as [|pl pls IH]; simpl; intros g groups.
  { intros [= <- <-]. split_and!; eauto; set_solver. }
  destruct (source_of g pl) as [so|] eqn:Hso; [destruct (so_is_adaptive_group_initial_active so) eqn:Ha|].
  - intros (Hmono & Hkeep & Hact & Hdef)%IH. split_and!.
    + intros k Hk. apply Hmono. simpl. rewrite lookup_insert. by case_decide.
    + exact Hkeep.
    + intros pl' so' [->|Hin]%elem_of_cons Hso' Ha'; [|by apply (Hact pl' so')].
      apply Hmono. simpl. by rewrite lookup_insert_eq.
    + intros pl' L [->|Hin]%elem_of_cons HL; [|by apply Hdef].
      unfold deferred_leader in HL. rewrite Hso, Ha in HL. discriminate.
  - intros (Hmono & Hkeep & Hact & Hdef)%IH.
    destruct (group_add_complete (so_group_leader so) (pl_id pl) groups) as [Hnew Hold].
    split_and!; [exact Hmono | | |].
    + intros L ps p HL Hp. destruct (Hold _ _ _ HL Hp) as (ps1 & ? & ?). eauto.
    + intros pl' so' [->|Hin]%elem_of_cons Hso' Ha'; [congruence|]. by apply (Hact pl' so').
    + intros pl' L [->|Hin]%elem_of_cons HL; [|by apply Hdef].
      unfold deferred_leader in HL. rewrite Hso, Ha in HL. injection HL as <-.
      destruct Hnew as (ps & ? & ?). eauto.
  - intros (Hmono & Hkeep & Hact & Hdef)%IH. split_and!; [exact Hmono | exact Hkeep | |].
    + intros pl' so' [->|Hin]%elem_of_cons Hso' Ha'; [congruence|]. by apply (Hact pl' so').
    + intros pl' L [->|Hin]%elem_of_cons HL; [|by apply Hdef].
      unfold deferred_leader in HL. by rewrite Hso in HL.
Qed.

Lemma create_events_loop_complete groups g L pids :
  NoDup groups.*1 -> fresh_events g -> (L, pids) ∈ groups ->
  exists eid, pg_events (create_events_loop groups g) !! eid = Some (group_event g L pids).
Proof.
  unfold create_events_loop. revert g.
  induction groups as [|[L0 pids0] rest IH]; simpl; intros g Hnd Hfresh Hin; [set_solver|].
  apply NoDup_cons in Hnd as [HL Hnd].
  set (g1 := create_group_initialize_event g L0 pids0).
  assert (Hfresh1 : fresh_events g1).
  { intros eid Heid. simpl in *. rewrite lookup_insert_ne by lia. apply Hfresh. lia. }
  apply elem_of_cons in Hin as [[= -> ->]|Hin].
  - exists (pg_next_event g).
    destruct (create_events_loop_spec rest g1 Hnd Hfresh1) as (_ & _ & _ & _ & Hold & _).
    unfold create_events_loop in Hold. rewrite Hold by (simpl; lia). simpl.
    by rewrite lookup_insert_eq.
  - exact (IH g1 Hnd Hfresh1 Hin).
Qed.

(** The graph [activate_pipelines] leaves: the builder's events are kept,
    the new ones are group events, every active pipeline has its drivers
    and every deferred one is listed in a group event of its leader. *)
Lemma activate_pipelines_complete mqfs g0 :
  graph_wf g0 ->
  let g1 := activate_pipelines mqfs g0 in
  (forall eid e, pg_events g0 !! eid = Some e -> pg_events g1 !! eid = Some e) /\
  (forall eid e, pg_events g1 !! eid = Some e ->
     pg_events g0 !! eid = Some e \/ exists L pids, e = group_event g0 L pids) /\
  (forall pl so, pl ∈ pg_pipelines g0 -> source_of g0 pl = Some so ->
     so_is_adaptive_group_initial_active so = true -> is_Some (pg_drivers g1 !! pl_id pl)) /\
  (forall pl L, pl ∈ pg_pipelines g0 -> deferred_leader g0 pl = Some L ->
     exists eid pids, pg_events g1 !! eid = Some (group_event g0 L pids) /\ pl_id pl ∈ pids).
Proof.
  intros Hwf g1. subst g1. unfold activate_pipelines.
  destruct (set_morsel_queue_factories_only mqfs g0) as [m ->].
  destruct (partition_pipelines _ _ _) as [g2 groups] eqn:Hpart.
  destruct (partition_pipelines_spec _ _ _ _ _ Hpart) as ([d ->] & _ & Hnd).
  destruct (partition_pipelines_complete _ _ _ _ _ Hpart) as (_ & _ & Hact & Hdef).
  rewrite create_adaptive_group_initialize_events_loop.
  pose proof (Hnd ltac:(constructor)) as Hnd'.
  destruct (create_events_loop_spec groups (pg_with_drivers d (pg_with_morsel m g0))
              Hnd' (wf_fresh _ Hwf)) as (_ & _ & Hd & _ & Hold & Hev & _).
  split_and!.
  - intros eid e He. rewrite Hold; [done|]. simpl.
    destruct (decide (eid < pg_next_event g0)%nat); [done|].
    rewrite (wf_fresh _ Hwf) in He by lia. discriminate.
  - intros eid e He. destruct (Hev _ _ He) as [H0|(L & pids & _ & -> & _)]; [auto|].
    right. by exists L, pids.
  - intros pl so Hpl Hso Ha. rewrite Hd. by apply (Hact pl so).
  - intros pl L Hpl HL. destruct (Hdef pl L Hpl HL) as (ps & Hin & Hp).
    destruct (create_events_loop_complete groups (pg_with_drivers d (pg_with_morsel m g0)) _ _
                Hnd' (wf_fresh _ Hwf) Hin) as [eid He].
    exists eid, ps. split; [exact He | exact Hp].
Qed.

(** ** How many events the activation leaves to fire *)

Lemma num_unfired_le_size g : num_unfired g <= size (pg_events g).
Proof. apply map_subseteq_size, map_filter_subseteq. Qed.

Lemma group_add_length leader pid groups : length (group_add leader pid groups) <= S (length groups).
Proof.
  induction groups as [|[l ps] groups IH]; simpl; [lia|]. case_decide; simpl; lia.
Qed.

Lemma partition_pipelines_groups pls g groups g' groups' :
  partition_pipelines pls g groups = (g', groups') -> length groups' <= length groups + length pls.
Proof.
  revert g groups. induction pls as [|pl pls IH]; simpl; intros g groups.
  - intros [= _ <-]. lia.
  - destruct (source_of g pl) as [so|]; [destruct (so_is_adaptive_group_initial_active so)|];
      intros Hp%IH; [lia| |lia].
    pose proof (group_add_length (so_group_leader so) (pl_id pl) groups). lia.
Qed.

Lemma create_events_loop_size groups g :
  size (pg_events (create_events_loop groups g)) <= size (pg_events g) + length groups.
Proof.
  unfold create_events_loop. revert g.
  induction groups as [|[L pids] groups IH]; intros g; simpl; [lia|].
  etrans; [apply IH|]. simpl. rewrite map_size_insert. case_match; simpl; lia.
Qed.

(** The activation adds at most one event per pipeline. *)
Lemma activate_pipelines_events_size mqfs g0 :
  size (pg_events (activate_pipelines mqfs g0)) <= size (pg_events g0) + length (pg_pipelines g0).
Proof.
  unfold activate_pipelines.
  destruct (set_morsel_queue_factories_only mqfs g0) as [m ->].
  destruct (partition_pipelines _ _ _) as [g2 groups] eqn:Hpart.
  destruct (partition_pipelines_spec _ _ _ _ _ Hpart) as ([d ->] & _).
  pose proof (partition_pipelines_groups _ _ _ _ _ Hpart) as Hlen.
  rewrite create_adaptive_group_initialize_events_loop.
  etrans; [apply create_events_loop_size|]. simpl in *. lia.
Qed.

(** The fuel the loop needs after the activation. *)
Lemma activate_pipelines_num_unfired mqfs g0 :
  num_unfired (activate_pipelines mqfs g0) <= size (pg_events g0) + length (pg_pipelines g0).
Proof. etrans; [apply num_unfired_le_size | apply activate_pipelines_events_size]. Qed.

(** ** Conditions on the builder's graph *)

(** The events the pipeline builder creates (blocking events, pipeline
    events) wait for nothing of the arena themselves. *)
Definition builder_events_independent (g0 : PipelineGraph) : Prop :=
  forall eid e, pg_events g0 !! eid = Some e -> ev_deps e = [].

(** Every event a group's initialise event will wait for is in the arena. *)
Definition group_deps_present (g0 : PipelineGraph) : Prop :=
  forall L d, d ∈ group_event_deps g0 L -> is_Some (pg_events g0 !! d).

Definition builder_events_independentb (g0 : PipelineGraph) : bool :=
  forallb (fun '(_, e) => bool_decide (ev_deps e = [])) (map_to_list (pg_events g0)).

Definition group_deps_presentb (g0 : PipelineGraph) : bool :=
  forallb (fun '(L, _) => forallb (fun d => bool_decide (is_Some (pg_events g0 !! d)))
                                  (group_event_deps g0 L))
          (map_to_list (pg_sources g0)).

Lemma builder_events_independentb_sound g0 :
  builder_events_independentb g0 = true -> builder_events_independent g0.
Proof.
  unfold builder_events_independentb. rewrite forallb_forall. intros Hall eid e He.
  apply elem_of_map_to_list, list_elem_of_In in He. specialize (Hall _ He).
  by apply bool_decide_eq_true in Hall.
Qed.

Lemma group_deps_presentb_sound g0 :
  group_deps_presentb g0 = true -> group_deps_present g0.
Proof.
  unfold group_deps_presentb. rewrite forallb_forall. intros Hall L d Hd.
  destruct (pg_sources g0 !! L) as [so|] eqn:Hso;
    [|unfold group_event_deps in Hd; rewrite Hso in Hd; set_solver].
  apply elem_of_map_to_list, list_elem_of_In in Hso. specialize (Hall _ Hso).
  simpl in Hall. rewrite forallb_forall in Hall.
  apply (bool_decide_eq_true_1 (is_Some _)), Hall, list_elem_of_In, Hd.
Qed.

(** What the pipeline builder is expected to hand over: a well-formed
    graph whose events can all be scheduled and whose pipelines all have
    their source. *)
Definition schedulable (g0 : PipelineGraph) : Prop :=
  graph_wf g0 /\ builder_events_independent g0 /\ group_deps_present g0 /\
  forall pl, pl ∈ pg_pipelines g0 -> is_Some (source_of g0 pl).

(** ** Quiet states *)

(** In a quiet state, an unfinished event waits for an unfinished one. *)
Lemma quiescent_fired g eid e :
  quiescent g -> pg_events g !! eid = Some e ->
  Forall (fun d => event_fired g d = true) (ev_deps e) -> ev_fired e = true.
Proof.
  intros Hq He Hdeps. destruct (ev_fired e) eqn:Hf; [done|].
  specialize (Hq eid). unfold fire_event in Hq. rewrite He, Hf in Hq.
  assert (forallb (event_fired g) (ev_deps e) = true) as Hall.
  { apply forallb_forall. intros d Hd. rewrite Forall_forall in Hdeps.
    apply Hdeps. by apply list_elem_of_In. }
  by rewrite Hall in Hq.
Qed.

Section Liveness.
Context (mqfs : gmap Z MorselQueueFactory) (g0 : PipelineGraph).
Hypothesis Hwf : graph_wf g0.
Hypothesis Hindep : builder_events_independent g0.
Hypothesis Hpresent : group_deps_present g0.

(** A builder event reached from the activation has finished once the
    state is quiet. *)
Lemma quiet_builder_event_fired g eid :
  fire_star (activate_pipelines mqfs g0) g -> quiescent g -> is_Some (pg_events g0 !! eid) ->
  event_fired g eid = true.
Proof.
  intros Hstar Hq [e0 He0].
  destruct (activate_pipelines_complete mqfs g0 Hwf) as (Hkeep & _).
  destruct (fire_star_shape _ _ Hstar) as (_ & _ & _ & _ & Hbw).
  destruct (Hbw _ _ (Hkeep _ _ He0)) as (e & He & _ & Hd).
  unfold event_fired. rewrite He. apply (quiescent_fired g eid); [done | done |].
  rewrite Hd, (Hindep _ _ He0). constructor.
Qed.

(** Every event has finished once the state is quiet. *)
Lemma quiet_all_fired g eid e :
  fire_star (activate_pipelines mqfs g0) g -> quiescent g -> pg_events g !! eid = Some e ->
  ev_fired e = true.
Proof.
  intros Hstar Hq He.
  destruct (activate_pipelines_complete mqfs g0 Hwf) as (_ & Hsrc & _).
  destruct (fire_star_shape _ _ Hstar) as (_ & _ & _ & Hfw & _).
  destruct (Hfw _ _ He) as (e1 & He1 & _ & Hd).
  apply (quiescent_fired g eid); [done | done |]. rewrite Hd.
  destruct (Hsrc _ _ He1) as [H0|(L & pids & ->)].
  - rewrite (Hindep _ _ H0). constructor.
  - apply Forall_forall. intros d Hdin. apply (quiet_builder_event_fired g d Hstar Hq).
    by apply (Hpresent L).
Qed.

(** Every pipeline with a source has its drivers once the state is quiet. *)
Lemma quiet_pipelines_instantiated g pl :
  fire_star (activate_pipelines mqfs g0) g -> quiescent g ->
  pl ∈ pg_pipelines g0 -> is_Some (source_of g0 pl) -> is_Some (pg_drivers g !! pl_id pl).
Proof.
  intros Hstar Hq Hpl [so Hso].
  destruct (activate_pipelines_complete mqfs g0 Hwf) as (_ & _ & Hact & Hdef).
  destruct (activate_pipelines_facts mqfs g0 Hwf) as (_ & Hp & _ & Hunf & _).
  destruct (so_is_adaptive_group_initial_active so) eqn:Ha.
  - eapply fire_star_drivers_mono; [exact Hstar | by apply (Hact pl so)].
  - assert (HL : deferred_leader g0 pl = Some (so_group_leader so))
      by (unfold deferred_leader; by rewrite Hso, Ha).
    destruct (Hdef _ _ Hpl HL) as (eid & pids & He1 & Hin).
    pose proof (fire_star_shape _ _ Hstar) as Hsh.
    destruct Hsh as (_ & _ & _ & _ & Hbw).
    destruct (Hbw _ _ He1) as (e & He & Hk & _).
    assert (Hgi : groups_instantiated (activate_pipelines mqfs g0)).
    { intros eid' e' ??? He' Hf'. destruct (Hunf _ _ He') as [Hunf' _]. congruence. }
    apply (fire_star_groups_instantiated _ _ Hgi Hstar eid e pids (pl_id pl)); try done.
    + by apply (quiet_all_fired g eid e).
    + rewrite (same_shape_find _ _ _ (fire_star_shape _ _ Hstar)).
      unfold find_pipeline. rewrite Hp. apply find_pipeline_in_nodup; [apply (wf_nodup _ Hwf) | done].
Qed.
(** Once no event can fire, every lane of every pipeline has its driver:
    the instantiated drivers are exactly the fragment's total dop. *)
Lemma quiet_num_drivers g :
  fire_star (activate_pipelines mqfs g0) g -> quiescent g ->
  (forall pl, pl ∈ pg_pipelines g0 -> is_Some (source_of g0 pl)) ->
  num_drivers g = total_dop g0.
Proof.
  intros Hstar Hq Hsrc.
  destruct (activate_pipelines_facts mqfs g0 Hwf) as (_ & Hp & _).
  destruct (fire_star_shape _ _ Hstar) as (_ & Hp' & _).
  pose proof (reachable_inv mqfs g0 g Hwf Hstar) as Hinv.
  unfold num_drivers, total_dop. rewrite Hp', Hp.
  apply sum_list_with_ext. intros pl Hpl.
  destruct (quiet_pipelines_instantiated g pl Hstar Hq Hpl (Hsrc pl Hpl)) as [ds Hds].
  rewrite Hds. cbn. apply (ai_dop _ Hinv); [by rewrite Hp', Hp | done].
Qed.
End Liveness.

(** ** Theorems *)

(** C10: phase 2 of the adaptive schedule expands every deferred group.
    From the graph [activate_pipelines] leaves, when the builder's events
    wait for nothing and every event a group waits for is in the arena,
    running the scheduler's loop (with as much fuel as the builder's
    events and one more per pipeline) leaves every
    pipeline that has a source with its drivers: the active ones from the
    activation, the deferred ones from their group's initialise event. *)
Theorem activated_pipelines_all_instantiated mqfs g0 pl :
  graph_wf g0 -> builder_events_independent g0 -> group_deps_present g0 ->
  pl ∈ pg_pipelines g0 -> is_Some (source_of g0 pl) ->
  is_Some (pg_drivers (fire_until_quiet (size (pg_events g0) + length (pg_pipelines g0))
                         (activate_pipelines mqfs g0)) !! pl_id pl).
Proof.
  intros Hwf Hind Hpres Hpl Hso.
  apply (quiet_pipelines_instantiated mqfs g0 Hwf Hind Hpres); [ | | done | done].
  - apply fire_until_quiet_star.
  - apply fire_until_quiet_enough, activate_pipelines_num_unfired.
Qed.

(** The sample graph of [Pipeline]: the deferred pipeline 1 gets its
    drivers when the loop runs to quiescence. *)
Lemma activated_pipelines_all_instantiated_witness :
  graph_wf sample_graph /\ builder_events_independent sample_graph /\
  group_deps_present sample_graph /\
  is_Some (pg_drivers (fire_until_quiet (size (pg_events sample_graph) + length (pg_pipelines sample_graph))
                         (activate_pipelines ∅ sample_graph)) !! pl_id sample_deferred_pipeline).
Proof.
  assert (Hind : builder_events_independent sample_graph)
    by (apply builder_events_independentb_sound; vm_compute; reflexivity).
  assert (Hpres : group_deps_present sample_graph)
    by (apply group_deps_presentb_sound; vm_compute; reflexivity).
  split_and!; [exact sample_graph_wf | exact Hind | exact Hpres |].
  apply (activated_pipelines_all_instantiated ∅ sample_graph sample_deferred_pipeline
           sample_graph_wf Hind Hpres); [right; left | eexists; reflexivity].
Defined.
