(* ===== verification/Limiter.v ===== *)
(** * The process-wide driver limiter

    [exec_env->driver_limiter()->try_acquire(n)] (line 619) grants a token
    of [n] driver slots from a process-wide budget or fails; the token is
    released when the fragment context that owns it is destroyed.  The
    limiter is not in [src/]; this file states what the executor relies on
    as the class [DriverLimiter] with its laws [DriverLimiterLaws] (the
    contract of spec sections 4.5 and 6), and gives the counting limiter of
    the spec as an instance that satisfies them.  The executor's theorems
    are proved against the class. *)

From S2P Require Import Prelude.
From stdpp Require Import base decidable tactics.
From Stdlib Require Import Lia.

Class DriverLimiter (L : Type) := {
  (** [try_acquire(n)]: the limiter after granting [n] slots, or an error *)
  dl_try_acquire : nat -> L -> StatusOr L;
  (** the token's destructor giving [n] slots back *)
  dl_release : nat -> L -> L;
  dl_num_total_drivers : L -> nat;
  dl_max_num_drivers : L -> nat }.

Class DriverLimiterLaws (L : Type) `{DriverLimiter L} := {
  (** a grant adds its slots and keeps the budget *)
  dl_acquire_ok n l l' : dl_try_acquire n l = Ok l' ->
    dl_num_total_drivers l' = dl_num_total_drivers l + n /\
    dl_max_num_drivers l' = dl_max_num_drivers l;
  (** a grant stays within the budget *)
  dl_acquire_within n l l' : dl_try_acquire n l = Ok l' ->
    dl_num_total_drivers l' <= dl_max_num_drivers l';
  (** a refusal is [ResourceExhausted] *)
  dl_acquire_err n l e : dl_try_acquire n l = Err e -> e = ResourceExhausted;
  (** a request that fits is granted *)
  dl_acquire_fits n l : dl_num_total_drivers l + n <= dl_max_num_drivers l ->
    exists l', dl_try_acquire n l = Ok l';
  (** a release gives the slots back *)
  dl_release_spec n l :
    dl_num_total_drivers (dl_release n l) = dl_num_total_drivers l - n /\
    dl_max_num_drivers (dl_release n l) = dl_max_num_drivers l }.

(** ** The counting limiter *)

Record CountingLimiter := {
  max_num_drivers : nat;
  num_total_drivers : nat }.

Definition counting_try_acquire (n : nat) (l : CountingLimiter) : StatusOr CountingLimiter :=
  if decide (num_total_drivers l + n <= max_num_drivers l)
  then Ok {| max_num_drivers := max_num_drivers l; num_total_drivers := num_total_drivers l + n |}
  else Err ResourceExhausted.

Definition counting_release (n : nat) (l : CountingLimiter) : CountingLimiter :=
  {| max_num_drivers := max_num_drivers l; num_total_drivers := num_total_drivers l - n |}.

#[export] Instance counting_limiter : DriverLimiter CountingLimiter := {
  dl_try_acquire := counting_try_acquire;
  dl_release := counting_release;
  dl_num_total_drivers := num_total_drivers;
  dl_max_num_drivers := max_num_drivers }.

#[export] Instance counting_limiter_laws : DriverLimiterLaws CountingLimiter.
Proof.
  split; simpl; unfold counting_try_acquire, counting_release.
  - intros n l l'. case_decide; [intros [= <-]; simpl; auto | discriminate].
  - intros n l l'. case_decide; [intros [= <-]; simpl; lia | discriminate].
  - intros n l e. case_decide; [discriminate | by intros [= <-]].
  - intros n l Hn. rewrite decide_True by done. eauto.
  - intros n l. simpl. auto.
Qed.

(** ** Consequences of the laws *)

Section LimiterProps.
Context `{DriverLimiterLaws L}.

(** The budget invariant: a limiter within its budget stays within it
    after any grant or release. *)
Definition within_budget (l : L) : Prop := dl_num_total_drivers l <= dl_max_num_drivers l.

Lemma try_acquire_within_budget n l l' :
  dl_try_acquire n l = Ok l' -> within_budget l'.
Proof. apply dl_acquire_within. Qed.

Lemma release_within_budget n l : within_budget l -> within_budget (dl_release n l).
Proof.
  unfold within_budget. destruct (dl_release_spec n l) as [-> ->]. lia.
Qed.

(** Acquiring then releasing the same slots restores the count. *)
Lemma acquire_release n l l' :
  dl_try_acquire n l = Ok l' ->
  dl_num_total_drivers (dl_release n l') = dl_num_total_drivers l.
Proof.
  intros Hacq. destruct (dl_acquire_ok _ _ _ Hacq) as [Hn _].
  destruct (dl_release_spec n l') as [-> _]. lia.
Qed.

(** A request larger than the free slots is refused. *)
Lemma try_acquire_over_budget n l :
  dl_max_num_drivers l < dl_num_total_drivers l + n ->
  dl_try_acquire n l = Err ResourceExhausted.
Proof.
  intros Hover. destruct (dl_try_acquire n l) as [l'|e] eqn:Hacq.
  - destruct (dl_acquire_ok _ _ _ Hacq) as [Hn Hm].
    pose proof (dl_acquire_within _ _ _ Hacq). lia.
  - by rewrite (dl_acquire_err _ _ _ Hacq).
Qed.
End LimiterProps.

#[export] Hint Resolve try_acquire_within_budget release_within_budget : fe.
