(* ===== verification/Context.v ===== *)
(** * Query and fragment contexts and their registries

    The state the executor builds and shares:
    - [FragmentContext]: one per fragment instance, owned by the executor
      until it is registered; it holds the runtime state, the scan-plan
      state of [_prepare_exec_plan], the pipeline graph, the data sink and
      the driver token;
    - [QueryContext]: one per query on this back end, shared by all its
      fragment instances; it holds the fragment registry
      ([fragment_mgr()]), the number of live fragments, the expiry times
      and the query-wide settings the executor writes;
    - the query registry [QueryContextMgr] ([query_context_mgr()]).

    The registries ([get], [get_or_register], [register_ctx],
    [unregister], [count_down_fragments]) are not in [src/] and are
    modelled from the spec: a get-or-create that counts the fragment as
    live, a registration that refuses an id already present, and a
    count-down that drops the query when its last fragment goes. *)

From S2P Require Import Prelude Request ScanPlan Pipeline.
From stdpp Require Import base list gmap.
From Stdlib Require Import ZArith Lia.

(** ** Fragment context *)

(** [func_version]: the request's when set, otherwise
    [TFunctionVersion::RUNTIME_FILTER_SERIALIZE_VERSION_2]. *)
Inductive FuncVersion :=
| RUNTIME_FILTER_SERIALIZE_VERSION_2
| RequestFuncVersion (v : Z).

Record RuntimeState := {
  rs_query_id : Z;
  rs_fragment_instance_id : Z;
  rs_func_version : FuncVersion;
  rs_be_number : Z;
  rs_chunk_size : Z;
  rs_enable_spill : bool;
  (** the descriptor table in use, by identity *)
  rs_desc_tbl : option nat }.

(** What [_prepare_fragment_ctx] fixes when it creates the context. *)
Record FragmentIdent := {
  fi_query_id : Z;
  fi_fragment_instance_id : Z;
  fi_fe_addr : Z;
  fi_is_stream_pipeline : bool;
  fi_enable_adaptive_dop : bool;
  fi_adaptive_dop_param : option TAdaptiveDopParam }.

Record FragmentContext := {
  fc_ident : FragmentIdent;
  fc_workgroup : option WorkGroup;
  fc_runtime_state : option RuntimeState;
  fc_pass_through_chunk_buffer : bool;
  fc_exec : ExecPlanState;
  fc_data_sink : option TDataSink;
  fc_graph : PipelineGraph;
  fc_driver_token : option nat;
  fc_stream_load_contexts : list (list Byte.byte * Z) }.

Definition fc_fragment_instance_id (fc : FragmentContext) : Z :=
  fi_fragment_instance_id (fc_ident fc).

Definition empty_graph : PipelineGraph := {|
  pg_sources := ∅; pg_pipelines := []; pg_morsel_queue_factory := ∅; pg_drivers := ∅;
  pg_group_initialize_event := ∅; pg_events := ∅; pg_next_event := 0 |}.

(** [std::make_shared<FragmentContext>()] with its identity set. *)
Definition new_fragment_context (ident : FragmentIdent) : FragmentContext := {|
  fc_ident := ident; fc_workgroup := None; fc_runtime_state := None;
  fc_pass_through_chunk_buffer := false; fc_exec := empty_exec_plan_state;
  fc_data_sink := None; fc_graph := empty_graph; fc_driver_token := None;
  fc_stream_load_contexts := [] |}.

Definition fc_set_workgroup (wg : WorkGroup) (fc : FragmentContext) : FragmentContext :=
  {| fc_ident := fc_ident fc; fc_workgroup := Some wg; fc_runtime_state := fc_runtime_state fc;
     fc_pass_through_chunk_buffer := fc_pass_through_chunk_buffer fc; fc_exec := fc_exec fc;
     fc_data_sink := fc_data_sink fc; fc_graph := fc_graph fc;
     fc_driver_token := fc_driver_token fc; fc_stream_load_contexts := fc_stream_load_contexts fc |}.

Definition fc_set_runtime_state (rs : RuntimeState) (pass_through : bool) (fc : FragmentContext)
    : FragmentContext :=
  {| fc_ident := fc_ident fc; fc_workgroup := fc_workgroup fc; fc_runtime_state := Some rs;
     fc_pass_through_chunk_buffer := pass_through; fc_exec := fc_exec fc;
     fc_data_sink := fc_data_sink fc; fc_graph := fc_graph fc;
     fc_driver_token := fc_driver_token fc; fc_stream_load_contexts := fc_stream_load_contexts fc |}.

Definition fc_set_exec (e : ExecPlanState) (fc : FragmentContext) : FragmentContext :=
  {| fc_ident := fc_ident fc; fc_workgroup := fc_workgroup fc; fc_runtime_state := fc_runtime_state fc;
     fc_pass_through_chunk_buffer := fc_pass_through_chunk_buffer fc; fc_exec := e;
     fc_data_sink := fc_data_sink fc; fc_graph := fc_graph fc;
     fc_driver_token := fc_driver_token fc; fc_stream_load_contexts := fc_stream_load_contexts fc |}.

Definition fc_set_pipelines (sink : option TDataSink) (g : PipelineGraph) (fc : FragmentContext)
    : FragmentContext :=
  {| fc_ident := fc_ident fc; fc_workgroup := fc_workgroup fc; fc_runtime_state := fc_runtime_state fc;
     fc_pass_through_chunk_buffer := fc_pass_through_chunk_buffer fc; fc_exec := fc_exec fc;
     fc_data_sink := sink; fc_graph := g;
     fc_driver_token := fc_driver_token fc; fc_stream_load_contexts := fc_stream_load_contexts fc |}.

Definition fc_set_driver_token (n : nat) (fc : FragmentContext) : FragmentContext :=
  {| fc_ident := fc_ident fc; fc_workgroup := fc_workgroup fc; fc_runtime_state := fc_runtime_state fc;
     fc_pass_through_chunk_buffer := fc_pass_through_chunk_buffer fc; fc_exec := fc_exec fc;
     fc_data_sink := fc_data_sink fc; fc_graph := fc_graph fc;
     fc_driver_token := Some n; fc_stream_load_contexts := fc_stream_load_contexts fc |}.

Definition fc_set_stream_load_contexts (l : list (list Byte.byte * Z)) (fc : FragmentContext)
    : FragmentContext :=
  {| fc_ident := fc_ident fc; fc_workgroup := fc_workgroup fc; fc_runtime_state := fc_runtime_state fc;
     fc_pass_through_chunk_buffer := fc_pass_through_chunk_buffer fc; fc_exec := fc_exec fc;
     fc_data_sink := fc_data_sink fc; fc_graph := fc_graph fc;
     fc_driver_token := fc_driver_token fc; fc_stream_load_contexts := l |}.

(** ** Query context *)

(** What [init_mem_tracker] records: the query limit, the big-query limit
    and the spill limit, each -1 for none. *)
Record MemLimits := {
  ml_query_mem_limit : Z;
  ml_big_query_mem_limit : Z;
  ml_spill_mem_limit : Z }.

(** The settings [_prepare_query_ctx] writes. *)
Record QuerySettings := {
  qs_total_fragments : option Z;
  qs_delivery_expire_seconds : Z;
  qs_query_expire_seconds : Z;
  qs_delivery_deadline : Z;
  qs_query_deadline : Z;
  qs_enable_pipeline_level_shuffle : option bool;
  qs_enable_profile : bool;
  qs_big_query_profile_threshold : option Z;
  qs_profile_level : option Z;
  qs_runtime_profile_report_interval : option Z;
  qs_query_trace : option bool }.

(** The query-wide resources the later phases set. *)
Record QueryResources := {
  (** [init_query_once]: the group and whether group-level queueing is on *)
  qr_wg : option (Z * bool);
  qr_mem : option MemLimits;
  qr_is_runtime_filter_coordinator : bool;
  qr_desc_tbl : option nat;
  qr_spill_manager : bool;
  qr_scan_limit : option Z }.

Record QueryContext := {
  qc_query_id : Z;
  qc_fragments : gmap Z FragmentContext;
  qc_num_active_fragments : nat;
  qc_settings : QuerySettings;
  qc_resources : QueryResources;
  qc_final_sink : bool;
  qc_prepared : bool }.

Definition initial_settings : QuerySettings := {|
  qs_total_fragments := None; qs_delivery_expire_seconds := 0; qs_query_expire_seconds := 0;
  qs_delivery_deadline := 0; qs_query_deadline := 0;
  qs_enable_pipeline_level_shuffle := None; qs_enable_profile := false;
  qs_big_query_profile_threshold := None; qs_profile_level := None;
  qs_runtime_profile_report_interval := None; qs_query_trace := None |}.

Definition initial_resources : QueryResources := {|
  qr_wg := None; qr_mem := None; qr_is_runtime_filter_coordinator := false;
  qr_desc_tbl := None; qr_spill_manager := false; qr_scan_limit := None |}.

Definition new_query_context (qid : Z) : QueryContext := {|
  qc_query_id := qid; qc_fragments := ∅; qc_num_active_fragments := 0;
  qc_settings := initial_settings; qc_resources := initial_resources;
  qc_final_sink := false; qc_prepared := false |}.

(** ** Record updates *)

Definition qc_with_fragments (m : gmap Z FragmentContext) (q : QueryContext) : QueryContext :=
  {| qc_query_id := qc_query_id q; qc_fragments := m;
     qc_num_active_fragments := qc_num_active_fragments q; qc_settings := qc_settings q;
     qc_resources := qc_resources q; qc_final_sink := qc_final_sink q; qc_prepared := qc_prepared q |}.

Definition qc_with_num_active (n : nat) (q : QueryContext) : QueryContext :=
  {| qc_query_id := qc_query_id q; qc_fragments := qc_fragments q;
     qc_num_active_fragments := n; qc_settings := qc_settings q;
     qc_resources := qc_resources q; qc_final_sink := qc_final_sink q; qc_prepared := qc_prepared q |}.

Definition qc_with_settings (st : QuerySettings) (q : QueryContext) : QueryContext :=
  {| qc_query_id := qc_query_id q; qc_fragments := qc_fragments q;
     qc_num_active_fragments := qc_num_active_fragments q; qc_settings := st;
     qc_resources := qc_resources q; qc_final_sink := qc_final_sink q; qc_prepared := qc_prepared q |}.

Definition qc_with_resources (rs : QueryResources) (q : QueryContext) : QueryContext :=
  {| qc_query_id := qc_query_id q; qc_fragments := qc_fragments q;
     qc_num_active_fragments := qc_num_active_fragments q; qc_settings := qc_settings q;
     qc_resources := rs; qc_final_sink := qc_final_sink q; qc_prepared := qc_prepared q |}.

(** [set_final_sink()]. *)
Definition qc_set_final_sink (q : QueryContext) : QueryContext :=
  {| qc_query_id := qc_query_id q; qc_fragments := qc_fragments q;
     qc_num_active_fragments := qc_num_active_fragments q; qc_settings := qc_settings q;
     qc_resources := qc_resources q; qc_final_sink := true; qc_prepared := qc_prepared q |}.

(** [mark_prepared()]. *)
Definition qc_mark_prepared (q : QueryContext) : QueryContext :=
  {| qc_query_id := qc_query_id q; qc_fragments := qc_fragments q;
     qc_num_active_fragments := qc_num_active_fragments q; qc_settings := qc_settings q;
     qc_resources := qc_resources q; qc_final_sink := qc_final_sink q; qc_prepared := true |}.

Definition qr_set_wg (v : option (Z * bool)) (r : QueryResources) : QueryResources :=
  {| qr_wg := v; qr_mem := qr_mem r; qr_is_runtime_filter_coordinator := qr_is_runtime_filter_coordinator r;
     qr_desc_tbl := qr_desc_tbl r; qr_spill_manager := qr_spill_manager r; qr_scan_limit := qr_scan_limit r |}.

Definition qr_set_mem (v : option MemLimits) (r : QueryResources) : QueryResources :=
  {| qr_wg := qr_wg r; qr_mem := v; qr_is_runtime_filter_coordinator := qr_is_runtime_filter_coordinator r;
     qr_desc_tbl := qr_desc_tbl r; qr_spill_manager := qr_spill_manager r; qr_scan_limit := qr_scan_limit r |}.

Definition qr_set_rf_coordinator (v : bool) (r : QueryResources) : QueryResources :=
  {| qr_wg := qr_wg r; qr_mem := qr_mem r; qr_is_runtime_filter_coordinator := v;
     qr_desc_tbl := qr_desc_tbl r; qr_spill_manager := qr_spill_manager r; qr_scan_limit := qr_scan_limit r |}.

Definition qr_set_desc_tbl (v : option nat) (r : QueryResources) : QueryResources :=
  {| qr_wg := qr_wg r; qr_mem := qr_mem r; qr_is_runtime_filter_coordinator := qr_is_runtime_filter_coordinator r;
     qr_desc_tbl := v; qr_spill_manager := qr_spill_manager r; qr_scan_limit := qr_scan_limit r |}.

Definition qr_set_spill_manager (v : bool) (r : QueryResources) : QueryResources :=
  {| qr_wg := qr_wg r; qr_mem := qr_mem r; qr_is_runtime_filter_coordinator := qr_is_runtime_filter_coordinator r;
     qr_desc_tbl := qr_desc_tbl r; qr_spill_manager := v; qr_scan_limit := qr_scan_limit r |}.

Definition qr_set_scan_limit (v : option Z) (r : QueryResources) : QueryResources :=
  {| qr_wg := qr_wg r; qr_mem := qr_mem r; qr_is_runtime_filter_coordinator := qr_is_runtime_filter_coordinator r;
     qr_desc_tbl := qr_desc_tbl r; qr_spill_manager := qr_spill_manager r; qr_scan_limit := v |}.

(** ** The registries *)

Abbreviation QueryContextMgr := (gmap Z QueryContext).

(** [QueryContextMgr::get_or_register]: the query's context, created when
    absent, with this fragment counted as live. *)
Definition get_or_register (qid : Z) (m : QueryContextMgr) : QueryContext * QueryContextMgr :=
  let q := match m !! qid with Some q => q | None => new_query_context qid end in
  let q' := qc_with_num_active (S (qc_num_active_fragments q)) q in
  (q', <[qid := q']> m).

(** [FragmentContextManager::get]. *)
Definition fragment_mgr_get (q : QueryContext) (fid : Z) : option FragmentContext :=
  qc_fragments q !! fid.

(** [FragmentContextManager::register_ctx]: refused when the id is taken. *)
Definition register_ctx (fid : Z) (fc : FragmentContext) (q : QueryContext)
    : StatusOr QueryContext :=
  match qc_fragments q !! fid with
  | Some _ => Err InternalError
  | None => Ok (qc_with_fragments (<[fid := fc]> (qc_fragments q)) q)
  end.

(** [FragmentContextManager::unregister]. *)
Definition unregister (fid : Z) (q : QueryContext) : QueryContext :=
  qc_with_fragments (delete fid (qc_fragments q)) q.

(** [QueryContext::count_down_fragments]: one live fragment fewer; the
    query's context goes when none is left. *)
Definition count_down_fragments (qid : Z) (m : QueryContextMgr) : QueryContextMgr :=
  match m !! qid with
  | Some q =>
      match qc_num_active_fragments q with
      | S (S n) => <[qid := qc_with_num_active (S n) q]> m
      | _ => delete qid m
      end
  | None => m
  end.

(** [extend_delivery_lifetime] / [extend_query_lifetime]: deadlines only
    move forward. *)
Definition extend_deadline (now expire_seconds deadline : Z) : Z :=
  Z.max deadline (now + expire_seconds).

(** ** Registry lemmas *)

Lemma get_or_register_lookup qid m :
  (get_or_register qid m).2 !! qid = Some (get_or_register qid m).1.
Proof. unfold get_or_register. simpl. apply lookup_insert_eq. Qed.

Lemma get_or_register_other qid qid' m :
  qid' ≠ qid -> (get_or_register qid m).2 !! qid' = m !! qid'.
Proof. intros Hne. unfold get_or_register. simpl. by rewrite lookup_insert_ne. Qed.

Lemma get_or_register_fragments qid m q :
  m !! qid = Some q -> qc_fragments (get_or_register qid m).1 = qc_fragments q.
Proof. intros Hq. unfold get_or_register. by rewrite Hq. Qed.

Lemma register_ctx_Ok fid fc q q' :
  register_ctx fid fc q = Ok q' ->
  qc_fragments q !! fid = None /\ qc_fragments q' = <[fid := fc]> (qc_fragments q).
Proof.
  unfold register_ctx. destruct (qc_fragments q !! fid); [discriminate|].
  intros [= <-]. auto.
Qed.

Lemma register_ctx_taken fid fc q :
  is_Some (qc_fragments q !! fid) -> register_ctx fid fc q = Err InternalError.
Proof. intros [x Hx]. unfold register_ctx. by rewrite Hx. Qed.

Lemma extend_deadline_mono (now secs d : Z) : (d <= extend_deadline now secs d)%Z.
Proof. unfold extend_deadline. lia. Qed.

Lemma count_down_fragments_lookup_ne qid qid' m :
  qid' ≠ qid -> count_down_fragments qid m !! qid' = m !! qid'.
Proof.
  intros Hne. unfold count_down_fragments.
  destruct (m !! qid) as [q|]; [|done].
  destruct (qc_num_active_fragments q) as [|[|n]];
    by rewrite ?lookup_delete_ne, ?lookup_insert_ne by congruence.
Qed.

(** Counting down keeps the query's fragments and takes one from its count;
    a query left with none is gone. *)
Lemma count_down_fragments_lookup_eq qid m :
  count_down_fragments qid m !! qid =
  match m !! qid with
  | Some q => match qc_num_active_fragments q with
              | S (S n) => Some (qc_with_num_active (S n) q)
              | _ => None
              end
  | None => None
  end.
Proof.
  unfold count_down_fragments. destruct (m !! qid) as [q|] eqn:Hq; [|done].
  destruct (qc_num_active_fragments q) as [|[|n]];
    by rewrite ?lookup_delete_eq, ?lookup_insert_eq.
Qed.

Lemma count_down_fragments_count qid m :
  default 0 (qc_num_active_fragments <$> count_down_fragments qid m !! qid) =
  default 0 (qc_num_active_fragments <$> m !! qid) - 1.
Proof.
  rewrite count_down_fragments_lookup_eq.
  destruct (m !! qid) as [q|]; [|done]. cbn.
  destruct (qc_num_active_fragments q) as [|[|n]]; cbn; lia.
Qed.

#[export] Hint Resolve get_or_register_lookup register_ctx_Ok extend_deadline_mono : fe.
