(* ===== verification/Executor.v ===== *)
(** * The fragment executor: prepare, execute and the failure path

    [FragmentExecutor::prepare] (lines 643-742), its steps
    [_prepare_query_ctx] (110-162), [_prepare_fragment_ctx] (164-185),
    [_prepare_workgroup] (187-212), [_prepare_runtime_state] (214-292),
    [_prepare_global_dict] (625-641), [_prepare_exec_plan] (331-477, the
    computation is [compute_exec_plan]), [_prepare_pipeline_driver]
    (552-623), [_prepare_stream_load_pipe] (479-529), the registration, the
    [DeferOp] that runs [_fail_cleanup] (795-806) on failure, and
    [FragmentExecutor::execute] (744-793).

    The state is the pair of the process-wide [World] (the query registry,
    the driver limiter, the resource-group registry, the runtime-filter
    worker's open queries, the stream-load channel registry, the driver
    scheduler's run queue, the clock and the query pool's memory; the
    pass-through chunk buffer is a flag of the fragment context) and the [FragmentExecutor]'s own fields
    ([_query_ctx] as the query id it refers to, [_fragment_ctx], [_wg]).
    The executor's steps run in the monad [M]: a state transformer whose
    errors keep the state reached, as the C++ early returns do, so that the
    cleanup sees what the failed step left.

    The collaborators of the executor that [src/] does not contain are the
    fields of [ExecEnv]: plan-tree creation, morsel-queue conversion,
    descriptor decoding, the global dictionaries, the spill manager, sink
    creation and decomposition, the pipeline builder, [prepare_all_pipelines],
    stream-load channel creation and [Driver::prepare].  Every theorem holds
    for all of them, but the driver budget (Section [DriverBudget]), which
    composes [prepare] with the scheduler of [Scheduler] and asks of the
    pipeline builder that its graphs be [schedulable]. *)

From S2P Require Import Prelude Request CacheKey ScanPlan Pipeline Scheduler Limiter Context.
From stdpp Require Import base list gmap.
From Stdlib Require Import ZArith Lia.

Local Open Scope Z_scope.

(** ** Collaborators and configuration *)

Record ExecEnv := {
  env_create_tree : TPlan -> StatusOr ExecPlan;
  env_convert : ScanNode -> list TScanRangeParams -> PerDriverScanRangesMap -> Z -> nat ->
                bool -> TTabletInternalParallelMode -> StatusOr MorselQueueFactory;
  env_query_cache_num_lanes_per_driver : Z;
  (** [ExecEnv::calc_pipeline_dop] and [calc_pipeline_sink_dop] *)
  env_calc_pipeline_dop : Z -> nat;
  env_calc_pipeline_sink_dop : Z -> nat;
  env_default_wg : WorkGroup;
  env_default_mv_wg : WorkGroup;
  env_create_desc_tbl : TDescriptorTable -> StatusOr nat;
  env_init_spill_manager : TQueryOptions -> Status;
  env_init_query_global_dict : list Z -> Status;
  env_init_query_global_dict_exprs : list Z -> Status;
  env_init_load_global_dict : list Z -> Status;
  env_create_data_sink : TDataSink -> Status;
  env_decompose_data_sink_to_pipeline : TDataSink -> Status;
  (** [PipelineBuilder] with the sink's decomposition: the built graph *)
  env_build_pipelines : ExecPlan -> nat -> nat -> option TDataSink -> PipelineGraph;
  env_prepare_all_pipelines : PipelineGraph -> Status;
  env_create_channel_context : TBrokerScanRange -> Status;
  env_driver_prepare : Driver -> Status;
  (** [WorkGroup::acquire_running_query_token]: refused when the group runs
      as many queries as it may *)
  env_acquire_running_query_token : WorkGroup -> bool -> Status;
  (** [runtime_state->chunk_size()] *)
  env_chunk_size : Z }.

(** ** State *)

Record World (L : Type) := {
  w_query_ctxs : QueryContextMgr;
  w_limiter : L;
  w_workgroups : gmap Z WorkGroup;
  w_rf_queries : list Z;
  w_stream_channels : list (list Byte.byte * Z);
  w_scheduler : list Driver;
  w_now : Z;
  w_query_pool_consumption : Z;
  w_query_pool_limit : Z }.
Arguments w_query_ctxs {L}. Arguments w_limiter {L}. Arguments w_workgroups {L}.
Arguments w_rf_queries {L}. Arguments w_stream_channels {L}.
Arguments w_scheduler {L}. Arguments w_now {L}.
Arguments w_query_pool_consumption {L}. Arguments w_query_pool_limit {L}.

Record FragmentExecutor := {
  fe_query_ctx : option Z;
  fe_fragment_ctx : option FragmentContext;
  fe_wg : option WorkGroup }.

Definition new_executor : FragmentExecutor :=
  {| fe_query_ctx := None; fe_fragment_ctx := None; fe_wg := None |}.

Section Executor.
Context {L : Type} `{DriverLimiter L}.
Context (env : ExecEnv).

Abbreviation S := (World L * FragmentExecutor)%type.

(** ** The monad *)

Definition M (A : Type) : Type := S -> StatusOr A * S.

Definition mret {A} (a : A) : M A := fun s => (Ok a, s).
Definition mbind {A B} (m : M A) (f : A -> M B) : M B :=
  fun s => match m s with
           | (Ok a, s') => f a s'
           | (Err e, s') => (Err e, s')
           end.
Definition mlift {A} (r : StatusOr A) : M A := fun s => (r, s).
Definition mmodify (f : S -> S) : M unit := fun s => (Ok tt, f s).
Definition mget : M S := fun s => (Ok s, s).

Declare Scope exec_scope.
Local Notation "x <-- m ;; k" := (mbind m (fun x => k))
  (at level 100, m at next level, k at level 200, right associativity) : exec_scope.
Local Notation "m ;;; k" := (mbind m (fun _ => k))
  (at level 100, k at level 200, right associativity) : exec_scope.
Local Open Scope exec_scope.

(** ** World and executor updates *)

Definition set_world (w : World L) (s : S) : S := (w, s.2).
Definition set_executor (ex : FragmentExecutor) (s : S) : S := (s.1, ex).

Definition world_with_queries (m : QueryContextMgr) (w : World L) : World L :=
  {| w_query_ctxs := m; w_limiter := w_limiter w; w_workgroups := w_workgroups w;
     w_rf_queries := w_rf_queries w; w_stream_channels := w_stream_channels w;
     w_scheduler := w_scheduler w;
     w_now := w_now w; w_query_pool_consumption := w_query_pool_consumption w;
     w_query_pool_limit := w_query_pool_limit w |}.

Definition world_with_limiter (l : L) (w : World L) : World L :=
  {| w_query_ctxs := w_query_ctxs w; w_limiter := l; w_workgroups := w_workgroups w;
     w_rf_queries := w_rf_queries w; w_stream_channels := w_stream_channels w;
     w_scheduler := w_scheduler w;
     w_now := w_now w; w_query_pool_consumption := w_query_pool_consumption w;
     w_query_pool_limit := w_query_pool_limit w |}.

Definition world_with_workgroups (m : gmap Z WorkGroup) (w : World L) : World L :=
  {| w_query_ctxs := w_query_ctxs w; w_limiter := w_limiter w; w_workgroups := m;
     w_rf_queries := w_rf_queries w; w_stream_channels := w_stream_channels w;
     w_scheduler := w_scheduler w;
     w_now := w_now w; w_query_pool_consumption := w_query_pool_consumption w;
     w_query_pool_limit := w_query_pool_limit w |}.

Definition world_with_rf_queries (l : list Z) (w : World L) : World L :=
  {| w_query_ctxs := w_query_ctxs w; w_limiter := w_limiter w; w_workgroups := w_workgroups w;
     w_rf_queries := l; w_stream_channels := w_stream_channels w;
     w_scheduler := w_scheduler w;
     w_now := w_now w; w_query_pool_consumption := w_query_pool_consumption w;
     w_query_pool_limit := w_query_pool_limit w |}.

Definition world_with_stream_channels (l : list (list Byte.byte * Z)) (w : World L) : World L :=
  {| w_query_ctxs := w_query_ctxs w; w_limiter := w_limiter w; w_workgroups := w_workgroups w;
     w_rf_queries := w_rf_queries w; w_stream_channels := l;
     w_scheduler := w_scheduler w;
     w_now := w_now w; w_query_pool_consumption := w_query_pool_consumption w;
     w_query_pool_limit := w_query_pool_limit w |}.

Definition world_with_scheduler (l : list Driver) (w : World L) : World L :=
  {| w_query_ctxs := w_query_ctxs w; w_limiter := w_limiter w; w_workgroups := w_workgroups w;
     w_rf_queries := w_rf_queries w; w_stream_channels := w_stream_channels w;
     w_scheduler := l;
     w_now := w_now w; w_query_pool_consumption := w_query_pool_consumption w;
     w_query_pool_limit := w_query_pool_limit w |}.

(** The query context [_query_ctx] points to. *)
Definition get_query_ctx : M QueryContext :=
  fun s => match fe_query_ctx s.2 with
           | Some qid => match w_query_ctxs s.1 !! qid with
                         | Some q => (Ok q, s)
                         | None => (Err InternalError, s)
                         end
           | None => (Err InternalError, s)
           end.

Definition modify_query_ctx (f : QueryContext -> QueryContext) : M unit :=
  fun s => match fe_query_ctx s.2 with
           | Some qid => (Ok tt, set_world (world_with_queries
                                             (alter f qid (w_query_ctxs s.1)) s.1) s)
           | None => (Ok tt, s)
           end.

Definition get_fragment_ctx : M FragmentContext :=
  fun s => match fe_fragment_ctx s.2 with
           | Some fc => (Ok fc, s)
           | None => (Err InternalError, s)
           end.

Definition modify_fragment_ctx (f : FragmentContext -> FragmentContext) : M unit :=
  fun s => (Ok tt, set_executor {| fe_query_ctx := fe_query_ctx s.2;
                                   fe_fragment_ctx := f <$> fe_fragment_ctx s.2;
                                   fe_wg := fe_wg s.2 |} s).

Definition modify_resources (f : QueryResources -> QueryResources) : M unit :=
  modify_query_ctx (fun q => qc_with_resources (f (qc_resources q)) q).

(** ** [_prepare_query_ctx] (lines 110-162) *)

(** The query-wide settings written at lines 128-159. *)
Definition prepare_query_settings (r : UnifiedExecPlanFragmentParams) (now : Z)
    (st : QuerySettings) : QuerySettings :=
  let qo := req_query_options r in
  let delivery := _calc_delivery_expired_seconds r in
  let query := _calc_query_expired_seconds r in
  {| qs_total_fragments :=
       match instances_number (params (common r)) with
       | Some n => Some n | None => qs_total_fragments st end;
     qs_delivery_expire_seconds := delivery;
     qs_query_expire_seconds := query;
     qs_delivery_deadline := extend_deadline now delivery (qs_delivery_deadline st);
     qs_query_deadline := extend_deadline now query (qs_query_deadline st);
     qs_enable_pipeline_level_shuffle :=
       match enable_pipeline_level_shuffle qo with
       | Some b => Some b | None => qs_enable_pipeline_level_shuffle st end;
     qs_enable_profile := flag (enable_profile qo) || qs_enable_profile st;
     qs_big_query_profile_threshold :=
       match big_query_profile_threshold qo with
       | Some v => Some v | None => qs_big_query_profile_threshold st end;
     qs_profile_level :=
       match pipeline_profile_level qo with
       | Some v => Some v | None => qs_profile_level st end;
     qs_runtime_profile_report_interval :=
       match runtime_profile_report_interval qo with
       | Some v => Some (Z.max 1 v) | None => qs_runtime_profile_report_interval st end;
     qs_query_trace := Some (flag (enable_query_debug_trace qo)) |}.

Definition _prepare_query_ctx (r : UnifiedExecPlanFragmentParams) : M unit :=
  fun s =>
    let qid := req_query_id r in
    let fid := req_fragment_instance_id r in
    let duplicate := match w_query_ctxs s.1 !! qid with
                     | Some q => bool_decide (is_Some (fragment_mgr_get q fid))
                     | None => false
                     end in
    if duplicate then (Err DuplicateRpcInvocation, s)
    else
      let '(q, m) := get_or_register qid (w_query_ctxs s.1) in
      let q' := qc_with_settings (prepare_query_settings r (w_now s.1) (qc_settings q)) q in
      (Ok tt, (world_with_queries (<[qid := q']> m) s.1,
               {| fe_query_ctx := Some qid; fe_fragment_ctx := fe_fragment_ctx s.2;
                  fe_wg := fe_wg s.2 |})).

(** Dropping the executor's fragment context: when nothing else holds it,
    its destructor releases the driver token. *)
Definition release_token (fc : FragmentContext) (w : World L) : World L :=
  match fc_driver_token fc with
  | Some n => world_with_limiter (dl_release n (w_limiter w)) w
  | None => w
  end.

(** ** [_prepare_fragment_ctx] (lines 164-185) *)

(** [_fragment_ctx = std::make_shared<FragmentContext>()]: the context held
    before, if any, is destroyed and gives its token back. *)
(** The identity lines 165-183 give the new context. *)
Definition fragment_ident (r : UnifiedExecPlanFragmentParams) : FragmentIdent :=
  {| fi_query_id := req_query_id r;
     fi_fragment_instance_id := req_fragment_instance_id r;
     fi_fe_addr := coord (common r);
     fi_is_stream_pipeline := is_stream_pipeline (common r);
     fi_enable_adaptive_dop := bool_decide (is_Some (adaptive_dop_param (common r)));
     fi_adaptive_dop_param := adaptive_dop_param (common r) |}.

Definition _prepare_fragment_ctx (r : UnifiedExecPlanFragmentParams) : M unit :=
  mmodify (fun s =>
    let ident := fragment_ident r in
    (match fe_fragment_ctx s.2 with
     | Some old => release_token old s.1
     | None => s.1
     end,
     {| fe_query_ctx := fe_query_ctx s.2;
        fe_fragment_ctx := Some (new_fragment_context ident);
        fe_wg := fe_wg s.2 |})).

(** ** [_prepare_workgroup] (lines 187-212) *)

(** [WorkGroupManager::add_workgroup]: the registered group of that id,
    registering this one when there is none. *)
Definition add_workgroup (wg : WorkGroup) : M WorkGroup :=
  fun s => match w_workgroups s.1 !! wg_id wg with
           | Some g => (Ok g, s)
           | None => (Ok wg, set_world (world_with_workgroups
                                          (<[wg_id wg := wg]> (w_workgroups s.1)) s.1) s)
           end.

(** [QueryContext::init_query_once] (line 206): under [std::call_once], the
    first fragment of the query fixes its group and group-level queueing
    and takes the group's running-query token; when the group refuses the
    token, that call returns the refusal.  The once flag is set either way,
    so a later fragment of the query does not try again. *)
Definition init_query_once (wg : WorkGroup) (enable_group_level_query_queue : bool) : M unit :=
  q <-- get_query_ctx ;;
  match qr_wg (qc_resources q) with
  | Some _ => mret tt
  | None =>
      modify_resources (qr_set_wg (Some (wg_id wg, enable_group_level_query_queue))) ;;;
      mlift (env_acquire_running_query_token env wg enable_group_level_query_queue)
  end.

Definition _prepare_workgroup (r : UnifiedExecPlanFragmentParams) : M unit :=
  wg <-- match workgroup_choice r with
         | UseDefaultWg => mret (env_default_wg env)
         | UseDefaultMvWg => mret (env_default_mv_wg env)
         | UseCustomWg t => add_workgroup (workgroup_of_thrift t)
         end ;;
  init_query_once wg (group_level_query_queue r) ;;;
  modify_fragment_ctx (fc_set_workgroup wg) ;;;
  mmodify (fun s => set_executor {| fe_query_ctx := fe_query_ctx s.2;
                                    fe_fragment_ctx := fe_fragment_ctx s.2;
                                    fe_wg := Some wg |} s).

(** ** [_prepare_runtime_state] (lines 214-292) *)

(** [QueryContext::init_mem_tracker]: the first fragment of the query sets
    the limits. *)
Definition init_mem_tracker (ml : MemLimits) : M unit :=
  modify_resources (fun rs => match qr_mem rs with
                              | Some _ => rs
                              | None => qr_set_mem (Some ml) rs
                              end).

(** [RuntimeFilterWorker::open_query], idempotent. *)
Definition open_query (qid : Z) : M unit :=
  mmodify (fun s => if bool_decide (qid ∈ w_rf_queries s.1) then s
                    else set_world (world_with_rf_queries (qid :: w_rf_queries s.1) s.1) s).

(** Lines 269-286: the descriptor table, shared per query when cached. *)
Definition setup_desc_tbl (r : UnifiedExecPlanFragmentParams) : M nat :=
  let t := desc_tbl (common r) in
  match is_cached t with
  | Some true =>
      q <-- get_query_ctx ;;
      match qr_desc_tbl (qc_resources q) with
      | Some d => mret d
      | None => mlift (Err Cancelled)
      end
  | Some false =>
      d <-- mlift (env_create_desc_tbl env t) ;;
      modify_resources (qr_set_desc_tbl (Some d)) ;;;
      mret d
  | None => mlift (env_create_desc_tbl env t)
  end.

Definition _prepare_runtime_state (r : UnifiedExecPlanFragmentParams) : M unit :=
  s <-- mget ;;
  let qo := req_query_options r in
  let fid := req_fragment_instance_id r in
  let rs := {| rs_query_id := req_query_id r; rs_fragment_instance_id := fid;
               rs_func_version := match func_version (common r) with
                                  | Some v => RequestFuncVersion v
                                  | None => RUNTIME_FILTER_SERIALIZE_VERSION_2
                                  end;
               rs_be_number := backend_num (unique r);
               rs_chunk_size := env_chunk_size env;
               rs_enable_spill := flag (enable_spill qo);
               rs_desc_tbl := None |} in
  modify_fragment_ctx (fc_set_runtime_state rs false) ;;;
  let big := match fe_wg s.2 with Some wg => big_query_mem_limit wg | None => -1 end in
  init_mem_tracker {| ml_query_mem_limit := option_query_mem_limit qo;
                      ml_big_query_mem_limit := big;
                      ml_spill_mem_limit := spill_mem_limit_bytes qo |} ;;;
  (match runtime_filter_params_of r with
   | Some _ => modify_resources (qr_set_rf_coordinator true) ;;; open_query (req_query_id r)
   | None => mret tt
   end) ;;;
  modify_fragment_ctx (fc_set_runtime_state rs true) ;;;
  d <-- setup_desc_tbl r ;;
  modify_fragment_ctx (fc_set_runtime_state
    {| rs_query_id := rs_query_id rs; rs_fragment_instance_id := fid;
       rs_func_version := rs_func_version rs; rs_be_number := rs_be_number rs;
       rs_chunk_size := rs_chunk_size rs; rs_enable_spill := rs_enable_spill rs;
       rs_desc_tbl := Some d |} true) ;;;
  if flag (enable_spill qo)
  then mlift (env_init_spill_manager env qo) ;;; modify_resources (qr_set_spill_manager true)
  else mret tt.

(** ** [_prepare_global_dict] (lines 625-641) *)

Definition _prepare_global_dict (r : UnifiedExecPlanFragmentParams) : M unit :=
  let f := fragment (common r) in
  (match query_global_dicts f with
   | Some d => mlift (env_init_query_global_dict env d)
   | None => mret tt
   end) ;;;
  (match query_global_dicts f, query_global_dict_exprs f with
   | Some _, Some e => mlift (env_init_query_global_dict_exprs env e)
   | _, _ => mret tt
   end) ;;;
  match load_global_dicts f with
  | Some d => mlift (env_init_load_global_dict env d)
  | None => mret tt
  end.

(** ** [_calc_dop] and [_calc_sink_dop] (lines 294-302) *)

Definition _calc_dop (r : UnifiedExecPlanFragmentParams) : nat :=
  env_calc_pipeline_dop env (default 0 (pipeline_dop (common r))).

Definition _calc_sink_dop (r : UnifiedExecPlanFragmentParams) : nat :=
  env_calc_pipeline_sink_dop env (default 0 (pipeline_sink_dop (common r))).

(** ** [_prepare_exec_plan] (lines 331-477) *)

Definition _prepare_exec_plan (r : UnifiedExecPlanFragmentParams) : M unit :=
  fc <-- get_fragment_ctx ;;
  s <-- mget ;;
  let enable_spill := match fc_runtime_state fc with Some rs => rs_enable_spill rs | None => false end in
  match fe_wg s.2 with
  | Some wg =>
      res <-- mlift (compute_exec_plan (env_create_tree env) (env_convert env)
                       (env_query_cache_num_lanes_per_driver env) r (_calc_dop r)
                       (env_chunk_size env) enable_spill wg (fc_exec fc)) ;;
      modify_fragment_ctx (fc_set_exec res.1) ;;;
      match res.2 with
      | Some v => modify_resources (qr_set_scan_limit (Some v))
      | None => mret tt
      end
  | None => mlift (Err InternalError)
  end.

(** ** [_prepare_pipeline_driver] (lines 552-623) *)

(** Line 574-577: the sink types that end the query's data flow. *)
Definition is_final_sink (t : TDataSinkType) : bool :=
  match t with
  | RESULT_SINK | OLAP_TABLE_SINK | MEMORY_SCRATCH_SINK | ICEBERG_TABLE_SINK
  | HIVE_TABLE_SINK | EXPORT_SINK | BLACKHOLE_TABLE_SINK | DICTIONARY_CACHE_SINK => true
  | _ => false
  end.

(** The slots of the token the executor's fragment context holds. *)
Definition token_of (s : S) : nat :=
  match fe_fragment_ctx s.2 with
  | Some fc => default 0%nat (fc_driver_token fc)
  | None => 0%nat
  end.

(** Lines 619-620: [try_acquire(n)] on the world's limiter, then
    [set_driver_token], whose move assignment destroys (releases) the token
    the context held before. *)
Definition acquire_driver_token (n : nat) : M unit :=
  fun s => match fe_fragment_ctx s.2 with
           | None => (Err InternalError, s)
           | Some fc =>
               match dl_try_acquire n (w_limiter s.1) with
               | Ok l => (Ok tt, (world_with_limiter (dl_release (token_of s) l) s.1,
                                  {| fe_query_ctx := fe_query_ctx s.2;
                                     fe_fragment_ctx := Some (fc_set_driver_token n fc);
                                     fe_wg := fe_wg s.2 |}))
               | Err e => (Err e, s)
               end
           end.

Definition _prepare_pipeline_driver (r : UnifiedExecPlanFragmentParams) : M unit :=
  fc <-- get_fragment_ctx ;;
  match eps_plan (fc_exec fc) with
  | None => mlift (Err InternalError)
  | Some p =>
      let sink := req_output_sink r in
      (match sink with
       | Some t =>
           (if is_final_sink (sink_type t) then modify_query_ctx qc_set_final_sink else mret tt) ;;;
           mlift (env_create_data_sink env t) ;;;
           mlift (env_decompose_data_sink_to_pipeline env t)
       | None => mret tt
       end) ;;;
      let g := env_build_pipelines env p (_calc_dop r) (_calc_sink_dop r) sink in
      modify_fragment_ctx (fc_set_pipelines sink g) ;;;
      mlift (env_prepare_all_pipelines env g) ;;;
      let g' := activate_pipelines (eps_morsel_queue_factories (fc_exec fc)) g in
      modify_fragment_ctx (fc_set_pipelines sink g') ;;;
      acquire_driver_token (total_dop g')
  end.

(** ** [_prepare_stream_load_pipe] (lines 479-529) *)

Definition default_broker_scan_range : TBrokerScanRange :=
  {| channel_id := None; load_label := []; load_txn_id := 0 |}.

(** [StreamContextMgr::put_channel_context]: refused when the channel of
    that label is already registered. *)
Definition put_channel_context (label : list Byte.byte) (channel : Z) : M unit :=
  fun s => if bool_decide ((label, channel) ∈ w_stream_channels s.1)
           then (Err InternalError, s)
           else (Ok tt, set_world (world_with_stream_channels
                                     ((label, channel) :: w_stream_channels s.1) s.1) s).

(** The broker range of a scan range and the channel it names. *)
Definition broker_of (sr : TScanRangeParams) : TBrokerScanRange :=
  default default_broker_scan_range (broker_scan_range (scan_range sr)).

Definition channel_of (sr : TScanRangeParams) : list Byte.byte * Z :=
  (load_label (broker_of sr), default 0 (channel_id (broker_of sr))).

(** The channels of a driver-sequence map, in the order of the loops. *)
Definition stream_load_channels (per_driver : PerDriverScanRangesMap) : list (list Byte.byte * Z) :=
  map channel_of (concat (map snd per_driver)).

(** The body of the innermost loop (lines 506-523) for one scan range. *)
Definition stream_load_range (acc : list (list Byte.byte * Z)) (sr : TScanRangeParams)
    : M (list (list Byte.byte * Z)) :=
  let b := broker_of sr in
  let channel := default 0 (channel_id b) in
  mlift (env_create_channel_context env b) ;;;
  put_channel_context (load_label b) channel ;;;
  mret (acc ++ [(load_label b, channel)]).

Fixpoint stream_load_ranges (acc : list (list Byte.byte * Z)) (l : list TScanRangeParams)
    : M (list (list Byte.byte * Z)) :=
  match l with
  | [] => mret acc
  | sr :: rest => acc' <-- stream_load_range acc sr ;; stream_load_ranges acc' rest
  end.

Fixpoint stream_load_seqs (acc : list (list Byte.byte * Z)) (m : PerDriverScanRangesMap)
    : M (list (list Byte.byte * Z)) :=
  match m with
  | [] => mret acc
  | (_, ranges) :: rest => acc' <-- stream_load_ranges acc ranges ;; stream_load_seqs acc' rest
  end.

(** The guards of lines 481-501 and the loops of lines 503-526.  The
    [std::map] is iterated in key order, which is the order of the list.
    The inner iterator [iter2] is initialised once, before the outer loop,
    to the first node's map and never reset.  For the first node the inner
    loop visits all its driver sequences and leaves [iter2] at the first
    map's end.  When the outer loop moves on to a second node, line 504
    compares [iter2] with the end of a different map: the two differ, and
    the body dereferences the first map's end, which is undefined
    behaviour; the model stops there with [UndefinedBehavior], after the
    first node's channels have been registered. *)
Definition _prepare_stream_load_pipe (r : UnifiedExecPlanFragmentParams) : M unit :=
  match node_to_per_driver_seq_scan_ranges (params (unique r)) with
  | Some ((_, ((_, sr :: _) :: _) as per_driver) :: rest) =>
      match broker_scan_range (scan_range sr) with
      | Some b =>
          match channel_id b with
          | Some _ =>
              ctxs <-- stream_load_seqs [] per_driver ;;
              match rest with
              | [] => modify_fragment_ctx (fc_set_stream_load_contexts ctxs)
              | _ :: _ => mlift (Err UndefinedBehavior)
              end
          | None => mret tt
          end
      | None => mret tt
      end
  | _ => mret tt
  end.

(** ** Registration (lines 737-738) *)

Definition register_fragment (r : UnifiedExecPlanFragmentParams) : M unit :=
  fc <-- get_fragment_ctx ;;
  q <-- get_query_ctx ;;
  q' <-- mlift (register_ctx (req_fragment_instance_id r) fc q) ;;
  modify_query_ctx (fun _ => qc_mark_prepared q').

(** ** [_fail_cleanup] (lines 795-806) *)

Definition _fail_cleanup (fragment_has_registed : bool) (s : S) : S :=
  match fe_query_ctx s.2 with
  | Some qid =>
      let '(w1, fc_opt) :=
        match fe_fragment_ctx s.2 with
        | Some fc =>
            let fid := fc_fragment_instance_id fc in
            let m := if fragment_has_registed
                     then alter (unregister fid) qid (w_query_ctxs s.1)
                     else w_query_ctxs s.1 in
            (release_token fc (world_with_queries m s.1), None)
        | None => (s.1, None)
        end in
      (world_with_queries (count_down_fragments qid (w_query_ctxs w1)) w1,
       {| fe_query_ctx := fe_query_ctx s.2; fe_fragment_ctx := fc_opt; fe_wg := fe_wg s.2 |})
  | None => s
  end.

(** ** [prepare] (lines 643-742) *)

(** [GlobalEnv::query_pool_mem_tracker()->check_mem_limit]: the query pool
    is over its limit (a negative limit is none); the status is
    [MemoryLimitExceeded]. *)
Definition check_mem_limit : M unit :=
  fun s => if (0 <=? w_query_pool_limit s.1) && (w_query_pool_limit s.1 <? w_query_pool_consumption s.1)
           then (Err MemoryLimitExceeded, s) else (Ok tt, s).

(** Lines 710-738 after [_prepare_query_ctx]. *)
Definition prepare_fragment_steps (r : UnifiedExecPlanFragmentParams) : M unit :=
  _prepare_fragment_ctx r ;;;
  _prepare_workgroup r ;;;
  _prepare_runtime_state r ;;;
  _prepare_global_dict r ;;;
  _prepare_exec_plan r ;;;
  _prepare_pipeline_driver r ;;;
  _prepare_stream_load_pipe r ;;;
  register_fragment r.

(** Lines 704-738. *)
Definition prepare_steps (r : UnifiedExecPlanFragmentParams) : M unit :=
  check_mem_limit ;;;
  _prepare_query_ctx r ;;;
  prepare_fragment_steps r.

(** With the [DeferOp] of lines 662-703: on failure, [_fail_cleanup(false)]. *)
Definition prepare (r : UnifiedExecPlanFragmentParams) : M unit :=
  fun s => match prepare_steps r s with
           | (Ok tt, s') => (Ok tt, s')
           | (Err e, s') => (Err e, _fail_cleanup false s')
           end.

(** ** [execute] (lines 744-793) *)

(** [iterate_active_drivers]: the drivers of the pipelines whose source is
    initially active, pipeline by pipeline. *)
Definition active_drivers (g : PipelineGraph) : list Driver :=
  concat (map (fun pl => match source_of g pl with
                         | Some so => if so_is_adaptive_group_initial_active so
                                      then default [] (pg_drivers g !! pl_id pl) else []
                         | None => []
                         end) (pg_pipelines g)).

Fixpoint prepare_drivers (ds : list Driver) : Status :=
  match ds with
  | [] => OK
  | d :: rest => sbind (env_driver_prepare env d) (fun _ => prepare_drivers rest)
  end.

Definition execute : M unit :=
  fun s => match fe_fragment_ctx s.2 with
           | Some fc =>
               let ds := active_drivers (fc_graph fc) in
               match prepare_drivers ds with
               | Ok _ => (Ok tt, set_world (world_with_scheduler (w_scheduler s.1 ++ ds) s.1) s)
               | Err e => (Err e, _fail_cleanup true s)
               end
           | None => (Err InternalError, s)
           end.
End Executor.

(** ** A sample back end *)

Section SampleEnv.
Open Scope Z_scope.

(** The pipeline builder's output for a plan with one scan node: one
    pipeline reading morsels of node 1, initially active, at the
    fragment's dop, whose pipeline event is event 0. *)
Definition sample_build (_ : ExecPlan) (dop _ : nat) (_ : option TDataSink) : PipelineGraph :=
  {| pg_sources := {[0%nat := {| so_plan_node_id := 1; so_with_morsels := true;
                             so_is_adaptive_group_initial_active := true; so_group_leader := 0%nat;
                             so_adaptive_blocking_event := None;
                             so_group_dependent_pipelines := [] |}]};
     pg_pipelines := [{| pl_id := 0; pl_source := 0; pl_dop := dop; pl_event := 0 |}]%nat;
     pg_morsel_queue_factory := ∅; pg_drivers := ∅; pg_group_initialize_event := ∅;
     pg_events := {[0%nat := {| ev_kind := ExternalEvent; ev_deps := []; ev_fired := false |}]};
     pg_next_event := 1%nat |}.

(** Every collaborator but [Driver::prepare] succeeds; the requested dop
    is used as is (the default 1 when unset). *)
Definition sample_env_with (limit : Z) (driver_prepare : Driver -> Status) : ExecEnv := {|
  env_create_tree := sample_create_tree limit;
  env_convert := sample_convert;
  env_query_cache_num_lanes_per_driver := 4;
  env_calc_pipeline_dop := fun d => if 0 <? d then Z.to_nat d else 1%nat;
  env_calc_pipeline_sink_dop := fun d => if 0 <? d then Z.to_nat d else 1%nat;
  env_default_wg := sample_wg;
  env_default_mv_wg := sample_wg;
  env_create_desc_tbl := fun _ => Ok 1%nat;
  env_init_spill_manager := fun _ => OK;
  env_init_query_global_dict := fun _ => OK;
  env_init_query_global_dict_exprs := fun _ => OK;
  env_init_load_global_dict := fun _ => OK;
  env_create_data_sink := fun _ => OK;
  env_decompose_data_sink_to_pipeline := fun _ => OK;
  env_build_pipelines := sample_build;
  env_prepare_all_pipelines := fun _ => OK;
  env_create_channel_context := fun _ => OK;
  env_driver_prepare := driver_prepare;
  env_acquire_running_query_token := fun _ _ => OK;
  env_chunk_size := 4096 |}.

(** Every collaborator succeeds. *)
Definition sample_env (limit : Z) : ExecEnv := sample_env_with limit (fun _ => OK).

(** The third driver of every pipeline fails to prepare. *)
Definition sample_env_failing_driver : ExecEnv :=
  sample_env_with 0 (fun d => if Nat.eqb (drv_seq d) 2 then Err InternalError else OK).

(** A back end with no query, a driver budget of [max] and memory to
    spare. *)
Definition sample_world (max : nat) : World CountingLimiter := {|
  w_query_ctxs := ∅; w_limiter := {| max_num_drivers := max; num_total_drivers := 0 |};
  w_workgroups := ∅; w_rf_queries := []; w_stream_channels := [];
  w_scheduler := []; w_now := 1000; w_query_pool_consumption := 0; w_query_pool_limit := -1 |}.

(** The back end of [sample_world 6] once fragment 70 of query 7 has been
    prepared: four of its six driver slots are taken. *)
Definition sample_world_one_fragment : World CountingLimiter :=
  (prepare (sample_env 0) (sample_scan_request false true) (sample_world 6, new_executor)).2.1.

(** Fragment 70 of query 7 prepared on a budget of eight drivers. *)
Definition sample_run_A : StatusOr unit * (World CountingLimiter * FragmentExecutor) :=
  prepare (sample_env 0) (sample_scan_request false true) (sample_world 8, new_executor).

(** Fragment 71 of the same query: its four drivers do not fit in the two
    slots left. *)
Definition sample_run_71 : StatusOr unit * (World CountingLimiter * FragmentExecutor) :=
  prepare (sample_env 0) (sample_scan_request_for 71 false true)
    (sample_world_one_fragment, new_executor).

(** Fragment 70 prepared with a back end whose third driver fails. *)
Definition sample_run_failing : StatusOr unit * (World CountingLimiter * FragmentExecutor) :=
  prepare sample_env_failing_driver (sample_scan_request false true) (sample_world 8, new_executor).

(** A scan range of a stream load on channel [channel] of load [label]. *)
Definition sample_load_range (label : list Byte.byte) (channel : Z) : TScanRangeParams :=
  {| scan_range := {| internal_scan_range := None;
       broker_scan_range := Some {| channel_id := Some channel; load_label := label;
                                    load_txn_id := 1 |} |} |}.

(** Fragment 80 of query 8 loading through the first [n] of two scan
    nodes: node 10 reads channels 0 and 1 of load [01], node 20 channel 0
    of load [02]. *)
Definition sample_load_request_nodes (n : nat) : UnifiedExecPlanFragmentParams :=
  let ep := mk_exec_params 8 80 []
              (Some (take n [(10, [(0, [sample_load_range [Byte.x01] 0; sample_load_range [Byte.x01] 1])]);
                             (20, [(0, [sample_load_range [Byte.x02] 0])])])) in
  let h := mk_half ep empty_query_options empty_fragment None None in
  {| common := h; unique := h |}.

Definition sample_load_request : UnifiedExecPlanFragmentParams := sample_load_request_nodes 2.

(** Fragment [fid] of query 7, whose descriptor table is cached as [c] says. *)
Definition sample_desc_request (fid : Z) (c : option bool) : UnifiedExecPlanFragmentParams :=
  let h := {| params := mk_exec_params 7 fid [] None; coord := 0; fragment := empty_fragment;
              desc_tbl := {| is_cached := c |}; query_options := empty_query_options; workgroup := None;
              adaptive_dop_param := None; enable_shared_scan := Some true; func_version := None;
              pipeline_dop := None; pipeline_sink_dop := None; is_stream_pipeline := false;
              backend_num := 0 |} in
  {| common := h; unique := h |}.

(** An executor holding a fresh fragment context for fragment 80. *)
Definition sample_load_executor : FragmentExecutor :=
  {| fe_query_ctx := Some 8; fe_wg := None;
     fe_fragment_ctx := Some (new_fragment_context
       {| fi_query_id := 8; fi_fragment_instance_id := 80; fi_fe_addr := 0;
          fi_is_stream_pipeline := false; fi_enable_adaptive_dop := false;
          fi_adaptive_dop_param := None |}) |}.
End SampleEnv.

(** ** The frame of a prepare

    The steps of [prepare] after [_prepare_query_ctx] touch the query
    registry only through the executor's own query context and only in its
    settings and resources; they touch the limiter only through the token
    of the executor's fragment context.  [frame_eq] is the relation "nothing
    the cleanup restores has changed"; [keeps_frame m] says that [m] relates
    every state to its result. *)

Section Frame.
Context {L : Type} `{DriverLimiterLaws L}.
Context (env : ExecEnv).
Abbreviation St := (World L * FragmentExecutor)%type.
Abbreviation MS A := (St -> StatusOr A * St).

(** The fragment context as far as the limiter and [execute] see it. *)
Definition fc_view (s : St) : option (option nat * PipelineGraph) :=
  (fun fc => (fc_driver_token fc, fc_graph fc)) <$> fe_fragment_ctx s.2.

Definition frame_eq (s s' : St) : Prop :=
  w_query_ctxs s'.1 = w_query_ctxs s.1 /\ w_limiter s'.1 = w_limiter s.1 /\
  w_scheduler s'.1 = w_scheduler s.1 /\ fe_query_ctx s'.2 = fe_query_ctx s.2 /\
  fc_view s' = fc_view s.

Definition keeps_frame {A} (m : MS A) : Prop := forall s, frame_eq s (m s).2.

(** [m] keeps [P] whatever it returns. *)
Definition preserves (P : St -> Prop) {A} (m : MS A) : Prop := forall s, P s -> P (m s).2.

(** [m] keeps [P] when it fails. *)
Definition preserves_err (P : St -> Prop) {A} (m : MS A) : Prop :=
  forall s e s', P s -> m s = (Err e, s') -> P s'.

(** The invariant of a prepare of query [qid] started on world [w0]:
    [_prepare_query_ctx] has registered one live fragment more and
    nothing else the cleanup restores has changed, the limiter apart from
    the token the executor holds. *)
Record query_frame (w0 : World L) (qid : Z) (s : St) : Prop := {
  qf_query : fe_query_ctx s.2 = Some qid;
  qf_others : forall q, q <> qid -> w_query_ctxs s.1 !! q = w_query_ctxs w0 !! q;
  qf_self : exists q, w_query_ctxs s.1 !! qid = Some q /\
    qc_fragments q = default ∅ (qc_fragments <$> w_query_ctxs w0 !! qid) /\
    qc_num_active_fragments q =
      S (default 0%nat (qc_num_active_fragments <$> w_query_ctxs w0 !! qid));
  qf_limiter : dl_num_total_drivers (w_limiter s.1) =
               (dl_num_total_drivers (w_limiter w0) + token_of s)%nat;
  qf_scheduler : w_scheduler s.1 = w_scheduler w0 }.

(** The executor holds a fragment context whose token covers its graph. *)
Definition token_covers_graph (s : St) : Prop :=
  exists tk g, fc_view s = Some (tk, g) /\ tk = Some (total_dop g).

(** The executor holds the activated graph the builder produced for the
    request, under a token of its total dop. *)
Definition built_graph (r : UnifiedExecPlanFragmentParams) (s : St) : Prop :=
  exists mqfs p,
    let g := activate_pipelines mqfs
               (env_build_pipelines env p (_calc_dop env r) (_calc_sink_dop env r) (req_output_sink r)) in
    fc_view s = Some (Some (total_dop g), g).

(** What the query registry shows of the fragments: their contexts and
    live counts. *)
Definition qc_view (q : QueryContext) : gmap Z FragmentContext * nat :=
  (qc_fragments q, qc_num_active_fragments q).

Definition query_view (w : World L) : gmap Z (gmap Z FragmentContext * nat) :=
  qc_view <$> w_query_ctxs w.

(** Every registered query has a live fragment: a query context goes when
    its last fragment counts down. *)
Definition world_wf (w : World L) : Prop :=
  forall qid q, w_query_ctxs w !! qid = Some q -> qc_num_active_fragments q <> 0%nat.

Definition world_wfb (w : World L) : bool :=
  forallb (fun kq => negb (Nat.eqb (qc_num_active_fragments kq.2) 0)) (map_to_list (w_query_ctxs w)).

(** Every registered query counts exactly its registered fragments as
    live: [get_or_register] counts a fragment before it is registered, so
    the count is exact only between prepares, once a failed prepare has
    counted its fragment down. *)
Definition live_counts_exact (w : World L) : Prop :=
  forall qid q, w_query_ctxs w !! qid = Some q -> qc_num_active_fragments q = size (qc_fragments q).

Definition live_counts_exactb (w : World L) : bool :=
  forallb (fun kq => Nat.eqb (qc_num_active_fragments kq.2) (size (qc_fragments kq.2)))
          (map_to_list (w_query_ctxs w)).

(** Every registered fragment context is filed under its own instance id,
    in the registry of its own query. *)
Definition registry_typed (w : World L) : Prop :=
  forall qid q fid fc, w_query_ctxs w !! qid = Some q -> qc_fragments q !! fid = Some fc ->
    fi_query_id (fc_ident fc) = qid /\ fc_fragment_instance_id fc = fid.

Definition registry_typedb (w : World L) : bool :=
  forallb (fun '(qid, q) =>
             forallb (fun '(fid, fc) => bool_decide (fi_query_id (fc_ident fc) = qid) &&
                                        bool_decide (fc_fragment_instance_id fc = fid))
                     (map_to_list (qc_fragments q)))
          (map_to_list (w_query_ctxs w)).
End Frame.

Section FrameLemmas.
Context {L : Type} `{DriverLimiterLaws L}.
Context (env : ExecEnv).
Abbreviation St := (World L * FragmentExecutor)%type.
Abbreviation MS A := (St -> StatusOr A * St).
Implicit Types (s : St) (P : St -> Prop).

Lemma frame_eq_refl s : frame_eq s s.
Proof. unfold frame_eq. auto. Qed.

Lemma frame_eq_trans s1 s2 s3 : frame_eq s1 s2 -> frame_eq s2 s3 -> frame_eq s1 s3.
Proof. unfold frame_eq. intuition congruence. Qed.

Lemma mbind_Ok_inv {A B} (m : MS A) (f : A -> MS B) s b s'' :
  mbind m f s = (Ok b, s'') -> exists a s', m s = (Ok a, s') /\ f a s' = (Ok b, s'').
Proof. unfold mbind. destruct (m s) as [[a|e] s']; [eauto | discriminate]. Qed.

Lemma mbind_Err_inv {A B} (m : MS A) (f : A -> MS B) s e s'' :
  mbind m f s = (Err e, s'') ->
  m s = (Err e, s'') \/ exists a s', m s = (Ok a, s') /\ f a s' = (Err e, s'').
Proof. unfold mbind. destruct (m s) as [[a|e'] s']; [eauto | intros [= -> ->]; auto]. Qed.

Lemma keeps_frame_bind {A B} (m : MS A) (f : A -> MS B) :
  keeps_frame m -> (forall a, keeps_frame (f a)) -> keeps_frame (mbind m f).
Proof.
  intros Hm Hf s. specialize (Hm s). unfold mbind.
  destruct (m s) as [[a|e] s']; cbn in *; [|done].
  exact (frame_eq_trans _ _ _ Hm (Hf a s')).
Qed.

Lemma preserves_bind P {A B} (m : MS A) (f : A -> MS B) :
  preserves P m -> (forall a, preserves P (f a)) -> preserves P (mbind m f).
Proof.
  intros Hm Hf s Hs. specialize (Hm s Hs). unfold mbind.
  destruct (m s) as [[a|e] s']; cbn in *; [exact (Hf a s' Hm) | done].
Qed.

Lemma preserves_err_bind P {A B} (m : MS A) (f : A -> MS B) :
  preserves P m -> (forall a, preserves_err P (f a)) -> preserves_err P (mbind m f).
Proof.
  intros Hm Hf s e s'' Hs. specialize (Hm s Hs). unfold mbind.
  destruct (m s) as [[a|e'] s'] eqn:E; cbn in *; [exact (Hf a s' e s'' Hm) | congruence].
Qed.

Lemma preserves_preserves_err P {A} (m : MS A) : preserves P m -> preserves_err P m.
Proof. intros Hm s e s' Hs Heq. specialize (Hm s Hs). by rewrite Heq in Hm. Qed.

Lemma keeps_frame_preserves P {A} (m : MS A) :
  (forall s s', frame_eq s s' -> P s -> P s') -> keeps_frame m -> preserves P m.
Proof. intros HP Hm s Hs. exact (HP _ _ (Hm s) Hs). Qed.

(** The steps that leave the frame alone. *)

Lemma keeps_frame_mret {A} (a : A) : keeps_frame (L:=L) (mret a).
Proof. intros s. apply frame_eq_refl. Qed.

Lemma keeps_frame_mlift {A} (r : StatusOr A) : keeps_frame (L:=L) (mlift r).
Proof. intros s. apply frame_eq_refl. Qed.

Lemma keeps_frame_mget : keeps_frame (L:=L) mget.
Proof. intros s. apply frame_eq_refl. Qed.

Lemma keeps_frame_get_query_ctx : keeps_frame (L:=L) get_query_ctx.
Proof.
  intros s. unfold get_query_ctx.
  destruct (fe_query_ctx s.2); [destruct (_ !! _)|]; apply frame_eq_refl.
Qed.

Lemma keeps_frame_get_fragment_ctx : keeps_frame (L:=L) get_fragment_ctx.
Proof. intros s. unfold get_fragment_ctx. destruct (fe_fragment_ctx s.2); apply frame_eq_refl. Qed.

Lemma keeps_frame_add_workgroup wg : keeps_frame (L:=L) (add_workgroup wg).
Proof.
  intros s. unfold add_workgroup. destruct (_ !! _); [apply frame_eq_refl|].
  repeat split.
Qed.

Lemma keeps_frame_open_query qid : keeps_frame (L:=L) (open_query qid).
Proof.
  intros s. unfold open_query, mmodify. case_bool_decide; [apply frame_eq_refl|].
  repeat split.
Qed.

Lemma keeps_frame_put_channel_context label ch : keeps_frame (L:=L) (put_channel_context label ch).
Proof.
  intros s. unfold put_channel_context. case_bool_decide; [apply frame_eq_refl|].
  repeat split.
Qed.

Lemma keeps_frame_modify_fragment_ctx f :
  (forall fc, fc_driver_token (f fc) = fc_driver_token fc /\ fc_graph (f fc) = fc_graph fc) ->
  keeps_frame (L:=L) (modify_fragment_ctx f).
Proof.
  intros Hf s. unfold frame_eq, fc_view, modify_fragment_ctx. cbn. split_and!; try done.
  destruct (fe_fragment_ctx s.2) as [fc|]; [|done]. cbn. by destruct (Hf fc) as [-> ->].
Qed.
End FrameLemmas.

#[export] Hint Resolve keeps_frame_mret keeps_frame_mlift keeps_frame_mget
  keeps_frame_get_query_ctx keeps_frame_get_fragment_ctx keeps_frame_add_workgroup
  keeps_frame_open_query keeps_frame_put_channel_context : fe.

Ltac keeps_solve :=
  repeat match goal with
  | |- keeps_frame (mbind _ _) => apply keeps_frame_bind; [|intros ?]
  | |- keeps_frame (match ?x with _ => _ end) => destruct x
  | |- keeps_frame (modify_fragment_ctx _) =>
      apply keeps_frame_modify_fragment_ctx; intros []; split; reflexivity
  | |- keeps_frame _ => solve [eauto with fe]
  end.

Section QueryFrame.
Context {L : Type} `{DriverLimiterLaws L}.
Context (env : ExecEnv) (w0 : World L) (qid : Z).
Abbreviation St := (World L * FragmentExecutor)%type.
Abbreviation MS A := (St -> StatusOr A * St).
Abbreviation R := (query_frame w0 qid).
Implicit Types (s : St).

Lemma token_of_fc_view s :
  token_of s = match fc_view s with Some (tk, _) => default 0%nat tk | None => 0%nat end.
Proof. unfold token_of, fc_view. by destruct (fe_fragment_ctx s.2). Qed.

Lemma query_frame_frame_eq s s' : frame_eq s s' -> R s -> R s'.
Proof.
  intros (Hq & Hl & Hsch & Hqc & Hv) [Hq0 Ho Hself Hlim Hsch0].
  rewrite !token_of_fc_view, <- Hv in *.
  split; rewrite ?Hq, ?Hl, ?Hsch, ?Hqc, ?token_of_fc_view; auto.
Qed.

Lemma token_covers_graph_frame_eq s s' :
  frame_eq s s' -> token_covers_graph s -> token_covers_graph s'.
Proof. intros (_ & _ & _ & _ & Hv). unfold token_covers_graph. by rewrite Hv. Qed.

Lemma built_graph_frame_eq r s s' : frame_eq s s' -> built_graph env r s -> built_graph env r s'.
Proof. intros (_ & _ & _ & _ & Hv). unfold built_graph. by rewrite Hv. Qed.

Lemma keeps_frame_preserves_query_frame {A} (m : MS A) : keeps_frame m -> preserves R m.
Proof. apply keeps_frame_preserves, query_frame_frame_eq. Qed.

Lemma preserves_modify_query_ctx f :
  (forall q, qc_fragments (f q) = qc_fragments q /\
             qc_num_active_fragments (f q) = qc_num_active_fragments q) ->
  preserves R (modify_query_ctx f).
Proof.
  intros Hf s [Hq Ho (q & Hl & Hfr & Hn) Hlim Hsch]. unfold modify_query_ctx.
  rewrite Hq. split; cbn; auto.
  - intros q' Hne. rewrite lookup_alter_ne; auto.
  - exists (f q). rewrite lookup_alter, Hl, decide_True by done.
    destruct (Hf q) as [-> ->]. by split_and!.
Qed.

Lemma preserves_modify_resources f : preserves R (modify_resources f).
Proof. apply preserves_modify_query_ctx. auto. Qed.

Lemma preserves_modify_fragment_ctx f :
  (forall fc, fc_driver_token (f fc) = fc_driver_token fc) -> preserves R (modify_fragment_ctx f).
Proof.
  intros Hf s [Hq Ho Hself Hlim Hsch].
  assert (token_of (modify_fragment_ctx f s).2 = token_of s) as Ht.
  { unfold token_of, modify_fragment_ctx. cbn.
    destruct (fe_fragment_ctx s.2); cbn; rewrite ?Hf; done. }
  split; rewrite ?Ht; auto.
Qed.

Lemma preserves_acquire_driver_token n : preserves R (acquire_driver_token n).
Proof.
  intros s [Hq Ho Hself Hlim Hsch]. unfold acquire_driver_token.
  destruct (fe_fragment_ctx s.2) as [fc|] eqn:Hfc; [|by split].
  destruct (dl_try_acquire n _) as [l|e] eqn:Ha; [|by split].
  destruct (dl_acquire_ok _ _ _ Ha) as [Hn _].
  split; cbn; auto.
  destruct (dl_release_spec (token_of s) l) as [-> _]. lia.
Qed.

Lemma preserves_prepare_fragment_ctx r : preserves R (_prepare_fragment_ctx r).
Proof.
  intros s [Hq Ho Hself Hlim Hsch]. unfold _prepare_fragment_ctx, mmodify, token_of in *.
  cbn. destruct (fe_fragment_ctx s.2) as [old|]; [|by split].
  unfold release_token. destruct (fc_driver_token old) as [n|]; cbn in *; [|by split].
  split; cbn; auto. destruct (dl_release_spec n (w_limiter s.1)) as [-> _]. lia.
Qed.

Lemma preserves_err_modify_query_ctx P f : preserves_err P (modify_query_ctx (L:=L) f).
Proof. intros s e s'. unfold modify_query_ctx. by destruct (fe_query_ctx s.2). Qed.
End QueryFrame.

Ltac frame_solve :=
  repeat match goal with
  | |- preserves _ (mbind _ _) => apply preserves_bind; [|intros ?]
  | |- preserves _ (match ?x with _ => _ end) => destruct x
  | |- preserves _ (modify_query_ctx _) =>
      apply preserves_modify_query_ctx; intros []; split; reflexivity
  | |- preserves _ (modify_resources _) => apply preserves_modify_resources
  | |- preserves _ (acquire_driver_token _) => apply preserves_acquire_driver_token
  | |- preserves _ (modify_fragment_ctx _) =>
      first [ apply keeps_frame_preserves_query_frame;
              apply keeps_frame_modify_fragment_ctx; intros []; split; reflexivity
            | apply preserves_modify_fragment_ctx; intros []; reflexivity ]
  | |- preserves _ _ =>
      apply keeps_frame_preserves_query_frame;
      solve [ eauto with fe | intros ?; repeat split ]
  end.

Section PrepareSteps.
Context {L : Type} `{DriverLimiterLaws L}.
Context (env : ExecEnv).
Abbreviation St := (World L * FragmentExecutor)%type.
Implicit Types (s : St).

Lemma keeps_frame_prepare_global_dict r : keeps_frame (L:=L) (_prepare_global_dict env r).
Proof. unfold _prepare_global_dict. keeps_solve. Qed.

Lemma keeps_frame_stream_load_ranges acc l :
  keeps_frame (L:=L) (stream_load_ranges env acc l).
Proof.
  revert acc. induction l as [|sr l IH]; intros acc; cbn; [auto with fe|].
  unfold stream_load_range. keeps_solve.
Qed.

Lemma keeps_frame_stream_load_seqs acc m :
  keeps_frame (L:=L) (stream_load_seqs env acc m).
Proof.
  revert acc. induction m as [|[k l] m IH]; intros acc; cbn; [auto with fe|].
  apply keeps_frame_bind; [apply keeps_frame_stream_load_ranges | auto].
Qed.

Lemma keeps_frame_prepare_stream_load_pipe r :
  keeps_frame (L:=L) (_prepare_stream_load_pipe env r).
Proof.
  unfold _prepare_stream_load_pipe.
  repeat (case_match; keeps_solve); apply keeps_frame_stream_load_seqs.
Qed.

Section Steps.
Context (w0 : World L) (qid : Z).
Abbreviation R := (query_frame w0 qid).

Lemma preserves_prepare_workgroup r : preserves R (_prepare_workgroup env r).
Proof. unfold _prepare_workgroup, init_query_once. frame_solve. Qed.

Lemma preserves_prepare_runtime_state r : preserves R (_prepare_runtime_state env r).
Proof. unfold _prepare_runtime_state, init_mem_tracker, setup_desc_tbl. frame_solve. Qed.

Lemma preserves_prepare_exec_plan r : preserves R (_prepare_exec_plan env r).
Proof. unfold _prepare_exec_plan. frame_solve. Qed.

Lemma preserves_prepare_pipeline_driver r : preserves R (_prepare_pipeline_driver env r).
Proof. unfold _prepare_pipeline_driver. frame_solve. Qed.
End Steps.
End PrepareSteps.

(** ** The identity of the executor's contexts

    After [_prepare_fragment_ctx], no step of [prepare] changes which query
    the executor points to or the identity of its fragment context. *)

Section Identity.
Context {L : Type} `{DriverLimiterLaws L}.
Context (env : ExecEnv).
Abbreviation St := (World L * FragmentExecutor)%type.
Abbreviation MS A := (St -> StatusOr A * St).
Implicit Types (s : St).

Definition ident_view (s : St) : option Z * option FragmentIdent :=
  (fe_query_ctx s.2, fc_ident <$> fe_fragment_ctx s.2).

Definition keeps_ident {A} (m : MS A) : Prop := forall s, ident_view (m s).2 = ident_view s.

Lemma keeps_ident_bind {A B} (m : MS A) (f : A -> MS B) :
  keeps_ident m -> (forall a, keeps_ident (f a)) -> keeps_ident (mbind m f).
Proof.
  intros Hm Hf s. specialize (Hm s). unfold mbind.
  destruct (m s) as [[a|e] s']; cbn in *; [by rewrite Hf | done].
Qed.

Lemma keeps_ident_get_query_ctx : keeps_ident get_query_ctx.
Proof. intros s. unfold get_query_ctx. by repeat case_match. Qed.

Lemma keeps_ident_get_fragment_ctx : keeps_ident get_fragment_ctx.
Proof. intros s. unfold get_fragment_ctx. by case_match. Qed.

Lemma keeps_ident_modify_query_ctx f : keeps_ident (modify_query_ctx f).
Proof. intros s. unfold modify_query_ctx. by case_match. Qed.

Lemma keeps_ident_add_workgroup wg : keeps_ident (add_workgroup wg).
Proof. intros s. unfold add_workgroup. by case_match. Qed.

Lemma keeps_ident_open_query qid : keeps_ident (open_query qid).
Proof. intros s. unfold open_query, mmodify. by case_bool_decide. Qed.

Lemma keeps_ident_put_channel_context label ch : keeps_ident (put_channel_context label ch).
Proof. intros s. unfold put_channel_context. by case_bool_decide. Qed.

Lemma keeps_ident_acquire_driver_token n : keeps_ident (acquire_driver_token n).
Proof.
  intros s. unfold acquire_driver_token, ident_view.
  destruct (fe_fragment_ctx s.2) eqn:E; [destruct (dl_try_acquire _ _)|]; cbn; by rewrite ?E.
Qed.

Lemma keeps_ident_modify_fragment_ctx f :
  (forall fc, fc_ident (f fc) = fc_ident fc) -> keeps_ident (modify_fragment_ctx f).
Proof.
  intros Hf s. unfold ident_view, modify_fragment_ctx. cbn.
  destruct (fe_fragment_ctx s.2); cbn; by rewrite ?Hf.
Qed.
End Identity.

#[export] Hint Resolve keeps_ident_get_query_ctx keeps_ident_get_fragment_ctx
  keeps_ident_add_workgroup keeps_ident_open_query keeps_ident_put_channel_context
  keeps_ident_acquire_driver_token : fe.

Ltac ident_solve :=
  repeat match goal with
  | |- keeps_ident (mbind _ _) => apply keeps_ident_bind; [|intros ?]
  | |- keeps_ident (match ?x with _ => _ end) => destruct x
  | |- keeps_ident (modify_query_ctx _) => apply keeps_ident_modify_query_ctx
  | |- keeps_ident (modify_resources _) => apply keeps_ident_modify_query_ctx
  | |- keeps_ident (modify_fragment_ctx _) =>
      apply keeps_ident_modify_fragment_ctx; intros []; reflexivity
  | |- keeps_ident _ => solve [ eauto with fe | intros ?; reflexivity ]
  end.

Section IdentitySteps.
Context {L : Type} `{DriverLimiterLaws L}.
Context (env : ExecEnv).

Lemma prepare_fragment_ctx_ident r (s : World L * FragmentExecutor) :
  ident_view (_prepare_fragment_ctx r s).2 = (fe_query_ctx s.2, Some (fragment_ident r)).
Proof. unfold _prepare_fragment_ctx, mmodify. by case_match. Qed.

Lemma keeps_ident_prepare_workgroup r : keeps_ident (L:=L) (_prepare_workgroup env r).
Proof. unfold _prepare_workgroup, init_query_once. ident_solve. Qed.

Lemma keeps_ident_prepare_runtime_state r : keeps_ident (L:=L) (_prepare_runtime_state env r).
Proof. unfold _prepare_runtime_state, init_mem_tracker, setup_desc_tbl. ident_solve. Qed.

Lemma keeps_ident_prepare_global_dict r : keeps_ident (L:=L) (_prepare_global_dict env r).
Proof. unfold _prepare_global_dict. ident_solve. Qed.

Lemma keeps_ident_prepare_exec_plan r : keeps_ident (L:=L) (_prepare_exec_plan env r).
Proof. unfold _prepare_exec_plan. ident_solve. Qed.

Lemma keeps_ident_prepare_pipeline_driver r : keeps_ident (L:=L) (_prepare_pipeline_driver env r).
Proof. unfold _prepare_pipeline_driver. ident_solve. Qed.

Lemma keeps_ident_prepare_stream_load_pipe r : keeps_ident (L:=L) (_prepare_stream_load_pipe env r).
Proof.
  assert (Hr : forall acc l, keeps_ident (L:=L) (stream_load_ranges env acc l)).
  { intros acc l. revert acc. induction l as [|sr l IH]; intros acc; cbn; [intros ?; done|].
    unfold stream_load_range. ident_solve. }
  assert (Hs : forall acc m, keeps_ident (L:=L) (stream_load_seqs env acc m)).
  { intros acc m. revert acc. induction m as [|[k l] m IH]; intros acc; cbn; [intros ?; done|].
    apply keeps_ident_bind; auto. }
  unfold _prepare_stream_load_pipe. repeat (case_match; ident_solve); auto.
Qed.
End IdentitySteps.

(** ** The failure path of [prepare] *)

(** Counting the fragment down again restores the registry the frame
    started from. *)
Lemma count_down_restores (m m0 : QueryContextMgr) qid q :
  (forall q', q' <> qid -> m !! q' = m0 !! q') ->
  m !! qid = Some q ->
  qc_fragments q = default ∅ (qc_fragments <$> m0 !! qid) ->
  qc_num_active_fragments q = S (default 0%nat (qc_num_active_fragments <$> m0 !! qid)) ->
  (forall q0, m0 !! qid = Some q0 -> qc_num_active_fragments q0 <> 0%nat) ->
  qc_view <$> count_down_fragments qid m = qc_view <$> m0.
Proof.
  intros Ho Hl Hfr Hn Hwf. apply map_eq. intros k. rewrite !lookup_fmap.
  unfold count_down_fragments. rewrite Hl, Hn.
  destruct (m0 !! qid) as [q0|] eqn:H0; cbn in Hfr, Hn |- *.
  - destruct (qc_num_active_fragments q0) as [|n] eqn:Hc0; [by destruct (Hwf q0)|].
    destruct (decide (k = qid)) as [->|Hne].
    + rewrite lookup_insert_eq, H0. unfold qc_view. cbn. by rewrite Hfr, Hc0.
    + rewrite lookup_insert_ne, Ho by congruence. done.
  - destruct (decide (k = qid)) as [->|Hne].
    + by rewrite lookup_delete_eq, H0.
    + rewrite lookup_delete_ne, Ho by congruence. done.
Qed.

Section Failure.
Context {L : Type} `{DriverLimiterLaws L}.
Context (env : ExecEnv).
Abbreviation St := (World L * FragmentExecutor)%type.
Implicit Types (s : St).

Lemma preserves_err_register_fragment P r :
  preserves P (get_fragment_ctx (L:=L)) -> preserves P (get_query_ctx (L:=L)) ->
  preserves_err P (register_fragment (L:=L) r).
Proof.
  intros Hf Hq. unfold register_fragment.
  apply preserves_err_bind; [done|]. intros fc.
  apply preserves_err_bind; [done|]. intros q.
  apply preserves_err_bind; [by intros s Hs|]. intros q'.
  apply preserves_err_modify_query_ctx.
Qed.

Lemma preserves_err_prepare_fragment_steps w0 qid r :
  preserves_err (query_frame w0 qid) (prepare_fragment_steps env r).
Proof.
  unfold prepare_fragment_steps.
  repeat (apply preserves_err_bind; [|intros _]).
  - apply preserves_prepare_fragment_ctx.
  - apply preserves_prepare_workgroup.
  - apply preserves_prepare_runtime_state.
  - apply keeps_frame_preserves_query_frame, keeps_frame_prepare_global_dict.
  - apply preserves_prepare_exec_plan.
  - apply preserves_prepare_pipeline_driver.
  - apply keeps_frame_preserves_query_frame, keeps_frame_prepare_stream_load_pipe.
  - apply preserves_err_register_fragment; apply keeps_frame_preserves_query_frame; auto with fe.
Qed.

(** [_prepare_query_ctx] starts the frame. *)
Lemma prepare_query_ctx_frame r s s' :
  fe_fragment_ctx s.2 = None -> _prepare_query_ctx r s = (Ok tt, s') ->
  query_frame s.1 (req_query_id r) s'.
Proof.
  intros Hfc. unfold _prepare_query_ctx.
  case_match; [discriminate|].
  destruct (get_or_register _ _) as [q m] eqn:Hg. intros [= <-].
  pose proof (get_or_register_lookup (req_query_id r) (w_query_ctxs s.1)) as Hl.
  rewrite Hg in Hl. cbn in Hl.
  split; cbn; auto.
  - intros q' Hne. rewrite lookup_insert_ne by congruence.
    rewrite <- (get_or_register_other (req_query_id r) q' (w_query_ctxs s.1)), Hg by done.
    done.
  - eexists. rewrite lookup_insert_eq. split; [done|]. cbn.
    unfold get_or_register in Hg. injection Hg as <- _. cbn.
    destruct (w_query_ctxs s.1 !! req_query_id r); done.
  - unfold token_of. cbn. rewrite Hfc. lia.
Qed.

Lemma prepare_steps_err r w e s' :
  prepare_steps env r (w, new_executor) = (Err e, s') ->
  s' = (w, new_executor) \/ query_frame w (req_query_id r) s'.
Proof.
  unfold prepare_steps. intros Hs.
  destruct (mbind_Err_inv _ _ _ _ _ Hs) as [Hc|(a & s0 & Hc & Hs0)].
  { left. unfold check_mem_limit in Hc. case_match; congruence. }
  assert (s0 = (w, new_executor)) as ->.
  { unfold check_mem_limit in Hc. case_match; congruence. }
  destruct (mbind_Err_inv _ _ _ _ _ Hs0) as [Hq|([] & s1 & Hq & Hs1)].
  - left. unfold _prepare_query_ctx in Hq.
    case_match; [congruence|]. by destruct (get_or_register _ _).
  - right. eapply (preserves_err_prepare_fragment_steps w (req_query_id r) r); [|exact Hs1].
    by apply (prepare_query_ctx_frame r (w, new_executor)).
Qed.

(** [_fail_cleanup(false)] from the frame gives back what the prepare
    took. *)
Lemma fail_cleanup_restores w0 qid s :
  world_wf w0 -> query_frame w0 qid s ->
  query_view (_fail_cleanup false s).1 = query_view w0 /\
  dl_num_total_drivers (w_limiter (_fail_cleanup false s).1) = dl_num_total_drivers (w_limiter w0) /\
  w_scheduler (_fail_cleanup false s).1 = w_scheduler w0 /\
  fe_fragment_ctx (_fail_cleanup false s).2 = None.
Proof.
  intros Hwf [Hq Ho (q & Hl & Hfr & Hn) Hlim Hsch].
  unfold _fail_cleanup, query_view. rewrite Hq.
  assert (qc_view <$> count_down_fragments qid (w_query_ctxs s.1) = qc_view <$> w_query_ctxs w0)
    as Hv by (eapply count_down_restores; eauto).
  unfold token_of in Hlim.
  destruct (fe_fragment_ctx s.2) as [fc|]; cbn; [|rewrite Hv; split_and!; auto; lia].
  unfold release_token. destruct (fc_driver_token fc) as [n|]; cbn in *;
    rewrite Hv; split_and!; auto; [|lia].
  destruct (dl_release_spec n (w_limiter s.1)) as [-> _]. lia.
Qed.
End Failure.

(** ** The success path of [prepare] *)

Section Success.
Context {L : Type} `{DriverLimiterLaws L}.
Context (env : ExecEnv).
Abbreviation St := (World L * FragmentExecutor)%type.
Abbreviation MS A := (St -> StatusOr A * St).
Implicit Types (s : St).

Lemma preserves_Ok P {A} (m : MS A) s a s' : preserves P m -> P s -> m s = (Ok a, s') -> P s'.
Proof. intros Hm Hs Heq. specialize (Hm s Hs). by rewrite Heq in Hm. Qed.

Lemma acquire_driver_token_Ok n s s' :
  acquire_driver_token n s = (Ok tt, s') ->
  exists fc, fe_fragment_ctx s.2 = Some fc /\ fc_view s' = Some (Some n, fc_graph fc).
Proof.
  unfold acquire_driver_token. destruct (fe_fragment_ctx s.2) as [fc|]; [|discriminate].
  destruct (dl_try_acquire _ _); [|discriminate]. intros [= <-]. eauto.
Qed.

(** A successful [_prepare_pipeline_driver] leaves a token of the
    activated graph's total degree of parallelism. *)
Lemma prepare_pipeline_driver_built r s s' :
  _prepare_pipeline_driver env r s = (Ok tt, s') -> built_graph env r s'.
Proof.
  unfold _prepare_pipeline_driver. intros Hs.
  destruct (mbind_Ok_inv _ _ _ _ _ Hs) as (fc & s1 & _ & Hs1). clear Hs.
  destruct (eps_plan (fc_exec fc)) as [p|]; [|discriminate].
  destruct (mbind_Ok_inv _ _ _ _ _ Hs1) as (? & s2 & _ & Hs2).
  destruct (mbind_Ok_inv _ _ _ _ _ Hs2) as (? & s3 & _ & Hs3).
  destruct (mbind_Ok_inv _ _ _ _ _ Hs3) as (? & s4 & _ & Hs4).
  destruct (mbind_Ok_inv _ _ _ _ _ Hs4) as (? & s5 & Hm & Hs5).
  destruct (acquire_driver_token_Ok _ _ _ Hs5) as (fc5 & Hfc5 & Hv).
  unfold modify_fragment_ctx in Hm. injection Hm as _ <-. cbn in Hfc5.
  destruct (fe_fragment_ctx s4.2); [|discriminate]. injection Hfc5 as <-.
  exists (eps_morsel_queue_factories (fc_exec fc)), p. exact Hv.
Qed.

Lemma built_graph_token r s : built_graph env r s -> token_covers_graph s.
Proof. intros (mqfs & p & Hv). eexists _, _. split; [exact Hv | reflexivity]. Qed.

Lemma register_fragment_Ok w0 r s s' :
  query_frame w0 (req_query_id r) s -> register_fragment r s = (Ok tt, s') ->
  let qid := req_query_id r in
  let fid := req_fragment_instance_id r in
  exists q fc,
    fe_fragment_ctx s.2 = Some fc /\ s'.2 = s.2 /\
    w_query_ctxs s'.1 !! qid = Some q /\
    (forall q', q' <> qid -> w_query_ctxs s'.1 !! q' = w_query_ctxs w0 !! q') /\
    w_limiter s'.1 = w_limiter s.1 /\ w_scheduler s'.1 = w_scheduler s.1 /\
    qc_prepared q = true /\
    default ∅ (qc_fragments <$> w_query_ctxs w0 !! qid) !! fid = None /\
    qc_fragments q = <[fid := fc]> (default ∅ (qc_fragments <$> w_query_ctxs w0 !! qid)) /\
    qc_num_active_fragments q = S (default 0%nat (qc_num_active_fragments <$> w_query_ctxs w0 !! qid)).
Proof.
  intros [Hq Ho (q0 & Hl & Hfr & Hn) _ _] Hs. unfold register_fragment in Hs.
  destruct (mbind_Ok_inv _ _ _ _ _ Hs) as (fc & s1 & Hs1 & Hs'). clear Hs.
  unfold get_fragment_ctx in Hs1.
  destruct (fe_fragment_ctx s.2) as [fc'|] eqn:Hfc; [injection Hs1 as -> <-|discriminate].
  destruct (mbind_Ok_inv _ _ _ _ _ Hs') as (q & s2 & Hs2 & Hs''). clear Hs'.
  unfold get_query_ctx in Hs2. rewrite Hq, Hl in Hs2. injection Hs2 as -> <-.
  destruct (mbind_Ok_inv _ _ _ _ _ Hs'') as (q' & s3 & Hs3 & Hs4). clear Hs''.
  unfold mlift in Hs3. injection Hs3 as Hreg <-.
  destruct (register_ctx_Ok _ _ _ _ Hreg) as [Hnone Hins].
  unfold modify_query_ctx in Hs4. rewrite Hq in Hs4. injection Hs4 as <-.
  exists (qc_mark_prepared q'), fc. cbn. rewrite <- Hfr.
  split_and!; auto.
  - by rewrite lookup_alter, Hl, decide_True.
  - intros q'' Hne. rewrite lookup_alter_ne by congruence. auto.
  - unfold register_ctx in Hreg. case_match; [discriminate|].
    injection Hreg as <-. exact Hn.
Qed.

Lemma preserves_bind_Ok P {A B} (m : MS A) (f : A -> MS B) s b s'' :
  preserves P m -> P s -> mbind m f s = (Ok b, s'') ->
  exists a s', P s' /\ f a s' = (Ok b, s'').
Proof.
  intros Hm Hs Hrun. destruct (mbind_Ok_inv _ _ _ _ _ Hrun) as (a & s' & H1 & H2).
  exists a, s'. split; [exact (preserves_Ok _ _ _ _ _ Hm Hs H1) | exact H2].
Qed.

Lemma preserves_ident P {A} (m : MS A) v :
  preserves P m -> keeps_ident m -> preserves (fun s => P s /\ ident_view s = v) m.
Proof. intros Hm Hk s [Hs Hv]. split; [exact (Hm s Hs) | by rewrite Hk]. Qed.

Lemma prepare_fragment_steps_Ok w0 r s s' :
  query_frame w0 (req_query_id r) s -> prepare_fragment_steps env r s = (Ok tt, s') ->
  exists s6, query_frame w0 (req_query_id r) s6 /\ token_covers_graph s6 /\
             register_fragment r s6 = (Ok tt, s') /\
             fc_ident <$> fe_fragment_ctx s6.2 = Some (fragment_ident r) /\
             built_graph env r s6.
Proof.
  intros Hs Hrun. unfold prepare_fragment_steps in Hrun.
  destruct (mbind_Ok_inv _ _ _ _ _ Hrun) as ([] & s1 & Hrun0 & Hrun1).
  pose proof (preserves_Ok _ _ _ _ _ (preserves_prepare_fragment_ctx _ _ r) Hs Hrun0) as Hq1.
  assert (Hid1 : ident_view s1 = (fe_query_ctx s.2, Some (fragment_ident r))).
  { rewrite <- prepare_fragment_ctx_ident. by rewrite Hrun0. }
  set (v := (fe_query_ctx s.2, Some (fragment_ident r))) in *.
  assert (Hs1 : query_frame w0 (req_query_id r) s1 /\ ident_view s1 = v) by done.
  destruct (preserves_bind_Ok _ _ _ _ _ _ (preserves_ident _ _ v (preserves_prepare_workgroup env _ _ r)
    (keeps_ident_prepare_workgroup env r)) Hs1 Hrun1) as (_ & s2 & Hs2 & Hrun2).
  destruct (preserves_bind_Ok _ _ _ _ _ _ (preserves_ident _ _ v (preserves_prepare_runtime_state env _ _ r)
    (keeps_ident_prepare_runtime_state env r)) Hs2 Hrun2) as (_ & s3 & Hs3 & Hrun3).
  destruct (preserves_bind_Ok _ _ _ _ _ _ (preserves_ident _ _ v (keeps_frame_preserves_query_frame _ _ _
    (keeps_frame_prepare_global_dict env r)) (keeps_ident_prepare_global_dict env r)) Hs3 Hrun3)
    as (_ & s4 & Hs4 & Hrun4).
  destruct (preserves_bind_Ok _ _ _ _ _ _ (preserves_ident _ _ v (preserves_prepare_exec_plan env _ _ r)
    (keeps_ident_prepare_exec_plan env r)) Hs4 Hrun4) as (_ & s5 & Hs5 & Hrun5).
  destruct (mbind_Ok_inv _ _ _ _ _ Hrun5) as ([] & s6 & Hpd & Hrun6).
  pose proof (preserves_Ok _ _ _ _ _ (preserves_ident _ _ v (preserves_prepare_pipeline_driver env _ _ r)
    (keeps_ident_prepare_pipeline_driver env r)) Hs5 Hpd) as [Hs6 Hid6].
  pose proof (prepare_pipeline_driver_built _ _ _ Hpd) as Hb6.
  destruct (mbind_Ok_inv _ _ _ _ _ Hrun6) as ([] & s7 & Hsl & Hreg).
  pose proof (keeps_frame_prepare_stream_load_pipe env r s6) as Hfr. rewrite Hsl in Hfr.
  pose proof (keeps_ident_prepare_stream_load_pipe env r s6) as Hid7. rewrite Hsl in Hid7.
  pose proof (built_graph_frame_eq _ _ _ _ Hfr Hb6) as Hb7.
  exists s7. split_and!; [exact (query_frame_frame_eq _ _ _ _ Hfr Hs6)
                         | exact (built_graph_token _ _ Hb7) | exact Hreg | | exact Hb7].
  unfold ident_view in Hid6, Hid7. subst v. injection Hid6 as _ H6. injection Hid7 as _ H7. by rewrite H7.
Qed.
End Success.

(** ** Theorems of [prepare] *)

Section PrepareCases.
Context {L : Type} `{DriverLimiterLaws L}.
Context (env : ExecEnv).

(** A failed [prepare] either changed nothing or cleaned up a frame. *)
Lemma prepare_Err_cases r (w : World L) e s' :
  prepare env r (w, new_executor) = (Err e, s') ->
  s' = (w, new_executor) \/
  exists s1, query_frame w (req_query_id r) s1 /\ s' = _fail_cleanup false s1.
Proof.
  unfold prepare. destruct (prepare_steps env r _) as [[[]|e'] s1] eqn:E; [discriminate|].
  intros [= _ <-].
  destruct (prepare_steps_err _ _ _ _ _ E) as [->|Hf]; [by left|]. right. eauto.
Qed.

(** A successful [prepare] registered a frame whose token covers its graph. *)
Lemma prepare_Ok_cases r (w : World L) s' :
  prepare env r (w, new_executor) = (Ok tt, s') ->
  exists s6, query_frame w (req_query_id r) s6 /\ token_covers_graph s6 /\
             register_fragment r s6 = (Ok tt, s') /\
             fc_ident <$> fe_fragment_ctx s6.2 = Some (fragment_ident r) /\
             built_graph env r s6.
Proof.
  unfold prepare. destruct (prepare_steps env r _) as [[[]|e'] s1] eqn:E; [|discriminate].
  intros [= <-]. unfold prepare_steps in E.
  destruct (mbind_Ok_inv _ _ _ _ _ E) as ([] & s0 & Hc & E1).
  assert (s0 = (w, new_executor)) as ->.
  { unfold check_mem_limit in Hc. case_match; congruence. }
  destruct (mbind_Ok_inv _ _ _ _ _ E1) as ([] & s2 & Hq & E2).
  exact (prepare_fragment_steps_Ok _ _ _ _ _ (prepare_query_ctx_frame r (w, new_executor) s2 eq_refl Hq) E2).
Qed.
End PrepareCases.

Section PrepareTheorems.
Context {L : Type} `{DriverLimiterLaws L}.
Context (env : ExecEnv).

(** C1: a failed [prepare] gives back everything it took.  Started by a
    fresh executor on a world whose registered queries all have a live
    fragment, a [prepare] that fails, at whatever step, leaves every
    query's fragment registry and live-fragment count as they were (a
    query it created is gone again), the limiter's count of drivers as it
    was, nothing submitted, and no fragment context held. *)
Theorem prepare_failure_restores r (w : World L) e s' :
  world_wf w -> prepare env r (w, new_executor) = (Err e, s') ->
  query_view s'.1 = query_view w /\
  dl_num_total_drivers (w_limiter s'.1) = dl_num_total_drivers (w_limiter w) /\
  w_scheduler s'.1 = w_scheduler w /\ fe_fragment_ctx s'.2 = None.
Proof.
  intros Hwf Hrun.
  destruct (prepare_Err_cases env _ _ _ _ Hrun) as [->|(s1 & Hf & ->)]; [by cbn|].
  by apply (fail_cleanup_restores _ _ _ Hwf Hf).
Qed.

(** C3: a successful [prepare] registers the fragment.  The query's
    context holds the fragment's context under its instance id, which
    was free before; it counts one live fragment more and is marked
    prepared; the fragment's driver token is the total degree of
    parallelism of its pipelines, the limiter's count grew by exactly
    that, other queries and the run queue are untouched. *)
Theorem prepare_success_registers r (w : World L) s' :
  prepare env r (w, new_executor) = (Ok tt, s') ->
  let qid := req_query_id r in
  let fid := req_fragment_instance_id r in
  let frags0 := default ∅ (qc_fragments <$> w_query_ctxs w !! qid) in
  exists q fc,
    w_query_ctxs s'.1 !! qid = Some q /\ qc_prepared q = true /\
    fe_fragment_ctx s'.2 = Some fc /\
    frags0 !! fid = None /\ qc_fragments q = <[fid := fc]> frags0 /\
    qc_num_active_fragments q =
      S (default 0%nat (qc_num_active_fragments <$> w_query_ctxs w !! qid)) /\
    fc_driver_token fc = Some (total_dop (fc_graph fc)) /\
    dl_num_total_drivers (w_limiter s'.1) =
      (dl_num_total_drivers (w_limiter w) + total_dop (fc_graph fc))%nat /\
    (forall q', q' <> qid -> w_query_ctxs s'.1 !! q' = w_query_ctxs w !! q') /\
    w_scheduler s'.1 = w_scheduler w.
Proof.
  intros Hrun. destruct (prepare_Ok_cases env _ _ _ Hrun) as (s6 & Hs6 & (tk & g & Hv & ->) & Hreg & _).
  destruct (register_fragment_Ok _ _ _ _ Hs6 Hreg)
    as (q & fc & Hfc & Hex & Hl & Ho & Hlim & Hsch & Hp & Hfree & Hfr & Hn).
  unfold fc_view in Hv. rewrite Hfc in Hv. injection Hv as Htk Hg.
  exists q, fc. rewrite Hex, Hlim, Hsch, Hg, (qf_limiter _ _ _ Hs6), (qf_scheduler _ _ _ Hs6).
  unfold token_of. rewrite Hfc, Htk. cbn. split_and!; auto.
Qed.

(** C2: a second [prepare] of a registered fragment instance is refused.
    When the query pool is within its limit and the query's context
    already holds a fragment under the request's instance id, [prepare]
    fails with [DuplicateRpcInvocation] and changes nothing. *)
Theorem prepare_duplicate_rejected r (w : World L) q :
  (w_query_pool_limit w < 0 \/ w_query_pool_consumption w <= w_query_pool_limit w)%Z ->
  w_query_ctxs w !! req_query_id r = Some q ->
  is_Some (fragment_mgr_get q (req_fragment_instance_id r)) ->
  prepare env r (w, new_executor) = (Err DuplicateRpcInvocation, (w, new_executor)).
Proof.
  intros Hmem Hq Hf. unfold prepare, prepare_steps, mbind at 1, check_mem_limit. cbn.
  replace ((0 <=? w_query_pool_limit w) && (w_query_pool_limit w <? w_query_pool_consumption w))%Z
    with false by (symmetry; apply andb_false_iff; lia).
  unfold mbind, _prepare_query_ctx. cbn. rewrite Hq, bool_decide_eq_true_2 by exact Hf.
  reflexivity.
Qed.

(** A registry with the same view holds, under each query, the same
    fragments and live count. *)
Lemma query_view_lookup (w w' : World L) qid q' :
  query_view w' = query_view w -> w_query_ctxs w' !! qid = Some q' ->
  exists q, w_query_ctxs w !! qid = Some q /\ qc_fragments q' = qc_fragments q /\
            qc_num_active_fragments q' = qc_num_active_fragments q.
Proof.
  intros Hv Hq'. unfold query_view in Hv.
  assert (qc_view <$> w_query_ctxs w !! qid = Some (qc_view q')) as Hw.
  { by rewrite <- lookup_fmap, <- Hv, lookup_fmap, Hq'. }
  destruct (w_query_ctxs w !! qid) as [q0|] eqn:Hq0; [|discriminate].
  cbn in Hw. unfold qc_view in Hw. injection Hw as <- <-. eauto.
Qed.

(** [prepare] keeps every registered query with a live fragment. *)
Lemma prepare_preserves_world_wf r (w : World L) res s' :
  world_wf w -> prepare env r (w, new_executor) = (res, s') -> world_wf s'.1.
Proof.
  intros Hwf Hrun. destruct res as [[]|e].
  - destruct (prepare_Ok_cases env _ _ _ Hrun) as (s6 & Hs6 & _ & Hreg & _).
    destruct (register_fragment_Ok _ _ _ _ Hs6 Hreg)
      as (q & fc & _ & _ & Hl & Ho & _ & _ & _ & _ & _ & Hn).
    intros qid q' Hq'. destruct (decide (qid = req_query_id r)) as [->|Hne].
    + rewrite Hl in Hq'. injection Hq' as <-. by rewrite Hn.
    + rewrite Ho in Hq' by done. exact (Hwf _ _ Hq').
  - destruct (prepare_Err_cases env _ _ _ _ Hrun) as [->|(s1 & Hf & ->)]; [done|].
    destruct (fail_cleanup_restores _ _ _ Hwf Hf) as (Hv & _).
    intros qid q' Hq'. destruct (query_view_lookup _ _ _ _ Hv Hq') as (q0 & Hq0 & _ & ->).
    exact (Hwf _ _ Hq0).
Qed.

Lemma prepare_keeps_live_counts r (w : World L) res s' :
  world_wf w -> live_counts_exact w -> prepare env r (w, new_executor) = (res, s') ->
  live_counts_exact s'.1.
Proof.
  intros Hwf Hc Hrun. destruct res as [[]|e].
  - destruct (prepare_Ok_cases env _ _ _ Hrun) as (s6 & Hs6 & _ & Hreg & _).
    destruct (register_fragment_Ok _ _ _ _ Hs6 Hreg)
      as (q & fc & _ & _ & Hl & Ho & _ & _ & _ & Hfree & Hfr & Hn).
    intros qid q' Hq'. destruct (decide (qid = req_query_id r)) as [->|Hne].
    + rewrite Hl in Hq'. injection Hq' as <-. rewrite Hn, Hfr, map_size_insert_None by exact Hfree.
      f_equal. destruct (w_query_ctxs w !! req_query_id r) as [q0|] eqn:Hq0; cbn;
        [exact (Hc _ _ Hq0) | by rewrite map_size_empty].
    + rewrite Ho in Hq' by done. exact (Hc _ _ Hq').
  - destruct (prepare_Err_cases env _ _ _ _ Hrun) as [->|(s1 & Hf & ->)]; [done|].
    destruct (fail_cleanup_restores _ _ _ Hwf Hf) as (Hv & _).
    intros qid q' Hq'. destruct (query_view_lookup _ _ _ _ Hv Hq') as (q0 & Hq0 & -> & ->).
    exact (Hc _ _ Hq0).
Qed.

(** C21: [prepare] keeps the registry well typed: every fragment context
    in a query's registry carries that query's id and is filed under its
    own instance id.  The context [prepare] registers is the one
    [_prepare_fragment_ctx] created with the request's ids, and no later
    step changes its identity; a failed [prepare] leaves every registry's
    fragments as they were. *)
Theorem prepare_preserves_registry_typed r (w : World L) res s' :
  world_wf w -> registry_typed w -> prepare env r (w, new_executor) = (res, s') ->
  registry_typed s'.1.
Proof.
  intros Hwf Hty Hrun qid q' fid fc' Hq' Hfc'. destruct res as [[]|e].
  - destruct (prepare_Ok_cases env _ _ _ Hrun) as (s6 & Hs6 & _ & Hreg & Hid & _).
    destruct (register_fragment_Ok _ _ _ _ Hs6 Hreg)
      as (q & fc & Hfc & _ & Hl & Ho & _ & _ & _ & _ & Hfr & _).
    destruct (decide (qid = req_query_id r)) as [->|Hne]; [|rewrite Ho in Hq' by done; eauto].
    rewrite Hl in Hq'. injection Hq' as <-. rewrite Hfr in Hfc'.
    apply lookup_insert_Some in Hfc' as [(<- & <-)|(_ & Hold)].
    + rewrite Hfc in Hid. injection Hid as Hid.
      unfold fc_fragment_instance_id. by rewrite Hid.
    + destruct (w_query_ctxs w !! req_query_id r) as [q0|] eqn:Hq0; cbn in Hold;
        [exact (Hty _ _ _ _ Hq0 Hold) | by rewrite lookup_empty in Hold].
  - destruct (prepare_Err_cases env _ _ _ _ Hrun) as [->|(s1 & Hf & ->)]; [exact (Hty _ _ _ _ Hq' Hfc')|].
    destruct (fail_cleanup_restores _ _ _ Hwf Hf) as (Hv & _).
    destruct (query_view_lookup _ _ _ _ Hv Hq') as (q0 & Hq0 & Hfr & _).
    rewrite Hfr in Hfc'. exact (Hty _ _ _ _ Hq0 Hfc').
Qed.

End PrepareTheorems.

(** ** Theorems of [execute] *)

Section ExecuteTheorems.
Context {L : Type} `{DriverLimiterLaws L}.
Context (env : ExecEnv).
Abbreviation St := (World L * FragmentExecutor)%type.
Implicit Types (s : St).

Lemma prepare_drivers_Ok ds v :
  prepare_drivers env ds = Ok v -> Forall (fun d => env_driver_prepare env d = OK) ds.
Proof.
  induction ds as [|d ds IH]; cbn; [constructor|].
  destruct (env_driver_prepare env d) as [[]|e] eqn:Hd; cbn; [|discriminate].
  intros Hr. constructor; [done | exact (IH Hr)].
Qed.

Lemma prepare_drivers_Err ds e :
  prepare_drivers env ds = Err e -> exists d, d ∈ ds /\ env_driver_prepare env d = Err e.
Proof.
  induction ds as [|d ds IH]; cbn; [discriminate|].
  destruct (env_driver_prepare env d) as [[]|e'] eqn:Hd; cbn.
  - intros Hr. destruct (IH Hr) as (d' & Hin & Hd'). exists d'. split; [by right|done].
  - intros [= <-]. exists d. split; [left|done].
Qed.

Lemma release_token_limiter fc (w : World L) :
  dl_num_total_drivers (w_limiter (release_token fc w)) =
  (dl_num_total_drivers (w_limiter w) - default 0%nat (fc_driver_token fc))%nat /\
  w_query_ctxs (release_token fc w) = w_query_ctxs w /\
  w_scheduler (release_token fc w) = w_scheduler w.
Proof.
  unfold release_token. destruct (fc_driver_token fc) as [n|]; cbn; [|split_and!; auto; lia].
  destruct (dl_release_spec n (w_limiter w)) as [-> _]. auto.
Qed.

(** The drivers [iterate_active_drivers] visits: those of the pipelines
    whose source is initially active (line 764). *)
Lemma elem_of_active_drivers g d :
  d ∈ active_drivers g <->
  exists pl so ds, pl ∈ pg_pipelines g /\ source_of g pl = Some so /\
    so_is_adaptive_group_initial_active so = true /\ pg_drivers g !! pl_id pl = Some ds /\ d ∈ ds.
Proof.
  unfold active_drivers. rewrite list_elem_of_In, in_concat. split.
  - intros (l & Hl & Hd). apply in_map_iff in Hl as (pl & <- & Hpl).
    destruct (source_of g pl) as [so|] eqn:Hso; [|done].
    destruct (so_is_adaptive_group_initial_active so) eqn:Ha; [|done].
    destruct (pg_drivers g !! pl_id pl) as [ds|] eqn:Hds; [|done].
    exists pl, so, ds. rewrite !list_elem_of_In. auto.
  - intros (pl & so & ds & Hpl & Hso & Ha & Hds & Hd).
    eexists. split; [apply in_map_iff; exists pl; split; [reflexivity | by apply list_elem_of_In]|].
    rewrite Hso, Ha, Hds. by apply list_elem_of_In.
Qed.

(** C6: when [execute] succeeds, what it appends to the run queue is
    exactly the set of drivers of the pipelines whose source is initially
    active: the drivers of a pipeline that waits for its group's event are
    neither prepared nor submitted, however many it has (line 764).  Every
    submitted driver prepared successfully, and the registry, the limiter
    and the executor are unchanged. *)
Theorem execute_submits_active_drivers s s' :
  execute env s = (Ok tt, s') ->
  exists fc submitted, fe_fragment_ctx s.2 = Some fc /\
    w_scheduler s'.1 = w_scheduler s.1 ++ submitted /\
    (forall d, d ∈ submitted <->
       exists pl so ds, pl ∈ pg_pipelines (fc_graph fc) /\ source_of (fc_graph fc) pl = Some so /\
         so_is_adaptive_group_initial_active so = true /\
         pg_drivers (fc_graph fc) !! pl_id pl = Some ds /\ d ∈ ds) /\
    Forall (fun d => env_driver_prepare env d = OK) submitted /\
    w_query_ctxs s'.1 = w_query_ctxs s.1 /\ w_limiter s'.1 = w_limiter s.1 /\ s'.2 = s.2.
Proof.
  unfold execute. destruct (fe_fragment_ctx s.2) as [fc|]; [|discriminate].
  destruct (prepare_drivers env _) as [v|e] eqn:Hp; [|discriminate].
  intros [= <-]. exists fc, (active_drivers (fc_graph fc)).
  split_and!; eauto using prepare_drivers_Ok. apply elem_of_active_drivers.
Qed.

(** C7: a failed [execute] submits nothing and withdraws the fragment.
    Some active driver failed to prepare with the error returned; the run
    queue is unchanged; the query's registry no longer holds the fragment;
    the query counts one live fragment fewer (and is gone when none is
    left); the token's slots are back in the limiter; the executor holds
    no fragment context. *)
Theorem execute_failure_withdraws s e s' qid fc :
  fe_query_ctx s.2 = Some qid -> fe_fragment_ctx s.2 = Some fc ->
  execute env s = (Err e, s') ->
  (exists d, d ∈ active_drivers (fc_graph fc) /\ env_driver_prepare env d = Err e) /\
  w_scheduler s'.1 = w_scheduler s.1 /\
  (forall q, w_query_ctxs s'.1 !! qid = Some q -> qc_fragments q !! fc_fragment_instance_id fc = None) /\
  default 0%nat (qc_num_active_fragments <$> w_query_ctxs s'.1 !! qid) =
    (default 0%nat (qc_num_active_fragments <$> w_query_ctxs s.1 !! qid) - 1)%nat /\
  dl_num_total_drivers (w_limiter s'.1) =
    (dl_num_total_drivers (w_limiter s.1) - default 0%nat (fc_driver_token fc))%nat /\
  fe_fragment_ctx s'.2 = None.
Proof.
  intros Hq Hfc. unfold execute. rewrite Hfc.
  destruct (prepare_drivers env _) as [v|e'] eqn:Hp; [discriminate|].
  intros [= -> <-]. unfold _fail_cleanup. rewrite Hq, Hfc. cbn.
  set (m := alter (unregister (fc_fragment_instance_id fc)) qid (w_query_ctxs s.1)).
  destruct (release_token_limiter fc (world_with_queries m s.1)) as (Hlim & Hqs & Hsch).
  rewrite Hqs. cbn in Hlim |- *. split_and!; auto using prepare_drivers_Err.
  - intros q. rewrite count_down_fragments_lookup_eq. subst m.
    rewrite lookup_alter. rewrite decide_True by done.
    destruct (w_query_ctxs s.1 !! qid) as [q0|]; cbn; [|discriminate].
    destruct (qc_num_active_fragments q0) as [|[|n]]; cbn; [discriminate..|].
    intros [= <-]. cbn. apply lookup_delete_eq.
  - rewrite count_down_fragments_count. subst m.
    rewrite lookup_alter, decide_True by done.
    by destruct (w_query_ctxs s.1 !! qid).
Qed.

(** [_fail_cleanup(true)] on an executor whose fragment is registered keeps
    every query with a live fragment and every count exact. *)
Lemma fail_cleanup_registered_counts s qid q fc :
  fe_query_ctx s.2 = Some qid -> fe_fragment_ctx s.2 = Some fc ->
  w_query_ctxs s.1 !! qid = Some q -> is_Some (qc_fragments q !! fc_fragment_instance_id fc) ->
  world_wf s.1 -> live_counts_exact s.1 ->
  world_wf (_fail_cleanup true s).1 /\ live_counts_exact (_fail_cleanup true s).1.
Proof.
  intros Hq Hfc Hl Hreg Hwf Hc. unfold _fail_cleanup. rewrite Hq, Hfc. cbn.
  set (m := alter (unregister (fc_fragment_instance_id fc)) qid (w_query_ctxs s.1)).
  destruct (release_token_limiter fc (world_with_queries m s.1)) as (_ & Hqs & _).
  rewrite Hqs. cbn.
  assert (Hm : forall qid' q', count_down_fragments qid m !! qid' = Some q' ->
            qc_num_active_fragments q' <> 0%nat /\ qc_num_active_fragments q' = size (qc_fragments q')).
  { intros qid' q' Hq'. destruct (decide (qid' = qid)) as [->|Hne].
    - rewrite count_down_fragments_lookup_eq in Hq'. subst m.
      rewrite lookup_alter_eq, Hl in Hq'. cbn in Hq'. pose proof (Hc _ _ Hl) as Hcq.
      destruct (qc_num_active_fragments q) as [|[|n]] eqn:Hn; try discriminate.
      injection Hq' as <-. cbn. rewrite map_size_delete_Some by exact Hreg. lia.
    - rewrite count_down_fragments_lookup_ne in Hq' by done. subst m.
      rewrite lookup_alter_ne in Hq' by congruence. split; [exact (Hwf _ _ Hq') | exact (Hc _ _ Hq')]. }
  split; intros qid' q' Hq'; apply (Hm _ _ Hq').
Qed.

(** C20: between calls the registry's live-fragment counts are exact.
    From a back end where every registered query counts exactly its
    registered fragments (and has one), a [prepare] keeps this whether it
    succeeds or fails: the fragment counted by [get_or_register] is either
    registered or counted down by [_fail_cleanup(false)].  So does an
    [execute] after a successful prepare: on failure [_fail_cleanup(true)]
    both unregisters the fragment and counts it down. *)
Theorem prepare_execute_keep_live_counts r (w : World L) res s' :
  world_wf w -> live_counts_exact w -> prepare env r (w, new_executor) = (res, s') ->
  (world_wf s'.1 /\ live_counts_exact s'.1) /\
  (res = Ok tt -> world_wf (execute env s').2.1 /\ live_counts_exact (execute env s').2.1).
Proof.
  intros Hwf Hc Hrun.
  pose proof (prepare_preserves_world_wf env _ _ _ _ Hwf Hrun) as Hwf'.
  pose proof (prepare_keeps_live_counts env _ _ _ _ Hwf Hc Hrun) as Hc'.
  split; [done|]. intros ->.
  destruct (prepare_Ok_cases env _ _ _ Hrun) as (s6 & Hs6 & _ & Hreg & Hid & _).
  destruct (register_fragment_Ok _ _ _ _ Hs6 Hreg)
    as (q & fc & Hfc & Hex & Hl & _ & _ & _ & _ & _ & Hfr & _).
  rewrite Hfc in Hid. injection Hid as Hid.
  unfold execute. rewrite Hex, Hfc.
  destruct (prepare_drivers env _) as [v|e]; [cbn; done|].
  apply (fail_cleanup_registered_counts _ (req_query_id r) q fc); [| | done | | done | done].
  - rewrite Hex. exact (qf_query _ _ _ Hs6).
  - by rewrite Hex.
  - rewrite Hfr. unfold fc_fragment_instance_id. rewrite Hid. cbn. rewrite lookup_insert_eq. by eexists.
Qed.
End ExecuteTheorems.

(** ** The driver budget of a prepared fragment *)

Section DriverBudget.
Context {L : Type} `{DriverLimiterLaws L}.
Context (env : ExecEnv).
Hypothesis Hbuild : forall p dop sink_dop sink, schedulable (env_build_pipelines env p dop sink_dop sink).

End DriverBudget.

(** ** The descriptor table of a fragment (lines 269-286) *)

Section DescTbl.
Context {L : Type} `{DriverLimiter L}.
Context (env : ExecEnv).

(** The descriptor table the executor's query context caches. *)
Definition query_desc_tbl (s : World L * FragmentExecutor) : option (option nat) :=
  qid ← fe_query_ctx s.2; q ← w_query_ctxs s.1 !! qid; Some (qr_desc_tbl (qc_resources q)).

(** The descriptor table of the fragment's runtime state. *)
Definition fragment_desc_tbl (s : World L * FragmentExecutor) : option nat :=
  fc ← fe_fragment_ctx s.2; rs ← fc_runtime_state fc; rs_desc_tbl rs.

(** C26: [_prepare_runtime_state] on each branch of the descriptor-table
    setup.  A request whose table is cached takes the query's table, and
    the step fails with [Cancelled] when the query has none; a request
    that asks for caching decodes the table and caches it in the query
    context; an uncached request decodes its own table and leaves the
    query's alone.  A decoding error is the step's error.  Whenever the
    table is set, the step's result is that of the spill manager's
    initialisation (lines 287-289), which comes after it. *)
Theorem prepare_runtime_state_desc_tbl r (s : World L * FragmentExecutor) qid q fc :
  fe_query_ctx s.2 = Some qid -> w_query_ctxs s.1 !! qid = Some q -> fe_fragment_ctx s.2 = Some fc ->
  let res := _prepare_runtime_state env r s in
  let t := desc_tbl (common r) in
  let spill := if flag (enable_spill (req_query_options r))
               then env_init_spill_manager env (req_query_options r) else OK in
  match is_cached t with
  | Some true =>
      match qr_desc_tbl (qc_resources q) with
      | Some d => res.1 = spill /\ fragment_desc_tbl res.2 = Some d /\ query_desc_tbl res.2 = Some (Some d)
      | None => res.1 = Err Cancelled /\ fragment_desc_tbl res.2 = None
      end
  | Some false =>
      match env_create_desc_tbl env t with
      | Ok d => res.1 = spill /\ fragment_desc_tbl res.2 = Some d /\ query_desc_tbl res.2 = Some (Some d)
      | Err e => res.1 = Err e /\ fragment_desc_tbl res.2 = None
      end
  | None =>
      match env_create_desc_tbl env t with
      | Ok d => res.1 = spill /\ fragment_desc_tbl res.2 = Some d /\
                query_desc_tbl res.2 = Some (qr_desc_tbl (qc_resources q))
      | Err e => res.1 = Err e /\ fragment_desc_tbl res.2 = None
      end
  end.
Proof.
  destruct s as [w [eq ef ewg]]; simpl. intros -> Hw ->.
  unfold _prepare_runtime_state, setup_desc_tbl, init_mem_tracker, open_query, modify_resources,
    modify_query_ctx, modify_fragment_ctx, get_query_ctx, Executor.mbind, Executor.mget, Executor.mret,
    mlift, Executor.mmodify, set_executor, set_world, fragment_desc_tbl, query_desc_tbl.
  destruct (is_cached _) as [[]|];
    [destruct (qr_desc_tbl (qc_resources q)) eqn:Hd | destruct (env_create_desc_tbl env _) eqn:He
    | destruct (env_create_desc_tbl env _) eqn:He];
    destruct (runtime_filter_params_of r);
    try destruct (flag (enable_spill _)); try destruct (env_init_spill_manager _ _) as [[]|];
    destruct (qr_mem (qc_resources q)) eqn:Hm;
    repeat (first [progress simpl | case_bool_decide | rewrite lookup_alter | rewrite Hw
                  | rewrite decide_True by done | rewrite Hm | rewrite Hd | rewrite He]);
    done.
Qed.
End DescTbl.

Lemma registry_typedb_sound {L} `{DriverLimiter L} (w : World L) :
  registry_typedb w = true -> registry_typed w.
Proof.
  unfold registry_typedb. rewrite forallb_forall. intros Hall qid q fid fc Hq Hfc.
  apply elem_of_map_to_list, list_elem_of_In in Hq. specialize (Hall _ Hq). cbn in Hall.
  rewrite forallb_forall in Hall.
  apply elem_of_map_to_list, list_elem_of_In in Hfc. specialize (Hall _ Hfc). cbn in Hall.
  apply andb_true_iff in Hall as [H1 H2]. apply bool_decide_eq_true in H1, H2. done.
Qed.

Lemma live_counts_exactb_sound {L} `{DriverLimiter L} (w : World L) :
  live_counts_exactb w = true -> live_counts_exact w.
Proof.
  unfold live_counts_exactb. rewrite forallb_forall. intros Hall qid q Hq.
  apply elem_of_map_to_list in Hq. apply list_elem_of_In in Hq.
  specialize (Hall _ Hq). cbn in Hall. by apply Nat.eqb_eq in Hall.
Qed.

Lemma world_wfb_sound {L} `{DriverLimiter L} (w : World L) : world_wfb w = true -> world_wf w.
Proof.
  unfold world_wfb. rewrite forallb_forall. intros Hall qid q Hq.
  apply elem_of_map_to_list in Hq. apply list_elem_of_In in Hq.
  specialize (Hall _ Hq). cbn in Hall. apply negb_true_iff, Nat.eqb_neq in Hall. exact Hall.
Qed.

Section StreamLoad.
Context {L : Type} `{DriverLimiter L}.
Context (env : ExecEnv).

Lemma world_with_stream_channels_id (w : World L) :
  world_with_stream_channels (w_stream_channels w) w = w.
Proof. by destruct w. Qed.

(** The inner loop registers the channels of its ranges, each at the front
    of the registry, when every channel context is created and no channel
    is registered twice. *)
Lemma stream_load_ranges_ok acc l (w : World L) ex :
  Forall (fun sr => env_create_channel_context env (broker_of sr) = OK) l ->
  NoDup (map channel_of l ++ w_stream_channels w) ->
  stream_load_ranges env acc l (w, ex) =
    (Ok (acc ++ map channel_of l),
     (world_with_stream_channels (rev (map channel_of l) ++ w_stream_channels w) w, ex)).
Proof.
  revert acc w. induction l as [|sr l IH]; intros acc w Hok Hnd; cbn.
  - rewrite app_nil_r, world_with_stream_channels_id. reflexivity.
  - apply List.Forall_cons_iff in Hok as [Hc Hok]. apply NoDup_cons in Hnd as [Hnotin Hnd].
    unfold stream_load_range, Executor.mbind, mlift, put_channel_context, mret.
    rewrite Hc. cbn.
    rewrite bool_decide_false by (intros Hin; apply Hnotin; fold (channel_of sr) in Hin; set_solver).
    unfold set_world; cbn [fst snd]. fold (channel_of sr). rewrite IH; [|exact Hok|].
    + cbn. rewrite <- !app_assoc. reflexivity.
    + cbn. rewrite <- Permutation_middle. by constructor.
Qed.

Lemma stream_load_seqs_ok acc m (w : World L) ex :
  Forall (fun sr => env_create_channel_context env (broker_of sr) = OK) (concat (map snd m)) ->
  NoDup (stream_load_channels m ++ w_stream_channels w) ->
  stream_load_seqs env acc m (w, ex) =
    (Ok (acc ++ stream_load_channels m),
     (world_with_stream_channels (rev (stream_load_channels m) ++ w_stream_channels w) w, ex)).
Proof.
  unfold stream_load_channels.
  revert acc w. induction m as [|[k l] m IH]; intros acc w Hok Hnd; cbn.
  - rewrite app_nil_r, world_with_stream_channels_id. reflexivity.
  - cbn in Hok, Hnd. rewrite Forall_app in Hok. destruct Hok as [Hl Hm].
    rewrite map_app in Hnd |- *.
    unfold Executor.mbind. rewrite stream_load_ranges_ok; [|done|].
    2: { rewrite <- app_assoc in Hnd. by apply NoDup_app_drop_middle in Hnd. }
    cbn. rewrite IH; [|done|].
    + cbn. rewrite rev_app_distr, <- !app_assoc. reflexivity.
    + cbn. revert Hnd. apply NoDup_perm. rewrite !app_assoc.
      apply Permutation_app_tail. etrans; [apply Permutation_app_comm|].
      apply Permutation_app_head, Permutation_rev.
Qed.

(** C13: [_prepare_stream_load_pipe] registers, in loop order, the
    channels of the first scan node's driver sequences.  With a single
    scan node it then records them in the fragment context and succeeds.
    With a second node the run reaches undefined behaviour (line 504: the
    inner iterator [iter2] is not reset and still points at the first
    node's map), after the first node's channels were registered, and the
    fragment context records none of them.  This holds when the guards of
    lines 481-501 pass, the fragment context exists, every channel context
    is created and no channel is registered twice. *)
Theorem prepare_stream_load_pipe_first_node r nid per_driver d sr srs seqs rest b c
    (w : World L) ex fc :
  node_to_per_driver_seq_scan_ranges (params (unique r)) = Some ((nid, per_driver) :: rest) ->
  per_driver = (d, sr :: srs) :: seqs ->
  broker_scan_range (scan_range sr) = Some b -> channel_id b = Some c ->
  fe_fragment_ctx ex = Some fc ->
  Forall (fun sr => env_create_channel_context env (broker_of sr) = OK) (concat (map snd per_driver)) ->
  NoDup (stream_load_channels per_driver ++ w_stream_channels w) ->
  let w' := world_with_stream_channels (rev (stream_load_channels per_driver) ++ w_stream_channels w) w in
  _prepare_stream_load_pipe env r (w, ex) =
    match rest with
    | [] => (Ok tt,
             (w', {| fe_query_ctx := fe_query_ctx ex;
                     fe_fragment_ctx := Some (fc_set_stream_load_contexts (stream_load_channels per_driver) fc);
                     fe_wg := fe_wg ex |}))
    | _ :: _ => (Err UndefinedBehavior, (w', ex))
    end.
Proof.
  intros Hn Hpd Hb Hc Hfc Hok Hnd. unfold _prepare_stream_load_pipe.
  rewrite Hn. subst per_driver. cbv iota beta. rewrite Hb, Hc.
  unfold Executor.mbind. rewrite stream_load_seqs_ok by done. cbn.
  destruct rest as [|? ?]; [|reflexivity].
  unfold modify_fragment_ctx, set_executor. cbn. by rewrite Hfc.
Qed.
End StreamLoad.

(** A failed [prepare] leaves behind the stream-load channels it
    registered (a finding of the manifest).  Fragment 80 of query 8 is
    prepared while channel 1 of
    load [01] is already registered: the stream-load loop registers
    channel 0, then [put_channel_context] refuses channel 1 and [prepare]
    fails.  [_fail_cleanup] unregisters the query and returns the driver
    token, but channel 0 stays in the stream context manager. *)
Example prepare_failure_keeps_stream_channels :
  let res := prepare (sample_env 0) sample_load_request
               (world_with_stream_channels [([Byte.x01], 1)] (sample_world 8), new_executor) in
  res.1 = Err InternalError /\
  w_query_ctxs res.2.1 = ∅ /\
  dl_num_total_drivers (w_limiter res.2.1) = 0%nat /\
  w_stream_channels res.2.1 = [([Byte.x01], 0); ([Byte.x01], 1)].
Proof. vm_compute. by split_and!. Qed.

(** ** Witnesses *)

Lemma prepare_failure_restores_witness :
  sample_run_71.1 = Err ResourceExhausted /\
  query_view sample_run_71.2.1 = query_view sample_world_one_fragment /\
  dl_num_total_drivers (w_limiter sample_run_71.2.1) =
    dl_num_total_drivers (w_limiter sample_world_one_fragment) /\
  w_scheduler sample_run_71.2.1 = w_scheduler sample_world_one_fragment /\
  fe_fragment_ctx sample_run_71.2.2 = None.
Proof.
  assert (Hrun : sample_run_71 = (Err ResourceExhausted, sample_run_71.2)) by (vm_compute; reflexivity).
  split; [by rewrite Hrun|].
  exact (prepare_failure_restores (sample_env 0) _ _ _ _
           (world_wfb_sound sample_world_one_fragment ltac:(vm_compute; reflexivity)) Hrun).
Defined.

Lemma prepare_success_registers_witness :
  sample_run_A.1 = Ok tt /\
  exists q fc,
    w_query_ctxs sample_run_A.2.1 !! 7%Z = Some q /\ qc_prepared q = true /\
    qc_fragments q = {[70%Z := fc]} /\ fc_driver_token fc = Some (total_dop (fc_graph fc)) /\
    dl_num_total_drivers (w_limiter sample_run_A.2.1) = total_dop (fc_graph fc).
Proof.
  assert (Hrun : sample_run_A = (Ok tt, sample_run_A.2)) by (vm_compute; reflexivity).
  split; [by rewrite Hrun|].
  destruct (prepare_success_registers (sample_env 0) _ _ _ Hrun)
    as (q & fc & Hl & Hp & _ & _ & Hfr & _ & Ht & Hlim & _).
  exists q, fc. split_and!; [exact Hl | exact Hp | exact Hfr | exact Ht | exact Hlim].
Defined.

Lemma prepare_duplicate_rejected_witness :
  prepare (sample_env 0) (sample_scan_request false true) (sample_world_one_fragment, new_executor) =
  (Err DuplicateRpcInvocation, (sample_world_one_fragment, new_executor)).
Proof.
  apply (prepare_duplicate_rejected (sample_env 0) _ _
           (default (new_query_context 7) (w_query_ctxs sample_world_one_fragment !! 7%Z))).
  - left. vm_compute. reflexivity.
  - vm_compute. reflexivity.
  - apply (bool_decide_unpack _). vm_compute. reflexivity.
Defined.

(** Fragment 70 prepared on the back end whose third driver fails: the
    prepare succeeds and the execute fails, and the counts stay exact. *)
Lemma prepare_execute_keep_live_counts_witness :
  (execute sample_env_failing_driver sample_run_failing.2).1 = Err InternalError /\
  world_wf (execute sample_env_failing_driver sample_run_failing.2).2.1 /\
  live_counts_exact (execute sample_env_failing_driver sample_run_failing.2).2.1.
Proof.
  split; [vm_compute; reflexivity|].
  assert (Hrun : sample_run_failing = (Ok tt, sample_run_failing.2)) by (vm_compute; reflexivity).
  exact (proj2 (prepare_execute_keep_live_counts sample_env_failing_driver _ _ _ _
                  (world_wfb_sound (sample_world 8) ltac:(vm_compute; reflexivity))
                  (live_counts_exactb_sound (sample_world 8) ltac:(vm_compute; reflexivity)) Hrun) eq_refl).
Defined.

Lemma execute_submits_active_drivers_witness :
  exists fc submitted, fe_fragment_ctx sample_run_A.2.2 = Some fc /\
    w_scheduler (execute (sample_env 0) sample_run_A.2).2.1 = submitted /\
    length submitted = 4%nat.
Proof.
  assert (Hrun : execute (sample_env 0) sample_run_A.2 = (Ok tt, (execute (sample_env 0) sample_run_A.2).2))
    by (vm_compute; reflexivity).
  destruct (execute_submits_active_drivers (sample_env 0) _ _ Hrun) as (fc & sub & Hfc & Hsch & _).
  exists fc, sub. split_and!; [exact Hfc | by rewrite Hsch |].
  assert (Hlen : length (w_scheduler (execute (sample_env 0) sample_run_A.2).2.1) = 4%nat)
    by (vm_compute; reflexivity).
  rewrite Hsch in Hlen. exact Hlen.
Defined.

Lemma execute_failure_withdraws_witness :
  exists fc, fe_fragment_ctx sample_run_failing.2.2 = Some fc /\
    let s' := (execute sample_env_failing_driver sample_run_failing.2).2 in
    w_scheduler s'.1 = [] /\ w_query_ctxs s'.1 !! 7%Z = None /\
    dl_num_total_drivers (w_limiter s'.1) = 0%nat /\ fe_fragment_ctx s'.2 = None.
Proof.
  destruct (fe_fragment_ctx sample_run_failing.2.2) as [fc|] eqn:Hfc;
    [|vm_compute in Hfc; discriminate].
  exists fc. split; [reflexivity|].
  assert (Hrun : execute sample_env_failing_driver sample_run_failing.2 =
                 (Err InternalError, (execute sample_env_failing_driver sample_run_failing.2).2))
    by (vm_compute; reflexivity).
  destruct (execute_failure_withdraws sample_env_failing_driver sample_run_failing.2 InternalError _ 7%Z fc
              ltac:(vm_compute; reflexivity) Hfc Hrun) as (_ & Hsch & _ & Hn & Hlim & Hnone).
  vm_compute in Hfc. injection Hfc as <-. cbn zeta.
  rewrite Hsch, Hlim, Hnone. vm_compute in Hn |- *. split_and!; reflexivity.
Defined.

(** ** The stream-load pipe *)

(** Fragment 80 loads through node 10 alone: its two channels are
    registered and recorded.  With node 20 as well, the loop reaches the
    first map's end after registering them. *)
Lemma prepare_stream_load_pipe_first_node_witness :
  _prepare_stream_load_pipe (sample_env 0) (sample_load_request_nodes 1) (sample_world 6, sample_load_executor) =
    (Ok tt,
     (world_with_stream_channels [([Byte.x01], 1); ([Byte.x01], 0)] (sample_world 6),
      {| fe_query_ctx := Some 8; fe_wg := None;
         fe_fragment_ctx := option_map (fc_set_stream_load_contexts [([Byte.x01], 0); ([Byte.x01], 1)])
                              (fe_fragment_ctx sample_load_executor) |})) /\
  _prepare_stream_load_pipe (sample_env 0) sample_load_request (sample_world 6, sample_load_executor) =
    (Err UndefinedBehavior,
     (world_with_stream_channels [([Byte.x01], 1); ([Byte.x01], 0)] (sample_world 6), sample_load_executor)).
Proof.
  split.
  - exact (prepare_stream_load_pipe_first_node (sample_env 0) (sample_load_request_nodes 1) 10 _ 0 _ _ []
             [] _ 0 (sample_world 6) sample_load_executor _
             eq_refl eq_refl eq_refl eq_refl eq_refl
             ltac:(repeat constructor) ltac:(apply (bool_decide_unpack _); vm_compute; reflexivity)).
  - exact (prepare_stream_load_pipe_first_node (sample_env 0) sample_load_request 10 _ 0 _ _ []
             [(20, [(0, [sample_load_range [Byte.x02] 0])])] _ 0 (sample_world 6) sample_load_executor _
             eq_refl eq_refl eq_refl eq_refl eq_refl
             ltac:(repeat constructor) ltac:(apply (bool_decide_unpack _); vm_compute; reflexivity)).
Defined.

(** Fragment 71 prepared beside fragment 70 of the same query, on a
    budget of eight drivers: both registries are well typed. *)
Lemma prepare_preserves_registry_typed_witness :
  let w := sample_run_A.2.1 in
  let res := prepare (sample_env 0) (sample_scan_request_for 71 false true) (w, new_executor) in
  res.1 = Ok tt /\ registry_typed w /\ registry_typed res.2.1.
Proof.
  cbv zeta. split; [vm_compute; reflexivity|].
  split; [apply registry_typedb_sound; vm_compute; reflexivity|].
  apply (prepare_preserves_registry_typed (sample_env 0) (sample_scan_request_for 71 false true)
           sample_run_A.2.1
           (prepare (sample_env 0) (sample_scan_request_for 71 false true) (sample_run_A.2.1, new_executor)).1).
  - apply world_wfb_sound. vm_compute. reflexivity.
  - apply registry_typedb_sound. vm_compute. reflexivity.
  - apply surjective_pairing.
Defined.

(** ** The driver budget *)



(** ** The descriptor table *)

(** Fragment 71 of query 7 asks for its table to be cached; fragment 72
    then finds it in the query context. *)
Lemma prepare_runtime_state_desc_tbl_witness :
  let s := (_prepare_runtime_state (sample_env 0) (sample_desc_request 71 (Some false)) sample_run_A.2).2 in
  let res := _prepare_runtime_state (sample_env 0) (sample_desc_request 72 (Some true)) s in
  res.1 = OK /\ fragment_desc_tbl res.2 = Some 1%nat /\ query_desc_tbl res.2 = Some (Some 1%nat).
Proof.
  cbv zeta.
  set (s := (_prepare_runtime_state (sample_env 0) (sample_desc_request 71 (Some false)) sample_run_A.2).2).
  destruct (w_query_ctxs s.1 !! 7) as [q|] eqn:Hq; [|vm_compute in Hq; discriminate].
  destruct (fe_fragment_ctx s.2) as [fc|] eqn:Hf; [|vm_compute in Hf; discriminate].
  assert (Hd : qr_desc_tbl (qc_resources q) = Some 1%nat).
  { assert (H1 : (qr_desc_tbl ∘ qc_resources) <$> w_query_ctxs s.1 !! 7 = Some (Some 1%nat))
      by (vm_compute; reflexivity).
    rewrite Hq in H1. by injection H1. }
  pose proof (prepare_runtime_state_desc_tbl (sample_env 0) (sample_desc_request 72 (Some true)) s 7 q fc
                ltac:(vm_compute; reflexivity) Hq Hf) as Hspec.
  cbv zeta in Hspec. rewrite Hd in Hspec. exact Hspec.
Defined.
