(* ===== verification/Concurrency.v ===== *)
(** * Concurrent prepares of fragment instances of one query

    Several RPC threads may run [FragmentExecutor::prepare] at once, each
    with its own [FragmentExecutor] and all on the one back end.  The spec
    (section 6) asks the duplicate check and the insertion into the
    fragment registry to be one atomic step; the code checks in
    [_prepare_query_ctx] (lines 118-124) and inserts at line 737, with the
    other steps in between.  This file runs two prepares as two threads of
    a machine whose transitions execute one step of [prepare] (one element
    of [prepare_step_list], the calls of lines 704-738) of either thread on
    the shared [World]; a failed step runs the thread's [_fail_cleanup].

    [run_steps] composes the list back into [prepare_steps]
    ([run_steps_prepare_step_list]).  The schedule [race_schedule] lets both threads pass
    the duplicate check before either registers: the second then fails in
    [register_ctx], not with [DuplicateRpcInvocation].  Whatever the
    schedule, the two prepares of one fragment instance never both
    succeed. *)

From S2P Require Import Prelude Request ScanPlan Pipeline Limiter Context Executor.
From stdpp Require Import base list gmap.
From Stdlib Require Import ZArith Lia.

(** ** Threads and the machine *)

Section Machine.
Context {L : Type} `{DriverLimiter L}.
Context (env : ExecEnv).

(** A call of [prepare] on the back end and an executor. *)
Abbreviation Step := (World L * FragmentExecutor -> StatusOr unit * (World L * FragmentExecutor)).

(** The calls of [prepare] between the query context and the
    registration, lines 714-733. *)
Definition middle_steps (r : UnifiedExecPlanFragmentParams) : list Step :=
  [_prepare_fragment_ctx r; _prepare_workgroup env r; _prepare_runtime_state env r;
   _prepare_global_dict env r; _prepare_exec_plan env r; _prepare_pipeline_driver env r;
   _prepare_stream_load_pipe env r].

(** The calls of [prepare], lines 704-738, one per element. *)
Definition prepare_step_list (r : UnifiedExecPlanFragmentParams) : list Step :=
  check_mem_limit :: _prepare_query_ctx r :: middle_steps r ++ [register_fragment r].

(** [RETURN_IF_ERROR] over a list of steps. *)
Fixpoint run_steps (ms : list Step) : Step :=
  fun s => match ms with
           | [] => (Ok tt, s)
           | m :: rest => match m s with
                          | (Ok _, s') => run_steps rest s'
                          | (Err e, s') => (Err e, s')
                          end
           end.

(** A thread: an executor with the steps it has still to run, or its
    result once [prepare] returned. *)
Inductive Thread :=
| Running (ex : FragmentExecutor) (todo : list Step)
| Finished (ex : FragmentExecutor) (res : Status).

(** One step of a thread: the next call, or the return of [prepare]; a
    failed call runs the [DeferOp]'s [_fail_cleanup(false)]. *)
Definition thread_step (w : World L) (t : Thread) : option (World L * Thread) :=
  match t with
  | Running ex [] => Some (w, Finished ex OK)
  | Running ex (m :: ms) =>
      match m (w, ex) with
      | (Ok _, s') => Some (s'.1, Running s'.2 ms)
      | (Err e, s') => let s'' := _fail_cleanup false s' in Some (s''.1, Finished s''.2 (Err e))
      end
  | Finished _ _ => None
  end.

(** Two threads on one world. *)
Record Machine := { m_world : World L; m_left : Thread; m_right : Thread }.

Inductive mstep : Machine -> Machine -> Prop :=
| mstep_left w t1 t2 w' t1' :
    thread_step w t1 = Some (w', t1') ->
    mstep {| m_world := w; m_left := t1; m_right := t2 |} {| m_world := w'; m_left := t1'; m_right := t2 |}
| mstep_right w t1 t2 w' t2' :
    thread_step w t2 = Some (w', t2') ->
    mstep {| m_world := w; m_left := t1; m_right := t2 |} {| m_world := w'; m_left := t1; m_right := t2' |}.

Inductive mstar : Machine -> Machine -> Prop :=
| mstar_refl m : mstar m m
| mstar_step m1 m2 m3 : mstep m1 m2 -> mstar m2 m3 -> mstar m1 m3.

(** Two prepares started on world [w]. *)
Definition start (w : World L) (r1 r2 : UnifiedExecPlanFragmentParams) : Machine :=
  {| m_world := w; m_left := Running new_executor (prepare_step_list r1);
     m_right := Running new_executor (prepare_step_list r2) |}.

(** An executable schedule: [true] steps the left thread, [false] the
    right one; a finished thread's turn is skipped. *)
Fixpoint run_schedule (sched : list bool) (m : Machine) : Machine :=
  match sched with
  | [] => m
  | b :: rest =>
      let t := if b then m_left m else m_right m in
      match thread_step (m_world m) t with
      | Some (w', t') =>
          run_schedule rest (if b then {| m_world := w'; m_left := t'; m_right := m_right m |}
                             else {| m_world := w'; m_left := m_left m; m_right := t' |})
      | None => run_schedule rest m
      end
  end.

Definition finished_ok (t : Thread) : bool :=
  match t with Finished _ (Ok _) => true | _ => false end.

Definition thread_result (t : Thread) : option Status :=
  match t with Finished _ res => Some res | Running _ _ => None end.
End Machine.

(** The step list composed by [run_steps] is [prepare_steps]: the machine
    runs the calls of [prepare] and nothing else. *)
Lemma run_steps_prepare_step_list {L} `{DriverLimiter L} (env : ExecEnv) r s :
  run_steps (prepare_step_list env r) s = prepare_steps env r s.
Proof.
  unfold prepare_step_list, middle_steps. cbn [app run_steps].
  unfold prepare_steps, prepare_fragment_steps, Executor.mbind.
  repeat (lazymatch goal with
          | |- context [match ?m ?x with _ => _ end] => destruct (m x) as [[[]|?] ?]
          end; cbv beta iota).
  all: reflexivity.
Qed.


(** ** What the steps do to the registry's view *)

(** [m] changes neither any query's fragments and live count nor the
    executor's query. *)
Definition keeps_view {L} `{DriverLimiter L} {A}
    (m : World L * FragmentExecutor -> StatusOr A * (World L * FragmentExecutor)) : Prop :=
  forall s, query_view (m s).2.1 = query_view s.1 /\ fe_query_ctx (m s).2.2 = fe_query_ctx s.2.

Section Views.
Context {L : Type} `{DriverLimiterLaws L}.
Context (env : ExecEnv).
Abbreviation St := (World L * FragmentExecutor)%type.
Abbreviation MS A := (St -> StatusOr A * St).
Implicit Types (s : St).

Lemma keeps_view_bind {A B} (m : MS A) (f : A -> MS B) :
  keeps_view m -> (forall a, keeps_view (f a)) -> keeps_view (Executor.mbind m f).
Proof.
  intros Hm Hf s. specialize (Hm s). unfold Executor.mbind.
  destruct (m s) as [[a|e] s']; cbn in *; [|done].
  destruct (Hf a s') as [-> ->]. done.
Qed.

Lemma keeps_frame_keeps_view {A} (m : MS A) : keeps_frame m -> keeps_view m.
Proof. intros Hm s. destruct (Hm s) as (Hq & _ & _ & Hqc & _). unfold query_view. by rewrite Hq, Hqc. Qed.

Lemma keeps_view_modify_query_ctx f :
  (forall q, qc_view (f q) = qc_view q) -> keeps_view (L:=L) (modify_query_ctx f).
Proof.
  intros Hf s. unfold modify_query_ctx. destruct (fe_query_ctx s.2) as [qid|] eqn:Hqc; [|by split].
  split; [|done]. unfold query_view. cbn. apply map_eq. intros k. rewrite !lookup_fmap.
  destruct (decide (k = qid)) as [->|Hne].
  - rewrite lookup_alter, decide_True by done. destruct (w_query_ctxs s.1 !! qid); cbn; by rewrite ?Hf.
  - by rewrite lookup_alter_ne by congruence.
Qed.

Lemma keeps_view_modify_resources f : keeps_view (L:=L) (modify_resources f).
Proof. apply keeps_view_modify_query_ctx. done. Qed.

Lemma keeps_view_modify_fragment_ctx f : keeps_view (L:=L) (modify_fragment_ctx f).
Proof. intros s. by split. Qed.

Lemma keeps_view_acquire_driver_token n : keeps_view (L:=L) (acquire_driver_token n).
Proof.
  intros s. unfold acquire_driver_token.
  destruct (fe_fragment_ctx s.2); [destruct (dl_try_acquire _ _)|]; by split.
Qed.

Lemma keeps_view_prepare_fragment_ctx r : keeps_view (L:=L) (_prepare_fragment_ctx r).
Proof.
  intros s. unfold _prepare_fragment_ctx, mmodify, query_view. cbn.
  destruct (fe_fragment_ctx s.2) as [old|]; [|by split].
  unfold release_token. by destruct (fc_driver_token old).
Qed.
End Views.

Ltac view_solve :=
  repeat match goal with
  | |- keeps_view (Executor.mbind _ _) => apply keeps_view_bind; [|intros ?]
  | |- keeps_view (match ?x with _ => _ end) => destruct x
  | |- keeps_view (modify_query_ctx _) => apply keeps_view_modify_query_ctx; intros []; reflexivity
  | |- keeps_view (modify_resources _) => apply keeps_view_modify_resources
  | |- keeps_view (modify_fragment_ctx _) => apply keeps_view_modify_fragment_ctx
  | |- keeps_view (acquire_driver_token _) => apply keeps_view_acquire_driver_token
  | |- keeps_view _ =>
      solve [ apply keeps_frame_keeps_view; eauto with fe | intros ?; split; reflexivity ]
  end.

Section MiddleSteps.
Context {L : Type} `{DriverLimiterLaws L}.
Context (env : ExecEnv).

(** Every call between the query context and the registration keeps the
    registry's view. *)
Lemma middle_steps_keep_view r : Forall keeps_view (middle_steps (L:=L) env r).
Proof.
  unfold middle_steps. repeat apply List.Forall_cons; [..|apply List.Forall_nil].
  - apply keeps_view_prepare_fragment_ctx.
  - unfold _prepare_workgroup, init_query_once. view_solve.
  - unfold _prepare_runtime_state, init_mem_tracker, setup_desc_tbl. view_solve.
  - apply keeps_frame_keeps_view, keeps_frame_prepare_global_dict.
  - unfold _prepare_exec_plan. view_solve.
  - unfold _prepare_pipeline_driver. view_solve.
  - apply keeps_frame_keeps_view, keeps_frame_prepare_stream_load_pipe.
Qed.
End MiddleSteps.

(** ** One query's live count and fragments across the steps *)

(** The live fragments the registry counts for query [qid]. *)
Definition live_count {L} `{DriverLimiter L} (qid : Z) (w : World L) : nat :=
  default 0%nat (snd <$> query_view w !! qid).

(** The registry of query [qid] holds fragment instance [fid]. *)
Definition holds_fragment {L} `{DriverLimiter L} (qid fid : Z) (w : World L) : Prop :=
  exists v, query_view w !! qid = Some v /\ is_Some (v.1 !! fid).

Section StepFacts.
Context {L : Type} `{DriverLimiterLaws L}.
Abbreviation St := (World L * FragmentExecutor)%type.
Implicit Types (s : St).

Lemma live_count_lookup qid (w : World L) :
  live_count qid w = default 0%nat (qc_num_active_fragments <$> w_query_ctxs w !! qid).
Proof. unfold live_count, query_view. rewrite lookup_fmap. by destruct (w_query_ctxs w !! qid). Qed.

Lemma holds_fragment_lookup qid fid (w : World L) :
  holds_fragment qid fid w <-> exists q, w_query_ctxs w !! qid = Some q /\ is_Some (qc_fragments q !! fid).
Proof.
  unfold holds_fragment, query_view. rewrite lookup_fmap.
  destruct (w_query_ctxs w !! qid) as [q|]; cbn; split.
  - intros (v & [= <-] & Hv). eauto.
  - intros (q' & [= <-] & Hq). eauto.
  - by intros (v & ? & _).
  - by intros (q' & ? & _).
Qed.

Lemma w_query_ctxs_world_with_queries m (w : World L) : w_query_ctxs (world_with_queries m w) = m.
Proof. reflexivity. Qed.

Lemma check_mem_limit_state s : (check_mem_limit s).2 = s.
Proof. unfold check_mem_limit. by case_match. Qed.

Lemma fail_cleanup_no_query s : fe_query_ctx s.2 = None -> _fail_cleanup false s = s.
Proof. intros Hq. unfold _fail_cleanup. by rewrite Hq. Qed.

(** [_fail_cleanup(false)] counts the executor's query down once and keeps
    the fragments of a query that still has a live fragment. *)
Lemma fail_cleanup_count qid s :
  fe_query_ctx s.2 = Some qid ->
  live_count qid (_fail_cleanup false s).1 = (live_count qid s.1 - 1)%nat /\
  (2 <= live_count qid s.1 -> forall fid,
     holds_fragment qid fid s.1 -> holds_fragment qid fid (_fail_cleanup false s).1).
Proof.
  intros Hq.
  assert (exists w1, w_query_ctxs w1 = w_query_ctxs s.1 /\
            (_fail_cleanup false s).1 = world_with_queries (count_down_fragments qid (w_query_ctxs w1)) w1)
    as (w1 & Hw1 & ->).
  { unfold _fail_cleanup. rewrite Hq. destruct (fe_fragment_ctx s.2) as [fc|]; cbn; eauto.
    eexists. split; [|reflexivity]. by destruct (release_token_limiter fc (world_with_queries (w_query_ctxs s.1) s.1)) as (_ & -> & _). }
  rewrite !live_count_lookup, w_query_ctxs_world_with_queries, Hw1. split.
  - pose proof (count_down_fragments_count qid (w_query_ctxs s.1)) as Hc.
    by rewrite <- live_count_lookup in *.
  - intros H2 fid. rewrite !holds_fragment_lookup, w_query_ctxs_world_with_queries,
      count_down_fragments_lookup_eq.
    intros (q & Hl & Hf). rewrite Hl. rewrite Hl in H2. cbn in H2.
    destruct (qc_num_active_fragments q) as [|[|n]] eqn:Hn; [lia | lia |].
    eexists. split; [reflexivity | exact Hf].
Qed.

Lemma prepare_query_ctx_Err r s e s' : _prepare_query_ctx r s = (Err e, s') -> s' = s.
Proof.
  unfold _prepare_query_ctx. case_match; [by intros [= _ <-]|].
  by destruct (get_or_register _ _).
Qed.

(** A successful [_prepare_query_ctx] counts one more live fragment of the
    request's query and keeps its fragments. *)
Lemma prepare_query_ctx_Ok r s u s' :
  _prepare_query_ctx r s = (Ok u, s') ->
  fe_query_ctx s'.2 = Some (req_query_id r) /\
  live_count (req_query_id r) s'.1 = S (live_count (req_query_id r) s.1) /\
  (forall fid, holds_fragment (req_query_id r) fid s.1 -> holds_fragment (req_query_id r) fid s'.1).
Proof.
  unfold _prepare_query_ctx. case_match; [discriminate|].
  destruct (get_or_register _ _) as [q m] eqn:Hg. intros [= _ <-].
  unfold get_or_register in Hg. injection Hg as <- <-. cbn [fst snd].
  rewrite !live_count_lookup, w_query_ctxs_world_with_queries, lookup_insert_eq.
  split; [done|]. split.
  - cbn. by destruct (w_query_ctxs s.1 !! req_query_id r).
  - intros fid. rewrite !holds_fragment_lookup, w_query_ctxs_world_with_queries, lookup_insert_eq.
    intros (q0 & Hl & Hf). eexists. split; [reflexivity|]. cbn. by rewrite Hl.
Qed.

Lemma register_fragment_Err r s e s' : register_fragment r s = (Err e, s') -> s' = s.
Proof.
  unfold register_fragment. intros Hr.
  assert (forall fc s1, get_fragment_ctx (L:=L) s = (Ok fc, s1) -> s1 = s) as Hg1
    by (unfold get_fragment_ctx; destruct (fe_fragment_ctx s.2); congruence).
  assert (forall q s2, get_query_ctx (L:=L) s = (Ok q, s2) -> s2 = s) as Hg2
    by (unfold get_query_ctx; repeat case_match; congruence).
  destruct (mbind_Err_inv _ _ _ _ _ Hr) as [H1|(fc & s1 & H1 & Hr1)].
  { unfold get_fragment_ctx in H1. destruct (fe_fragment_ctx s.2); congruence. }
  rewrite (Hg1 _ _ H1) in Hr1.
  destruct (mbind_Err_inv _ _ _ _ _ Hr1) as [H2|(q & s2 & H2 & Hr2)].
  { unfold get_query_ctx in H2. repeat case_match; congruence. }
  rewrite (Hg2 _ _ H2) in Hr2.
  destruct (mbind_Err_inv _ _ _ _ _ Hr2) as [H3|(q' & s3 & H3 & Hr3)].
  { unfold mlift in H3. congruence. }
  unfold modify_query_ctx in Hr3. case_match; discriminate.
Qed.

(** A successful registration adds the request's fragment instance, which
    the query did not hold, and keeps the live count. *)
Lemma register_fragment_holds r s u s' qid :
  fe_query_ctx s.2 = Some qid -> register_fragment r s = (Ok u, s') ->
  fe_query_ctx s'.2 = Some qid /\ live_count qid s'.1 = live_count qid s.1 /\
  holds_fragment qid (req_fragment_instance_id r) s'.1 /\
  ~ holds_fragment qid (req_fragment_instance_id r) s.1.
Proof.
  intros Hq. unfold register_fragment, Executor.mbind, get_fragment_ctx, get_query_ctx, mlift.
  destruct (fe_fragment_ctx s.2) as [fc|]; [|discriminate]. rewrite Hq.
  destruct (w_query_ctxs s.1 !! qid) as [q|] eqn:Hl; [|discriminate].
  destruct (register_ctx _ _ _) as [q'|] eqn:Hreg; [|discriminate].
  destruct (register_ctx_Ok _ _ _ _ Hreg) as [Hnone Hins].
  unfold modify_query_ctx. rewrite Hq. intros [= _ <-]. cbn [fst snd set_world].
  rewrite !live_count_lookup, !holds_fragment_lookup, w_query_ctxs_world_with_queries,
    lookup_alter, decide_True, Hl by done.
  split; [done|]. split; [|split].
  - cbn. unfold register_ctx in Hreg. rewrite Hnone in Hreg. by injection Hreg as <-.
  - eexists. split; [reflexivity|]. cbn. rewrite Hins, lookup_insert_eq. by eexists.
  - intros (q0 & [= <-] & Hf). rewrite Hnone in Hf. by destruct Hf.
Qed.
End StepFacts.

(** ** At most one of two prepares of a fragment instance succeeds *)

Section Safety.
Context {L : Type} `{DriverLimiterLaws L}.
Context (env : ExecEnv) (qid fid : Z).

(** The live fragments a thread accounts for in query [qid]. *)
Definition holds (t : @Thread L) : nat :=
  match t with
  | Running ex _ => match fe_query_ctx ex with Some _ => 1 | None => 0 end
  | Finished _ (Ok _) => 1
  | Finished _ (Err _) => 0
  end.

(** The thread has registered its fragment instance. *)
Definition registered (t : @Thread L) : bool :=
  match t with
  | Running _ [] => true
  | Finished _ (Ok _) => true
  | _ => false
  end.

(** Where a thread running a prepare of [r] can be. *)
Inductive shape (r : UnifiedExecPlanFragmentParams) : @Thread L -> Prop :=
| shape_start : shape r (Running new_executor (prepare_step_list env r))
| shape_checked :
    shape r (Running new_executor (_prepare_query_ctx r :: middle_steps env r ++ [register_fragment r]))
| shape_middle ex k :
    fe_query_ctx ex = Some qid ->
    shape r (Running ex (drop k (middle_steps env r) ++ [register_fragment r]))
| shape_registered ex : fe_query_ctx ex = Some qid -> shape r (Running ex [])
| shape_ok ex : shape r (Finished ex OK)
| shape_err ex e : shape r (Finished ex (Err e)).

Record machine_inv (r1 r2 : UnifiedExecPlanFragmentParams) (m : @Machine L) : Prop := {
  mi_left : shape r1 (m_left m);
  mi_right : shape r2 (m_right m);
  mi_count : (holds (m_left m) + holds (m_right m) <= live_count qid (m_world m))%nat;
  mi_reg_left : registered (m_left m) = true -> holds_fragment qid fid (m_world m);
  mi_reg_right : registered (m_right m) = true -> holds_fragment qid fid (m_world m);
  mi_excl : ~ (registered (m_left m) = true /\ registered (m_right m) = true) }.
End Safety.

Section SafetyProofs.
Context {L : Type} `{DriverLimiterLaws L}.
Context (env : ExecEnv) (qid fid : Z).
Implicit Types (w : World L) (t : @Thread L).

Lemma live_count_view w w' : query_view w' = query_view w -> live_count qid w' = live_count qid w.
Proof. unfold live_count. by intros ->. Qed.

Lemma holds_fragment_view w w' :
  query_view w' = query_view w -> holds_fragment qid fid w' <-> holds_fragment qid fid w.
Proof. unfold holds_fragment. by intros ->. Qed.

Lemma registered_holds r t : shape env qid r t -> registered t = true -> holds t = 1%nat.
Proof.
  intros [| |ex k Hq|ex Hq|ex|ex e]; cbn; try discriminate; try done.
  - by destruct (drop k _).
  - by rewrite Hq.
Qed.

Lemma drop_S_cons {A} (l : list A) k x xs : drop k l = x :: xs -> drop (S k) l = xs.
Proof. intros Hd. by rewrite <- Nat.add_1_r, <- drop_drop, Hd. Qed.

(** A failed call of a thread that holds a live fragment: the cleanup
    counts it down and keeps what the other thread registered. *)
Lemma thread_fail_inv (s : World L * FragmentExecutor) (h_o : nat) (b_o : bool) :
  fe_query_ctx s.2 = Some qid ->
  (1 + h_o <= live_count qid s.1)%nat ->
  (b_o = true -> holds_fragment qid fid s.1) -> (b_o = true -> h_o = 1%nat) ->
  (h_o <= live_count qid (_fail_cleanup false s).1)%nat /\
  (b_o = true -> holds_fragment qid fid (_fail_cleanup false s).1).
Proof.
  intros Hq Hc Hb Hh. destruct (fail_cleanup_count qid s Hq) as [-> Hkeep]. split; [lia|].
  intros Hbo. apply Hkeep; [specialize (Hh Hbo); lia | auto].
Qed.

(** One step of a thread preparing [r] keeps the invariant, whatever the
    other thread accounts for ([h_o]) and whether it registered ([b_o]). *)
Lemma thread_step_inv r t w w' t' (h_o : nat) (b_o : bool) :
  req_query_id r = qid -> req_fragment_instance_id r = fid ->
  shape env qid r t ->
  (holds t + h_o <= live_count qid w)%nat ->
  (registered t = true -> holds_fragment qid fid w) ->
  (b_o = true -> holds_fragment qid fid w) -> (b_o = true -> h_o = 1%nat) ->
  ~ (registered t = true /\ b_o = true) ->
  thread_step w t = Some (w', t') ->
  shape env qid r t' /\ (holds t' + h_o <= live_count qid w')%nat /\
  (registered t' = true -> holds_fragment qid fid w') /\
  (b_o = true -> holds_fragment qid fid w') /\ ~ (registered t' = true /\ b_o = true).
Proof.
  intros Hqid Hfid Hshape Hc Hr Hb Hh Hx Hstep.
  destruct Hshape as [| |ex k Hq|ex Hq|ex|ex e]; cbn in Hstep.
  - (* the memory check *)
    pose proof (check_mem_limit_state (L:=L) (w, new_executor)) as Hs.
    destruct (check_mem_limit (w, new_executor)) as [[u|e] s'] eqn:Hm; cbn in Hs; subst s';
      injection Hstep as <- <-.
    + split_and!; [apply shape_checked | exact Hc | discriminate | exact Hb | by intros []].
    + split_and!; [apply shape_err | exact Hc | discriminate | exact Hb | by intros []].
  - (* the query context *)
    destruct (_prepare_query_ctx r (w, new_executor)) as [[u|e] s'] eqn:Hpq;
      injection Hstep as <- <-.
    + destruct (prepare_query_ctx_Ok _ _ _ _ Hpq) as (Hq' & Hcnt & Hkeep). rewrite Hqid in *.
      split_and!.
      * apply (shape_middle env qid r s'.2 0 Hq').
      * cbn [fst] in Hcnt. cbn in Hc |- *. rewrite Hq', Hcnt. lia.
      * by destruct (middle_steps env r).
      * intros Hbo. apply Hkeep, Hb, Hbo.
      * by intros [? _]; destruct (middle_steps env r).
    + rewrite (prepare_query_ctx_Err _ _ _ _ Hpq). cbn.
      split_and!; [apply shape_err | exact Hc | discriminate | exact Hb | by intros []].
  - pose proof (Forall_drop keeps_view k (middle_steps env r) (middle_steps_keep_view env r)) as Hall.
    assert (holds (Running ex (drop k (middle_steps env r) ++ [register_fragment r])) = 1%nat)
      as Hh1 by (cbn; by rewrite Hq).
    rewrite Hh1 in Hc.
    destruct (drop k (middle_steps env r)) as [|m ms] eqn:Hd; cbn in Hstep.
    + (* the registration *)
      destruct (register_fragment r (w, ex)) as [[u|e] s'] eqn:Hreg; injection Hstep as <- <-.
      * destruct (register_fragment_holds r (w, ex) u s' qid Hq Hreg) as (Hq' & Hcnt & Hin & Hnot).
        rewrite Hfid in Hin, Hnot.
        split_and!.
        -- by apply shape_registered.
        -- cbn [fst] in Hcnt. cbn. rewrite Hq', Hcnt. lia.
        -- intros _. exact Hin.
        -- intros Hbo. by destruct (Hnot (Hb Hbo)).
        -- intros [_ Hbo]. by destruct (Hnot (Hb Hbo)).
      * rewrite (register_fragment_Err _ _ _ _ Hreg).
        destruct (thread_fail_inv (w, ex) h_o b_o Hq Hc Hb Hh) as [Hc' Hb'].
        split_and!; [apply shape_err | exact Hc' | discriminate | exact Hb' | by intros []].
    + (* a call between the two *)
      apply Forall_cons in Hall as [Hview _].
      destruct (m (w, ex)) as [[u|e] s'] eqn:Hm; injection Hstep as <- <-;
        destruct (Hview (w, ex)) as [Hv Hq']; rewrite Hm in Hv, Hq'; cbn in Hv, Hq'.
      * split_and!.
        -- rewrite <- (drop_S_cons _ _ _ _ Hd). apply shape_middle. by rewrite Hq'.
        -- cbn. rewrite Hq', Hq, (live_count_view _ _ Hv). cbn [fst] in Hc. lia.
        -- by destruct ms.
        -- intros Hbo. apply (holds_fragment_view _ _ Hv), Hb, Hbo.
        -- by intros [? _]; destruct ms.
      * rewrite Hq in Hq'.
        rewrite <- (live_count_view _ _ Hv) in Hc.
        destruct (thread_fail_inv s' h_o b_o Hq' Hc
                   (fun Hbo => proj2 (holds_fragment_view _ _ Hv) (Hb Hbo)) Hh) as [Hc' Hb'].
        split_and!; [apply shape_err | exact Hc' | discriminate | exact Hb' | by intros []].
  - (* the return *)
    injection Hstep as <- <-. cbn in Hc |- *. rewrite Hq in Hc.
    split_and!; [apply shape_ok | exact Hc | exact Hr | exact Hb | exact Hx].
  - discriminate.
  - discriminate.
Qed.
End SafetyProofs.

Section MachineProofs.
Context {L : Type} `{DriverLimiterLaws L}.
Context (env : ExecEnv).

Lemma machine_inv_start (w : World L) r1 r2 :
  machine_inv env (req_query_id r1) (req_fragment_instance_id r1) r1 r2 (start env w r1 r2).
Proof.
  split; cbn; try apply shape_start; try discriminate; [lia|]. by intros [? _].
Qed.

Lemma mstep_machine_inv r1 r2 m m' :
  let qid := req_query_id r1 in let fid := req_fragment_instance_id r1 in
  req_query_id r2 = qid -> req_fragment_instance_id r2 = fid ->
  machine_inv env qid fid r1 r2 m -> mstep m m' -> machine_inv env qid fid r1 r2 m'.
Proof.
  intros qid fid Hq2 Hf2 [Hs1 Hs2 Hc Hr1 Hr2 Hx] Hstep.
  destruct Hstep as [w t1 t2 w' t1' Hs | w t1 t2 w' t2' Hs]; cbn in *.
  - destruct (thread_step_inv env qid fid r1 t1 w w' t1' (holds t2) (registered t2)
                eq_refl eq_refl Hs1 Hc Hr1 Hr2 (registered_holds env qid r2 t2 Hs2) Hx Hs)
      as (Hs1' & Hc' & Hr1' & Hr2' & Hx'). by split.
  - destruct (thread_step_inv env qid fid r2 t2 w w' t2' (holds t1) (registered t1)
                Hq2 Hf2 Hs2 ltac:(lia) Hr2 Hr1 (registered_holds env qid r1 t1 Hs1)
                ltac:(intros []; auto) Hs)
      as (Hs2' & Hc' & Hr2' & Hr1' & Hx').
    split; cbn; auto; [lia | intros []; auto].
Qed.

Lemma mstar_machine_inv r1 r2 m m' :
  req_query_id r2 = req_query_id r1 -> req_fragment_instance_id r2 = req_fragment_instance_id r1 ->
  machine_inv env (req_query_id r1) (req_fragment_instance_id r1) r1 r2 m -> mstar m m' ->
  machine_inv env (req_query_id r1) (req_fragment_instance_id r1) r1 r2 m'.
Proof.
  intros Hq Hf Hinv Hstar. induction Hstar as [m|m1 m2 m3 Hs _ IH]; [done|].
  apply IH. exact (mstep_machine_inv r1 r2 m1 m2 Hq Hf Hinv Hs).
Qed.

Lemma run_schedule_mstar sched (m : @Machine L) : mstar m (run_schedule sched m).
Proof.
  revert m. induction sched as [|b sched IH]; intros m; cbn; [constructor|].
  destruct b; cbn.
  - destruct (thread_step (m_world m) (m_left m)) as [[w' t']|] eqn:Hs; [|apply IH].
    eapply mstar_step; [|apply IH]. destruct m; cbn in *. by apply mstep_left.
  - destruct (thread_step (m_world m) (m_right m)) as [[w' t']|] eqn:Hs; [|apply IH].
    eapply mstar_step; [|apply IH]. destruct m; cbn in *. by apply mstep_right.
Qed.

End MachineProofs.

(** ** Sample schedules *)

(** Both threads pass [_prepare_query_ctx] before either goes on. *)
Definition race_schedule : list bool :=
  [true; true; false; false] ++ repeat true 12 ++ repeat false 12.

(** The left thread runs to the end before the right one starts. *)
Definition sequential_schedule : list bool := repeat true 12 ++ repeat false 12.

(** Two prepares of fragment 70 of query 7 on a back end with eight driver
    slots. *)
Definition sample_race_start : @Machine CountingLimiter :=
  start (sample_env 0) (sample_world 8) (sample_scan_request false true) (sample_scan_request false true).

Lemma finished_ok_registered {L} `{DriverLimiter L} (t : @Thread L) :
  finished_ok t = true -> registered t = true.
Proof. destruct t as [? ?|? [[]|?]]; done. Qed.

(** ** Theorems *)

Section ConcurrencyTheorems.
Context {L : Type} `{DriverLimiterLaws L}.
Context (env : ExecEnv).

(** C12: two prepares of one fragment instance, interleaved in any order
    on one back end, never both succeed: the registration at line 737
    refuses the second, whatever the duplicate check saw. *)
Theorem concurrent_prepares_exclusive (w : World L) r1 r2 m :
  req_query_id r2 = req_query_id r1 -> req_fragment_instance_id r2 = req_fragment_instance_id r1 ->
  mstar (start env w r1 r2) m ->
  ~ (finished_ok (m_left m) = true /\ finished_ok (m_right m) = true).
Proof.
  intros Hq Hf Hstar [H1 H2].
  destruct (mstar_machine_inv env r1 r2 _ _ Hq Hf (machine_inv_start env w r1 r2) Hstar)
    as [_ _ _ _ _ Hx].
  apply Hx. split; by apply finished_ok_registered.
Qed.
End ConcurrencyTheorems.

(** The duplicate check is not atomic with the registration (a finding of
    the manifest).  When
    both threads pass [_prepare_query_ctx] before either registers, the
    second prepare fails in [register_ctx] with an internal error; run one
    after the other, the second is refused with [DuplicateRpcInvocation]. *)
Example race_duplicate_not_detected :
  mstar sample_race_start (run_schedule race_schedule sample_race_start) /\
  thread_result (m_left (run_schedule race_schedule sample_race_start)) = Some OK /\
  thread_result (m_right (run_schedule race_schedule sample_race_start)) = Some (Err InternalError) /\
  thread_result (m_right (run_schedule sequential_schedule sample_race_start)) =
    Some (Err DuplicateRpcInvocation).
Proof. split; [apply run_schedule_mstar|]. vm_compute. split_and!; reflexivity. Qed.

(** ** Witnesses *)

Lemma concurrent_prepares_exclusive_witness :
  ~ (finished_ok (m_left (run_schedule race_schedule sample_race_start)) = true /\
     finished_ok (m_right (run_schedule race_schedule sample_race_start)) = true).
Proof.
  apply (concurrent_prepares_exclusive (sample_env 0) (sample_world 8)
           (sample_scan_request false true) (sample_scan_request false true)); [reflexivity | reflexivity |].
  apply run_schedule_mstar.
Defined.

